(** * WorkStream Monitor: task store, derived metrics and daily summary

    A shallow embedding of [task_manager.py], [analytics.py] and the
    figures of [risk_badges] in [ui_components.py].

    - Python [str] values are Rocq strings, one [ascii] per code point
      (code points below 256).
    - A pandas cell is a [cell]: a text or the missing value NaN.
    - The task table kept in [st.session_state] is a mutable object: frames
      live in a heap and the session holds a reference, so that
      [DataFrame.copy], [df.at[i, col] = v] and [_set_tasks_df] keep their
      aliasing behaviour.
    - [datetime.utcnow()] and [uuid.uuid4()] read an environment: the k-th
      clock reading and the k-th identifier drawn. *)

From Stdlib Require Import ZArith Ascii String DecimalString Lia.
From stdpp Require Import base option list gmap strings relations.

Local Open Scope Z_scope.

(** ** Python strings *)

(** [str.isspace] on one code point below 256: TAB..CR, FS..US, SPACE,
    NEL (0x85) and NBSP (0xA0). *)
Definition isspace (c : ascii) : bool :=
  let n := Z.of_N (N_of_ascii c) in
  ((9 <=? n) && (n <=? 13)) || ((28 <=? n) && (n <=? 32))
  || (n =? 133) || (n =? 160).

Fixpoint lstrip (s : string) : string :=
  match s with
  | EmptyString => EmptyString
  | String c s' => if isspace c then lstrip s' else s
  end.

Definition rstrip (s : string) : string := String.rev (lstrip (String.rev s)).

(** [s.strip()] *)
Definition strip (s : string) : string := rstrip (lstrip s).

(** Truth value of a [str]: the empty string is falsy. *)
Definition truthy (s : string) : bool :=
  match s with EmptyString => false | String _ _ => true end.

(** A text that is empty or made of white space only. *)
Fixpoint blank (s : string) : bool :=
  match s with
  | EmptyString => true
  | String c s' => isspace c && blank s'
  end.

(** [sep.join(xs)] *)
Fixpoint join (sep : string) (xs : list string) : string :=
  match xs with
  | [] => ""
  | [x] => x
  | x :: rest => x +:+ sep +:+ join sep rest
  end.

(** The text ["\n"]. *)
Definition newline : string := String "010" "".

(** [str(n)] for a non-negative count. *)
Definition str_of_nat (n : nat) : string := NilEmpty.string_of_uint (Nat.to_uint n).

(** ** datetime *)

Record datetime := Datetime {
  year : Z; month : Z; day : Z;
  hour : Z; minute : Z; second : Z; microsecond : Z
}.

Definition _is_leap (y : Z) : bool :=
  (y mod 4 =? 0) && (negb (y mod 100 =? 0) || (y mod 400 =? 0)).

Definition _DAYS_IN_MONTH : list Z := [-1; 31; 28; 31; 30; 31; 30; 31; 31; 30; 31; 30; 31].
Definition _DAYS_BEFORE_MONTH : list Z :=
  [-1; 0; 31; 59; 90; 120; 151; 181; 212; 243; 273; 304; 334].

Definition _days_before_year (y : Z) : Z :=
  let y := y - 1 in y * 365 + y / 4 - y / 100 + y / 400.

Definition _days_in_month (y m : Z) : Z :=
  if (m =? 2) && _is_leap y then 29 else nth (Z.to_nat m) _DAYS_IN_MONTH 0.

Definition _days_before_month (y m : Z) : Z :=
  nth (Z.to_nat m) _DAYS_BEFORE_MONTH 0 + (if (2 <? m) && _is_leap y then 1 else 0).

Definition _ymd2ord (y m d : Z) : Z :=
  _days_before_year y + _days_before_month y m + d.

Definition toordinal (t : datetime) : Z := _ymd2ord (year t) (month t) (day t).

(** The field ranges the [datetime] constructor checks. *)
Definition valid_datetime (t : datetime) : bool :=
  (1 <=? year t) && (year t <=? 9999) &&
  (1 <=? month t) && (month t <=? 12) &&
  (1 <=? day t) && (day t <=? _days_in_month (year t) (month t)) &&
  (0 <=? hour t) && (hour t <=? 23) &&
  (0 <=? minute t) && (minute t <=? 59) &&
  (0 <=? second t) && (second t <=? 59) &&
  (0 <=? microsecond t) && (microsecond t <=? 999999).

(** [timedelta(days, seconds, microseconds)], normalised as Python does:
    [0 <= seconds < 86400] and [0 <= microseconds < 1000000], the carries
    going into [days] (floor division). *)
Record timedelta := Timedelta { days : Z; seconds : Z; microseconds : Z }.

Definition mk_timedelta (d s us : Z) : timedelta :=
  let s := s + us / 1000000 in
  {| days := d + s / 86400; seconds := s mod 86400; microseconds := us mod 1000000 |}.

(** [a - b] on two naive datetimes. *)
Definition datetime_sub (a b : datetime) : timedelta :=
  let secs1 := second a + minute a * 60 + hour a * 3600 in
  let secs2 := second b + minute b * 60 + hour b * 3600 in
  mk_timedelta (toordinal a - toordinal b) (secs1 - secs2) (microsecond a - microsecond b).

(** Comparison of naive datetimes: lexicographic on the seven fields. *)
Definition lex (c : comparison) (k : comparison) : comparison :=
  match c with Eq => k | _ => c end.

Definition datetime_cmp (a b : datetime) : comparison :=
  lex (year a ?= year b) (lex (month a ?= month b) (lex (day a ?= day b)
  (lex (hour a ?= hour b) (lex (minute a ?= minute b) (lex (second a ?= second b)
  (microsecond a ?= microsecond b)))))).

Definition datetime_le (a b : datetime) : Prop := datetime_cmp a b <> Gt.

(** *** ISO-8601 text *)

Definition digit_char (d : Z) : ascii := ascii_of_N (Z.to_N (48 + d)).

Definition digit_val (c : ascii) : option Z :=
  let n := Z.of_N (N_of_ascii c) in
  if (48 <=? n) && (n <=? 57) then Some (n - 48) else None.

(** ["%0nd" % v] for [0 <= v < 10^n], the range of every datetime field. *)
Fixpoint zero_pad (n : nat) (v : Z) : string :=
  match n with
  | O => ""
  | S n' => String (digit_char (v / 10 ^ Z.of_nat n'))
                   (zero_pad n' (v mod 10 ^ Z.of_nat n'))
  end.

(** [t.isoformat()]: the fraction is printed only when it is not zero. *)
Definition isoformat (t : datetime) : string :=
  zero_pad 4 (year t) +:+ "-" +:+ zero_pad 2 (month t) +:+ "-" +:+ zero_pad 2 (day t)
  +:+ "T" +:+ zero_pad 2 (hour t) +:+ ":" +:+ zero_pad 2 (minute t) +:+ ":"
  +:+ zero_pad 2 (second t)
  +:+ (if microsecond t =? 0 then "" else "." +:+ zero_pad 6 (microsecond t)).

(** Exactly [n] decimal digits at the head of [s]. *)
Fixpoint read_digits (n : nat) (s : string) : option (Z * string) :=
  match n with
  | O => Some (0, s)
  | S n' =>
      match s with
      | EmptyString => None
      | String c s' =>
          d ← digit_val c;
          '(v, rest) ← read_digits n' s';
          Some (d * 10 ^ Z.of_nat n' + v, rest)
      end
  end.

Definition expect (c : ascii) (s : string) : option string :=
  match s with
  | String c' s' => if decide (c = c') then Some s' else None
  | EmptyString => None
  end.

Definition checked (t : datetime) : option datetime :=
  if valid_datetime t then Some t else None.

(** [datetime.fromisoformat(s)] on the shapes [isoformat] writes
    ([YYYY-MM-DD], then optionally one separator character, [HH:MM:SS] and
    optionally [.ffffff]); [None] stands for the [ValueError].  Python
    accepts further ISO-8601 spellings, which the store never writes. *)
Definition fromisoformat (s : string) : option datetime :=
  '(y, s) ← read_digits 4 s;
  s ← expect "-" s;
  '(m, s) ← read_digits 2 s;
  s ← expect "-" s;
  '(d, s) ← read_digits 2 s;
  match s with
  | EmptyString => checked (Datetime y m d 0 0 0 0)
  | String _ s =>
      '(hh, s) ← read_digits 2 s;
      s ← expect ":" s;
      '(mm, s) ← read_digits 2 s;
      s ← expect ":" s;
      '(ss, s) ← read_digits 2 s;
      match s with
      | EmptyString => checked (Datetime y m d hh mm ss 0)
      | String c s =>
          if decide (c = "."%char) then
            '(us, s) ← read_digits 6 s;
            match s with
            | EmptyString => checked (Datetime y m d hh mm ss us)
            | String _ _ => None
            end
          else None
      end
  end.

(** ** Frames *)

(** A cell of a pandas frame: a Python [str] or the missing value. *)
Inductive cell := Str (s : string) | NaN.

Global Instance cell_eq_dec : EqDecision cell.
Proof. solve_decision. Defined.

Global Instance cell_countable : Countable cell.
Proof.
  refine (inj_countable' (λ c, match c with Str s => Some s | NaN => None end)
                         (λ o, match o with Some s => Str s | None => NaN end) _).
  by intros [].
Defined.

(** The seven stored columns, in the order of the frame. *)
Inductive column :=
  | c_task_id | c_title | c_description | c_owner | c_status
  | c_created_at | c_last_updated_at.

Global Instance column_eq_dec : EqDecision column.
Proof. solve_decision. Defined.

Definition column_name (c : column) : string :=
  match c with
  | c_task_id => "task_id" | c_title => "title" | c_description => "description"
  | c_owner => "owner" | c_status => "status" | c_created_at => "created_at"
  | c_last_updated_at => "last_updated_at"
  end.

Definition required_cols : list column :=
  [c_task_id; c_title; c_description; c_owner; c_status; c_created_at; c_last_updated_at].

(** One row of the task table (one task). *)
Record row := Row {
  task_id : cell; title : cell; description : cell; owner : cell;
  status : cell; created_at : cell; last_updated_at : cell
}.

Global Instance row_eq_dec : EqDecision row.
Proof. solve_decision. Defined.

Definition get_col (c : column) (r : row) : cell :=
  match c with
  | c_task_id => task_id r | c_title => title r | c_description => description r
  | c_owner => owner r | c_status => status r | c_created_at => created_at r
  | c_last_updated_at => last_updated_at r
  end.

Definition set_col (c : column) (v : cell) (r : row) : row :=
  match c with
  | c_task_id => Row v (title r) (description r) (owner r) (status r) (created_at r) (last_updated_at r)
  | c_title => Row (task_id r) v (description r) (owner r) (status r) (created_at r) (last_updated_at r)
  | c_description => Row (task_id r) (title r) v (owner r) (status r) (created_at r) (last_updated_at r)
  | c_owner => Row (task_id r) (title r) (description r) v (status r) (created_at r) (last_updated_at r)
  | c_status => Row (task_id r) (title r) (description r) (owner r) v (created_at r) (last_updated_at r)
  | c_created_at => Row (task_id r) (title r) (description r) (owner r) (status r) v (last_updated_at r)
  | c_last_updated_at => Row (task_id r) (title r) (description r) (owner r) (status r) (created_at r) v
  end.

(** The task table: rows in index order; the index is always 0..n-1
    ([ignore_index=True], [read_csv], [DataFrame(list)]). *)
Abbreviation frame := (list row).

(** A tokenised CSV file: the header line and the records, quoting undone. *)
Record csv_file := Csv { header : list string; records : list (list string) }.

(** ** The world: session state, heap of frames, files, messages *)

Abbreviation ref := positive.

Record session_state := Session {
  tasks_df : option ref;
  inactivity_threshold_days : option Z
}.

Inductive level := Error | Warning.

Record world := World {
  heap : gmap positive frame;
  session : session_state;
  files : gmap string csv_file;
  messages : list (level * string);
  ticks : nat;
  draws : nat
}.

(** What the process reads from outside: the k-th value of
    [datetime.utcnow()] and of [str(uuid.uuid4())]. *)
Record env := Env { clock : nat → datetime; uuid4 : nat → string }.

Inductive exn := ValueError | TypeError | AttributeError | KeyError | ParserError.

Inductive outcome (A : Type) := Ok (a : A) | Raise (e : exn).
Global Arguments Ok {A} a.
Global Arguments Raise {A} e.

(** State and exception monad of the embedding. *)
Definition M (A : Type) : Type := world → outcome A * world.

Definition ret {A} (a : A) : M A := λ w, (Ok a, w).
Definition bind {A B} (m : M A) (k : A → M B) : M B :=
  λ w, match m w with
       | (Ok a, w') => k a w'
       | (Raise e, w') => (Raise e, w')
       end.
Definition raise {A} (e : exn) : M A := λ w, (Raise e, w).

Declare Scope py_scope.
Delimit Scope py_scope with py.
Notation "x <- m ;; k" := (bind m (λ x, k))
  (at level 100, m at next level, right associativity) : py_scope.
Notation "m ;; k" := (bind m (λ _, k))
  (at level 100, right associativity) : py_scope.
Local Open Scope py_scope.

Definition get_session : M session_state := λ w, (Ok (session w), w).
Definition put_session (s : session_state) : M unit :=
  λ w, (Ok tt, World (heap w) s (files w) (messages w) (ticks w) (draws w)).

(** [st.error(msg)] and [st.warning(msg)] *)
Definition st_error (msg : string) : M unit :=
  λ w, (Ok tt, World (heap w) (session w) (files w) (messages w ++ [(Error, msg)]) (ticks w) (draws w)).
Definition st_warning (msg : string) : M unit :=
  λ w, (Ok tt, World (heap w) (session w) (files w) (messages w ++ [(Warning, msg)]) (ticks w) (draws w)).

(** [datetime.utcnow()] *)
Definition utcnow (E : env) : M datetime :=
  λ w, (Ok (clock E (ticks w)),
        World (heap w) (session w) (files w) (messages w) (S (ticks w)) (draws w)).

(** [str(uuid.uuid4())] *)
Definition new_uuid (E : env) : M string :=
  λ w, (Ok (uuid4 E (draws w)),
        World (heap w) (session w) (files w) (messages w) (ticks w) (S (draws w))).

(** A new frame object. *)
Definition alloc (f : frame) : M ref :=
  λ w, let r := fresh (dom (heap w)) in
       (Ok r, World (<[r := f]> (heap w)) (session w) (files w) (messages w) (ticks w) (draws w)).

(** The rows of the frame object [r]. *)
Definition rows_of (r : ref) : M frame := λ w, (Ok (default [] (heap w !! r)), w).

(** In-place replacement of the rows of the frame object [r]. *)
Definition mutate (r : ref) (g : frame → frame) : M unit :=
  λ w, (Ok tt, World (alter g r (heap w)) (session w) (files w) (messages w) (ticks w) (draws w)).

(** [df.copy()] *)
Definition copy (df : ref) : M ref := f <- rows_of df;; alloc f.

(** The dtype of a column, as far as a write depends on it.  In a table
    with rows, a column in which no cell holds a text is a float64 column:
    that is how [pd.read_csv], the only source of missing values, types a
    column of empty fields.  A column that holds a text is an object
    column, and so is every column of a table without rows. *)
Definition float_column (c : column) (f : frame) : bool :=
  match f with
  | [] => false
  | _ :: _ => forallb (λ r, bool_decide (get_col c r = NaN)) f
  end.

(** [df.at[i, col] = v]: a text written into a float64 column raises
    [TypeError]; pandas sets no incompatible value in place. *)
Definition at_set (df : ref) (i : nat) (c : column) (v : cell) : M unit :=
  f <- rows_of df;;
  match v with
  | Str _ => if float_column c f then raise TypeError
             else mutate df (alter (set_col c v) i)
  | NaN => mutate df (alter (set_col c v) i)
  end.

(** [df.index[df[col] == v]] *)
Fixpoint index_eq_from (k : nat) (c : column) (v : cell) (f : frame) : list nat :=
  match f with
  | [] => []
  | r :: f' => if decide (get_col c r = v) then k :: index_eq_from (S k) c v f'
               else index_eq_from (S k) c v f'
  end.
Definition index_eq (c : column) (v : cell) (f : frame) : list nat := index_eq_from 0 c v f.

(** [pd.concat([df, pd.DataFrame(new_rows)], ignore_index=True)] *)
Definition concat (df : ref) (new_rows : list row) : M ref :=
  f <- rows_of df;; alloc (f ++ new_rows).

(** ** task_manager.py *)

Definition VALID_STATUSES : list string := ["Planned"; "In Progress"; "Blocked"; "Completed"].
Definition DEFAULT_INACTIVITY_THRESHOLD_DAYS : Z := 3.
Definition DEFAULT_DATA_PATH : string := "data/tasks.csv".

Definition _init_session_state : M unit :=
  s <- get_session;;
  (match tasks_df s with
   | None => df <- alloc [];; put_session (Session (Some df) (inactivity_threshold_days s))
   | Some _ => ret tt
   end);;
  s <- get_session;;
  match inactivity_threshold_days s with
  | None => put_session (Session (tasks_df s) (Some DEFAULT_INACTIVITY_THRESHOLD_DAYS))
  | Some _ => ret tt
  end.

(** [st.session_state["tasks_df"]]; the key exists after
    [_init_session_state]. *)
Definition session_tasks_df : M ref :=
  s <- get_session;;
  match tasks_df s with
  | Some df => ret df
  | None => raise KeyError
  end.

Definition get_tasks_df : M ref :=
  _init_session_state;;
  df <- session_tasks_df;;
  copy df.

Definition _set_tasks_df (df : ref) : M unit :=
  s <- get_session;;
  put_session (Session (Some df) (inactivity_threshold_days s)).

Definition validate_task_fields (title owner status : string) (description : option string)
  : list string :=
  (if negb (truthy title) || negb (truthy (strip title)) then ["Title is required."] else [])
  ++ (if negb (truthy owner) || negb (truthy (strip owner)) then ["Owner is required."] else [])
  ++ (if bool_decide (status ∉ VALID_STATUSES)
      then ["Status must be one of: " +:+ join ", " VALID_STATUSES] else [])
  ++ (match description with None => ["Description cannot be None."] | Some _ => [] end).

(** [create_task]: the dict returned is the row appended. *)
Definition create_task (E : env) (title : string) (description : option string)
    (owner status : string) : M (option row) :=
  _init_session_state;;
  let errors := validate_task_fields title owner status description in
  match errors with
  | _ :: _ => st_error (join newline errors);; ret None
  | [] =>
      now <- utcnow E;;
      let now := isoformat now in
      uuid <- new_uuid E;;
      d <- match description with Some d => ret d | None => raise AttributeError end;;
      let task := {| task_id := Str uuid; title := Str (strip title);
                     description := Str (strip d); owner := Str (strip owner);
                     status := Str status; created_at := Str now;
                     last_updated_at := Str now |} in
      df <- get_tasks_df;;
      df <- concat df [task];;
      _set_tasks_df df;;
      ret (Some task)
  end.

(** One [if arg is not None: ...] block of [update_task]; [k] is the rest
    of the function body, skipped by an early [return]. *)
Definition if_supplied {A} (arg : option A) (body : A → M bool → M bool) (k : M bool) : M bool :=
  match arg with
  | Some a => body a k
  | None => k
  end.

(** [x or y] on strings. *)
Definition py_or (x y : string) : string := if truthy x then x else y.

Definition update_task (E : env) (id : string)
    (title description owner status : option string) : M bool :=
  _init_session_state;;
  df <- get_tasks_df;;
  f <- rows_of df;;
  match f with
  | [] => st_warning "No tasks available to update.";; ret false
  | _ :: _ =>
      match index_eq c_task_id (Str id) f with
      | [] => st_error "Task not found.";; ret false
      | i :: _ =>
          if_supplied title (λ title k,
            if negb (truthy (strip title)) then st_error "Title cannot be empty.";; ret false
            else at_set df i c_title (Str (strip title));; k) $
          if_supplied description (λ description k,
            at_set df i c_description (Str (strip (py_or description "")));; k) $
          if_supplied owner (λ owner k,
            if negb (truthy (strip owner)) then st_error "Owner cannot be empty.";; ret false
            else at_set df i c_owner (Str (strip owner));; k) $
          if_supplied status (λ status k,
            if bool_decide (status ∉ VALID_STATUSES)
            then st_error ("Status must be one of: " +:+ join ", " VALID_STATUSES);; ret false
            else at_set df i c_status (Str status);; k) $
          (now <- utcnow E;;
           at_set df i c_last_updated_at (Str (isoformat now));;
           _set_tasks_df df;;
           ret true)
      end
  end.

(** The rows a reader of the store sees. *)
Definition read_tasks (w : world) : frame :=
  match tasks_df (session w) with
  | Some r => default [] (heap w !! r)
  | None => []
  end.

(** *** Utility metrics *)

(** [datetime.fromisoformat(x)] on a cell: NaN is a float, hence the
    [TypeError]. *)
Definition fromisoformat_cell (x : cell) : M datetime :=
  match x with
  | Str s => match fromisoformat s with
             | Some t => ret t
             | None => raise ValueError
             end
  | NaN => raise TypeError
  end.

Definition compute_task_age_days (E : env) (created_at_iso : cell) : M Z :=
  created <- fromisoformat_cell created_at_iso;;
  now <- utcnow E;;
  ret (days (datetime_sub now created)).

Definition compute_inactivity_days (E : env) (last_updated_iso : cell) : M Z :=
  updated <- fromisoformat_cell last_updated_iso;;
  now <- utcnow E;;
  ret (days (datetime_sub now updated)).

Definition get_inactivity_threshold_days : M Z :=
  _init_session_state;;
  s <- get_session;;
  match inactivity_threshold_days s with
  | Some d => ret (if d =? 0 then DEFAULT_INACTIVITY_THRESHOLD_DAYS else d)
  | None => raise KeyError
  end.

Definition set_inactivity_threshold_days (d : Z) : M unit :=
  if d <=? 0 then st_error "Inactivity threshold must be a positive integer."
  else s <- get_session;; put_session (Session (tasks_df s) (Some d)).

(** *** Derived views *)

(** [series.apply(fn)]: [fn] is called on the elements one after the
    other, in index order. *)
Fixpoint series_apply {A B} (fn : A → M B) (xs : list A) : M (list B) :=
  match xs with
  | [] => ret []
  | x :: xs' => y <- fn x;; ys <- series_apply fn xs';; ret (y :: ys)
  end.

(** The frame [with_derived_metrics] returns: a copy of the rows given and
    the five derived columns.  On an empty frame the copy is returned as
    it is and the derived columns do not exist (here: are empty). *)
Record derived := Derived {
  base : frame;
  age_days : list Z;
  inactivity_days : list Z;
  at_risk : list bool;
  is_blocked : list bool;
  is_long_running : list bool
}.

(** The frame [df] is passed by its rows: the function copies it first and
    never writes to the original. *)
Definition with_derived_metrics (E : env) (df : frame) : M derived :=
  match df with
  | [] => ret (Derived df [] [] [] [] [])
  | _ :: _ =>
      age <- series_apply (compute_task_age_days E) (created_at <$> df);;
      inactivity <- series_apply (compute_inactivity_days E) (last_updated_at <$> df);;
      threshold <- get_inactivity_threshold_days;;
      ret {| base := df;
             age_days := age;
             inactivity_days := inactivity;
             at_risk := (λ d, threshold <=? d) <$> inactivity;
             is_blocked := (λ r, bool_decide (status r = Str "Blocked")) <$> df;
             is_long_running :=
               zip_with andb ((λ r, bool_decide (status r ≠ Str "Completed")) <$> df)
                             ((λ a, threshold * 2 <=? a) <$> age) |}
  end.

Definition reset_all_tasks : M unit :=
  df <- alloc [];;
  _set_tasks_df df.

(** *** Persistence (CSV) *)

(** [df.to_csv(path, index=False)]: NaN is written as the empty field. *)
Definition field_of_cell (c : cell) : string :=
  match c with Str s => s | NaN => "" end.

Definition to_csv (f : frame) : csv_file :=
  {| header := column_name <$> required_cols;
     records := (λ r, (λ c, field_of_cell (get_col c r)) <$> required_cols) <$> f |}.

Definition write_file (path : string) (c : csv_file) : M unit :=
  λ w, (Ok tt, World (heap w) (session w) (<[path := c]> (files w)) (messages w) (ticks w) (draws w)).

Definition read_file (path : string) : M (option csv_file) :=
  λ w, (Ok (files w !! path), w).

(** The save cannot fail in this model of the file system, so the
    [except] branch is never taken. *)
Definition save_tasks_to_csv (path : string) : M bool :=
  df <- get_tasks_df;;
  f <- rows_of df;;
  write_file path (to_csv f);;
  ret true.

(** The texts [pd.read_csv] reads as missing with its default arguments. *)
Definition na_values : list string :=
  [""; "#N/A"; "#N/A N/A"; "#NA"; "-1.#IND"; "-1.#QNAN"; "-NaN"; "-nan"; "1.#IND";
   "1.#QNAN"; "<NA>"; "N/A"; "NA"; "NULL"; "NaN"; "None"; "n/a"; "nan"; "null"].

Definition cell_of_field (s : string) : cell :=
  if bool_decide (s ∈ na_values) then NaN else Str s.

(** A frame as [pd.read_csv] returns it: named columns of equal length. *)
Record raw_frame := Raw { raw_columns : list (string * list cell); raw_len : nat }.

(** [pd.read_csv(path)] on a tokenised file.  A record shorter than the
    header is padded with missing values; a longer one is a parse error.
    A column whose fields are all numbers or booleans is converted by
    pandas; the task columns hold free text, and that conversion is not
    part of this model. *)
Definition read_csv (c : csv_file) : M raw_frame :=
  if existsb (λ rec, Nat.ltb (length (header c)) (length rec)) (records c)
  then raise ParserError
  else ret {| raw_columns :=
                imap (λ j name, (name, (λ rec, cell_of_field (default "" (rec !! j))) <$> records c))
                     (header c);
              raw_len := length (records c) |}.

Definition raw_has (name : string) (df : raw_frame) : bool :=
  bool_decide (name ∈ (raw_columns df).*1).

(** [df[name] = v]: a new column filled with [v]. *)
Definition raw_add (name : string) (v : cell) (df : raw_frame) : raw_frame :=
  {| raw_columns := raw_columns df ++ [(name, replicate (raw_len df) v)];
     raw_len := raw_len df |}.

Fixpoint raw_column (name : string) (cols : list (string * list cell)) : list cell :=
  match cols with
  | [] => []
  | (n, col) :: rest => if decide (n = name) then col else raw_column name rest
  end.

Definition raw_cell (df : raw_frame) (c : column) (i : nat) : cell :=
  default NaN (raw_column (column_name c) (raw_columns df) !! i).

(** [df[required_cols]] *)
Definition raw_select (df : raw_frame) : frame :=
  (λ i, {| task_id := raw_cell df c_task_id i; title := raw_cell df c_title i;
           description := raw_cell df c_description i; owner := raw_cell df c_owner i;
           status := raw_cell df c_status i; created_at := raw_cell df c_created_at i;
           last_updated_at := raw_cell df c_last_updated_at i |})
  <$> seq 0 (raw_len df).

Definition try_except {A} (body : M A) (handler : exn → M A) : M A :=
  λ w, match body w with
       | (Raise e, w') => handler e w'
       | r => r
       end.

(** The class name stands for the text of the exception. *)
Definition exn_text (e : exn) : string :=
  match e with
  | ValueError => "ValueError" | TypeError => "TypeError"
  | AttributeError => "AttributeError" | KeyError => "KeyError"
  | ParserError => "ParserError"
  end.

Definition load_tasks_from_csv (path : string) : M bool :=
  try_except
    (file <- read_file path;;
     match file with
     | None => st_warning "CSV file not found.";; ret false
     | Some c =>
         df <- read_csv c;;
         let df := foldl (λ df col, if raw_has (column_name col) df then df
                                    else raw_add (column_name col) (Str "") df)
                         df required_cols in
         df <- alloc (raw_select df);;
         _set_tasks_df df;;
         ret true
     end)
    (λ exc, st_error ("Failed to load tasks from CSV: " +:+ exn_text exc);; ret false).

(** *** Demo data *)

Definition seed_demo_tasks (E : env) : M unit :=
  now <- utcnow E;;
  let now := Str (isoformat now) in
  u1 <- new_uuid E;;
  u2 <- new_uuid E;;
  u3 <- new_uuid E;;
  u4 <- new_uuid E;;
  u5 <- new_uuid E;;
  let demo :=
    [ Row (Str u1) (Str "Implement auth stub") (Str "Placeholder for future auth integration")
          (Str "Alice") (Str "Planned") now now;
      Row (Str u2) (Str "Refactor data layer") (Str "Separate persistence adapter")
          (Str "Bob") (Str "In Progress") now now;
      Row (Str u3) (Str "Fix flaky tests") (Str "Stabilize CI failures")
          (Str "Carol") (Str "Blocked") now now;
      Row (Str u4) (Str "Improve dashboards") (Str "Add filters and summaries")
          (Str "Dana") (Str "In Progress") now now;
      Row (Str u5) (Str "Ship v1") (Str "Cut scope and release")
          (Str "Eve") (Str "Completed") now now ] in
  df <- alloc demo;;
  _set_tasks_df df.

(** ** analytics.py *)

(** [int(series.sum())] on a boolean column. *)
Definition series_sum (bs : list bool) : nat := length (filter (λ b, b = true) bs).

(** [series.unique()]: the distinct values, in order of first appearance. *)
Fixpoint unique_from (seen : list cell) (xs : list cell) : list cell :=
  match xs with
  | [] => []
  | x :: xs' => if decide (x ∈ seen) then unique_from seen xs'
                else x :: unique_from (x :: seen) xs'
  end.
Definition unique (xs : list cell) : list cell := unique_from [] xs.

Definition daily_summary (E : env) (df : frame) : M string :=
  df <- with_derived_metrics E df;;
  let total := length (base df) in
  let blocked := if decide (total = 0%nat) then 0%nat else series_sum (is_blocked df) in
  let at_risk := if decide (total = 0%nat) then 0%nat else series_sum (at_risk df) in
  let completed_today :=
    if decide (total = 0%nat) then 0%nat
    else series_sum (zip_with andb ((λ r, bool_decide (status r = Str "Completed")) <$> base df)
                            ((λ d, d =? 0) <$> inactivity_days df)) in
  ret ("Total tasks: " +:+ str_of_nat total +:+ newline
       +:+ "Blocked: " +:+ str_of_nat blocked +:+ ", At-Risk: " +:+ str_of_nat at_risk +:+ newline
       +:+ "Completed today: " +:+ str_of_nat completed_today +:+ newline
       +:+ "Owners active: "
       +:+ str_of_nat (if decide (total = 0%nat) then 0%nat
                       else length (unique (owner <$> base df)))).

(** [series.value_counts().to_dict()]: how often each text occurs; missing
    values are not counted ([dropna=True]). *)
Definition value_counts (xs : list cell) : gmap string nat :=
  foldr (λ c acc, match c with
                  | Str s => <[s := S (default 0%nat (acc !! s))]> acc
                  | NaN => acc
                  end) ∅ xs.

Module health.
(** The dict [compute_health] returns. *)
Record t := Health {
  total : nat; blocked : nat; at_risk : nat; long_running : nat;
  by_status : gmap string nat; by_owner : gmap string nat
}.
End health.

(** [compute_health(df)]: the metrics are derived first, also when [df]
    already carries the derived columns (they are computed again). *)
Definition compute_health (E : env) (df : frame) : M health.t :=
  df <- with_derived_metrics E df;;
  let total := length (base df) in
  let blocked := if decide (total = 0%nat) then 0%nat else series_sum (is_blocked df) in
  let at_risk := if decide (total = 0%nat) then 0%nat else series_sum (at_risk df) in
  let long_running :=
    if decide (total = 0%nat) then 0%nat else series_sum (is_long_running df) in
  let by_status := if decide (total = 0%nat) then ∅ else value_counts (status <$> base df) in
  let by_owner := if decide (total = 0%nat) then ∅ else value_counts (owner <$> base df) in
  ret {| health.total := total; health.blocked := blocked; health.at_risk := at_risk;
         health.long_running := long_running;
         health.by_status := by_status; health.by_owner := by_owner |}.

(** ** ui_components.py *)

(** [risk_badges(df)]: the figures shown under "Blocked",
    "At-Risk" and "Long-Running", in this order.
    [df.get(name, pd.Series(False))] on a frame without the derived column
    is the series [False], whose sum is 0, as is the sum of the empty
    column here. *)
Definition risk_badges (df : derived) : nat * nat * nat :=
  let total := length (base df) in
  let blocked :=
    if decide (total = 0%nat) then 0%nat
    else series_sum ((λ r, bool_decide (status r = Str "Blocked")) <$> base df) in
  let at_risk := if decide (total = 0%nat) then 0%nat else series_sum (at_risk df) in
  let long_running :=
    if decide (total = 0%nat) then 0%nat else series_sum (is_long_running df) in
  (blocked, at_risk, long_running).

(** * Properties and auxiliary definitions *)

(** ** Worlds *)

(** The session reference, when there is one, points into the heap. *)
Definition wf (w : world) : Prop :=
  ∀ r, tasks_df (session w) = Some r → is_Some (heap w !! r).

(** The world after [_init_session_state]. *)
Definition init_world (w : world) : world :=
  let th := Some (default DEFAULT_INACTIVITY_THRESHOLD_DAYS (inactivity_threshold_days (session w))) in
  match tasks_df (session w) with
  | Some r => World (heap w) (Session (Some r) th) (files w) (messages w) (ticks w) (draws w)
  | None => let r := fresh (dom (heap w)) in
            World (<[r := []]> (heap w)) (Session (Some r) th)
                  (files w) (messages w) (ticks w) (draws w)
  end.

(** The threshold [get_inactivity_threshold_days] reports. *)
Definition current_threshold (w : world) : Z :=
  match inactivity_threshold_days (session w) with
  | Some d => if d =? 0 then DEFAULT_INACTIVITY_THRESHOLD_DAYS else d
  | None => DEFAULT_INACTIVITY_THRESHOLD_DAYS
  end.

(** The world after [get_tasks_df]: initialised, plus the fresh copy. *)
Definition snapshot_ref (w : world) : positive := fresh (dom (heap (init_world w))).

Definition snapshot_world (w : world) : world :=
  let w1 := init_world w in
  World (<[snapshot_ref w := read_tasks w1]> (heap w1)) (session w1)
        (files w1) (messages w1) (ticks w1) (draws w1).

(** The world [n] clock readings later. *)
Definition advance (n : nat) (w : world) : world :=
  World (heap w) (session w) (files w) (messages w) (n + ticks w) (draws w).

(** Worlds that agree on the heap and on the session reference. *)
Definition same_store (w w' : world) : Prop :=
  heap w' = heap w ∧ tasks_df (session w') = tasks_df (session w).

(** The store's own frame is live and is none of the frames handed out. *)
Definition separated (w : world) (held : gset positive) : Prop :=
  wf w
  ∧ (∀ r, tasks_df (session w) = Some r → r ∉ held)
  ∧ held ⊆ dom (heap w).

(** ** The body of [update_task] and the row of [create_task] *)

Definition opt_set (c : column) (v : option string) (r : row) : row :=
  match v with
  | Some s => set_col c (Str s) r
  | None => r
  end.

(** The row a successful [update_task] leaves at the task's index. *)
Definition updated_row (title description owner status : option string) (now : string)
    (r : row) : row :=
  set_col c_last_updated_at (Str now)
    (opt_set c_status status
      (opt_set c_owner (strip <$> owner)
        (opt_set c_description ((λ d, strip (py_or d "")) <$> description)
          (opt_set c_title (strip <$> title) r)))).

(** The checks of [update_task] on the supplied fields. *)
Definition update_accepts (title owner status : option string) : bool :=
  match title with Some t => truthy (strip t) | None => true end
  && match owner with Some o => truthy (strip o) | None => true end
  && match status with Some s => bool_decide (s ∈ VALID_STATUSES) | None => true end.

(** The part of [update_task] that follows the look-up of the row: the
    four [if ... is not None] blocks and the final write, on the copy [df]
    at index [i]. *)
Definition update_chain (E : env) (df : ref) (i : nat)
    (title description owner status : option string) : M bool :=
  if_supplied title (λ title k,
    if negb (truthy (strip title)) then st_error "Title cannot be empty.";; ret false
    else at_set df i c_title (Str (strip title));; k) $
  if_supplied description (λ description k,
    at_set df i c_description (Str (strip (py_or description "")));; k) $
  if_supplied owner (λ owner k,
    if negb (truthy (strip owner)) then st_error "Owner cannot be empty.";; ret false
    else at_set df i c_owner (Str (strip owner));; k) $
  if_supplied status (λ status k,
    if bool_decide (status ∉ VALID_STATUSES)
    then st_error ("Status must be one of: " +:+ join ", " VALID_STATUSES);; ret false
    else at_set df i c_status (Str status);; k) $
  (now <- utcnow E;;
   at_set df i c_last_updated_at (Str (isoformat now));;
   _set_tasks_df df;;
   ret true).

(** The failure conditions of [updateTask]: unknown id, or a supplied
    title or owner that is empty once trimmed, or a supplied status outside
    the enumeration. *)
Definition update_fails (id : string) (title owner status : option string) (f : frame) : Prop :=
  (Str id ∉ task_id <$> f)
  ∨ (∃ t, title = Some t ∧ strip t = "")
  ∨ (∃ o, owner = Some o ∧ strip o = "")
  ∨ (∃ s, status = Some s ∧ s ∉ VALID_STATUSES).

(** The row [create_task] builds. *)
Definition new_task (E : env) (title d owner status : string) (w : world) : row :=
  let now := Str (isoformat (clock E (ticks w))) in
  {| task_id := Str (uuid4 E (draws w)); title := Str (strip title);
     description := Str (strip d); owner := Str (strip owner);
     status := Str status; created_at := now; last_updated_at := now |}.

(** ** Timestamps and derived metrics *)

(** The datetime a cell denotes, when it holds ISO text. *)
Definition stamp (c : cell) : option datetime :=
  match c with
  | Str s => fromisoformat s
  | NaN => None
  end.

Definition well_stamped (r : row) : Prop :=
  is_Some (stamp (created_at r)) ∧ is_Some (stamp (last_updated_at r)).

(** [days] of [now - t] for the datetime [t] written in cell [c]. *)
Definition elapsed_days (now : datetime) (c : cell) : option Z :=
  t ← stamp c; Some (days (datetime_sub now t)).

(** The derived frame, column by column, for a threshold and given age
    and inactivity columns. *)
Definition derive (df : frame) (threshold : Z) (age inactivity : list Z) : derived :=
  {| base := df; age_days := age; inactivity_days := inactivity;
     at_risk := (λ d, threshold <=? d) <$> inactivity;
     is_blocked := (λ r, bool_decide (status r = Str "Blocked")) <$> df;
     is_long_running :=
       zip_with andb ((λ r, bool_decide (status r ≠ Str "Completed")) <$> df)
                     ((λ a, threshold * 2 <=? a) <$> age) |}.

(** The claim of a single snapshot: one [now] and one threshold explain
    every row of the derived frame. *)
Definition batch_consistent (df : frame) (d : derived) : Prop :=
  ∃ now threshold, ∀ i r, df !! i = Some r →
    age_days d !! i = elapsed_days now (created_at r)
    ∧ inactivity_days d !! i = elapsed_days now (last_updated_at r)
    ∧ at_risk d !! i = (λ n, threshold <=? n) <$> inactivity_days d !! i.

(** ** The daily summary *)


(** The four lines of the summary, as the specification words them. *)
Definition summary_lines (total blocked at_risk completed_today owners : nat) : list string :=
  [ "Total tasks: " +:+ str_of_nat total;
    "Blocked: " +:+ str_of_nat blocked +:+ ", At-Risk: " +:+ str_of_nat at_risk;
    "Completed today: " +:+ str_of_nat completed_today;
    "Owners active: " +:+ str_of_nat owners ].

(** ** The store invariant *)

(** A text cell that is neither empty nor made of white space. *)
Definition filled (c : cell) : Prop := ∃ s, c = Str s ∧ blank s = false.

Definition stamp_le (a b : cell) : Prop :=
  ∃ x y, stamp a = Some x ∧ stamp b = Some y ∧ datetime_le x y.

Definition row_ok (r : row) : Prop :=
  (∃ s, status r = Str s ∧ s ∈ VALID_STATUSES)
  ∧ stamp_le (created_at r) (last_updated_at r)
  ∧ filled (title r) ∧ filled (owner r).

Definition store_invariant (f : frame) : Prop :=
  NoDup (task_id <$> f) ∧ Forall row_ok f.

(** A store in good order: the session reference is live and the table
    satisfies the invariant. *)
Definition store_ok (w : world) : Prop := wf w ∧ store_invariant (read_tasks w).

(** Every id of the store was drawn from [uuid4] earlier in the session. *)
Definition ids_drawn (E : env) (w : world) : Prop :=
  ∀ r, r ∈ read_tasks w → ∃ k, (k < draws w)%nat ∧ task_id r = Str (uuid4 E k).

(** The rows [seed_demo_tasks] installs. *)
Definition demo_rows (now : cell) (u1 u2 u3 u4 u5 : string) : frame :=
  [ Row (Str u1) (Str "Implement auth stub") (Str "Placeholder for future auth integration")
        (Str "Alice") (Str "Planned") now now;
    Row (Str u2) (Str "Refactor data layer") (Str "Separate persistence adapter")
        (Str "Bob") (Str "In Progress") now now;
    Row (Str u3) (Str "Fix flaky tests") (Str "Stabilize CI failures")
        (Str "Carol") (Str "Blocked") now now;
    Row (Str u4) (Str "Improve dashboards") (Str "Add filters and summaries")
        (Str "Dana") (Str "In Progress") now now;
    Row (Str u5) (Str "Ship v1") (Str "Cut scope and release")
        (Str "Eve") (Str "Completed") now now ].

(** ** Readers and operations *)

(** What a reader of the store can do with it: take snapshots, change the
    snapshots it holds in place, and call the operations that only read.
    [held] is the set of frame objects handed out so far. *)
Inductive reader_step (E : env) : world * gset positive → world * gset positive → Prop :=
  | step_snapshot w held df w' :
      get_tasks_df w = (Ok df, w') →
      reader_step E (w, held) (w', {[df]} ∪ held)
  | step_mutate w held df g :
      df ∈ held →
      reader_step E (w, held) ((mutate df g w).2, held)
  | step_derive w held f res w' :
      with_derived_metrics E f w = (res, w') →
      reader_step E (w, held) (w', held)
  | step_summary w held f res w' :
      daily_summary E f w = (res, w') →
      reader_step E (w, held) (w', held)
  | step_save w held path res w' :
      save_tasks_to_csv path w = (res, w') →
      reader_step E (w, held) (w', held)
  | step_get_threshold w held res w' :
      get_inactivity_threshold_days w = (res, w') →
      reader_step E (w, held) (w', held)
  | step_set_threshold w held d res w' :
      set_inactivity_threshold_days d w = (res, w') →
      reader_step E (w, held) (w', held).

(** One call of an operation of the store, or one write to a frame
    object. *)
Inductive store_step (E : env) : world → world → Prop :=
  | call_create t d o s w : store_step E w (create_task E t d o s w).2
  | call_update id t d o s w : store_step E w (update_task E id t d o s w).2
  | call_reset w : store_step E w (reset_all_tasks w).2
  | call_seed w : store_step E w (seed_demo_tasks E w).2
  | call_load path w : store_step E w (load_tasks_from_csv path w).2
  | call_save path w : store_step E w (save_tasks_to_csv path w).2
  | call_get w : store_step E w (get_tasks_df w).2
  | call_write df g w : store_step E w (mutate df g w).2
  | call_set_threshold d w : store_step E w (set_inactivity_threshold_days d w).2
  | call_derive f w : store_step E w (with_derived_metrics E f w).2
  | call_summary f w : store_step E w (daily_summary E f w).2.

(** ** Sample environments, tables and worlds *)

(** A clock that passes midnight between its first and second reading. *)
Definition midnight_env : env :=
  {| clock := λ k, match k with
                   | O => Datetime 2024 1 2 23 59 59 999999
                   | S j => Datetime 2024 1 3 0 0 0 (Z.of_nat j)
                   end;
     uuid4 := λ k, "00000000-0000-4000-8000-00000000000" +:+ str_of_nat k |}.

(** A clock that stands still at noon of 3 January 2024. *)
Definition steady_env : env :=
  {| clock := λ _, Datetime 2024 1 3 12 0 0 0;
     uuid4 := λ k, "00000000-0000-4000-8000-00000000000" +:+ str_of_nat k |}.

Definition two_tasks : frame :=
  [ Row (Str "a") (Str "first") (Str "") (Str "Alice") (Str "Planned")
        (Str "2024-01-01T00:00:00") (Str "2024-01-01T00:00:00");
    Row (Str "b") (Str "second") (Str "") (Str "Bob") (Str "Planned")
        (Str "2024-01-01T00:00:00") (Str "2024-01-01T00:00:00") ].

Definition empty_world : world := World ∅ (Session None None) ∅ [] 0 0.

(** A store holding one task. *)
Definition one_task_world : world :=
  (create_task steady_env "Write report" (Some "") "Alice" "Planned" empty_world).2.

(** A file written without the [title] and [description] columns. *)
Definition short_file : csv_file :=
  {| header := ["task_id"; "owner"; "status"; "created_at"; "last_updated_at"];
     records := [["00000000-0000-4000-8000-000000000009"; "Alice"; "Planned";
                  "2024-01-01T00:00:00"; "2024-01-01T00:00:00"]] |}.

Definition short_file_world : world :=
  World ∅ (Session None None) {[DEFAULT_DATA_PATH := short_file]} [] 0 0.

(** The store of [one_task_world] saved and loaded again: the empty
    description has come back as the missing value, in a float64 column. *)
Definition reloaded_world : world :=
  (load_tasks_from_csv DEFAULT_DATA_PATH
     (save_tasks_to_csv DEFAULT_DATA_PATH one_task_world).2).2.



(** A clock that shows 1 January at its first reading and 10 January from
    then on, and the store after a task was created at the first reading. *)
Definition late_env : env :=
  {| clock := λ k, match k with
                   | O => Datetime 2024 1 1 9 0 0 0
                   | S _ => Datetime 2024 1 10 9 0 0 0
                   end;
     uuid4 := λ k, "00000000-0000-4000-8000-00000000000" +:+ str_of_nat k |}.

Definition stale_task_world : world :=
  (create_task late_env "Write report" (Some "") "Alice" "Planned" empty_world).2.

(** A generator of identifiers that returns the same value again. *)
Definition repeating_env : env :=
  {| clock := λ _, Datetime 2024 1 3 12 0 0 0; uuid4 := λ _, "dup" |}.

(** ** Tables of texts *)

(** No cell of the row is missing. *)
Definition text_row (r : row) : Prop := ∀ c, get_col c r ≠ NaN.

(** ** Elapsed time *)

(** The microseconds of a day. *)
Definition day_us : Z := 86400000000.

(** The microseconds since midnight. *)
Definition time_of_day_us (t : datetime) : Z :=
  (second t + minute t * 60 + hour t * 3600) * 1000000 + microsecond t.

(** The microseconds from the start of day 0 of the proleptic calendar
    ([toordinal] counts days). *)
Definition epoch_us (t : datetime) : Z := toordinal t * day_us + time_of_day_us t.

(** Month and day in range for the year [y]. *)
Definition valid_date (y m d : Z) : Prop :=
  1 ≤ m ≤ 12 ∧ 1 ≤ d ≤ _days_in_month y m.

(** The cell's datetime is not later than [now]. *)
Definition not_after (now : datetime) (c : cell) : Prop :=
  ∃ t, stamp c = Some t ∧ datetime_le t now.

(** The clock shows [now] at every reading. *)
Definition steady (E : env) (now : datetime) : Prop := ∀ k, clock E k = now.

(** What [compute_task_age_days] returns for the clock value [now]. *)
Definition days_since (now : datetime) (c : cell) : outcome Z :=
  match c with
  | Str s => match fromisoformat s with
             | Some t => Ok (days (datetime_sub now t))
             | None => Raise ValueError
             end
  | NaN => Raise TypeError
  end.

(** A cell that certainly is no ISO text: the missing value or the empty
    text. *)
Definition no_stamp (c : cell) : Prop := c = NaN ∨ c = Str "".

(** ** What an operation leaves alone *)

(** [m] relates every world to the world it leaves by [R], whether it
    returns or raises. *)
Definition keeps (R : relation world) {A} (m : M A) : Prop := ∀ w, R w (m w).2.

(** The stored threshold is kept, or set to the default when absent. *)
Definition threshold_kept (w w' : world) : Prop :=
  inactivity_threshold_days (session w') = inactivity_threshold_days (session w)
  ∨ (inactivity_threshold_days (session w) = None
     ∧ inactivity_threshold_days (session w')
       = Some DEFAULT_INACTIVITY_THRESHOLD_DAYS).

(** No file is written. *)
Definition files_kept (w w' : world) : Prop := files w' = files w.

(** One call of the application into the task store or the analytics. *)
Inductive app_step (E : env) : world → world → Prop :=
  | app_store w w' : store_step E w w' → app_step E w w'
  | app_get_threshold w : app_step E w (get_inactivity_threshold_days w).2
  | app_health f w : app_step E w (compute_health E f w).2.

(** A session in which nothing ran yet, over the files [fs]. *)
Definition fresh_session (fs : gmap string csv_file) : world :=
  World ∅ (Session None None) fs [] 0 0.

(** A threshold held by the session is positive. *)
Definition threshold_ok (w : world) : Prop :=
  ∀ d, inactivity_threshold_days (session w) = Some d → 0 < d.

(** One call of a session other than a load. *)
Inductive edit_step (E : env) : world → world → Prop :=
  | edit_create t d o s w : edit_step E w (create_task E t d o s w).2
  | edit_update id t d o s w : edit_step E w (update_task E id t d o s w).2
  | edit_reset w : edit_step E w (reset_all_tasks w).2
  | edit_seed w : edit_step E w (seed_demo_tasks E w).2
  | edit_save path w : edit_step E w (save_tasks_to_csv path w).2
  | edit_get w : edit_step E w (get_tasks_df w).2
  | edit_set_threshold d w : edit_step E w (set_inactivity_threshold_days d w).2
  | edit_get_threshold w : edit_step E w (get_inactivity_threshold_days w).2
  | edit_derive f w : edit_step E w (with_derived_metrics E f w).2
  | edit_summary f w : edit_step E w (daily_summary E f w).2
  | edit_health f w : edit_step E w (compute_health E f w).2.

(** The worlds of a session that has loaded no file: every cell of its
    table was written by [create_task], [update_task] or
    [seed_demo_tasks]. *)
Definition edited (E : env) (w : world) : Prop :=
  ∃ fs, rtc (edit_step E) (fresh_session fs) w.

(** The session reference is live and no cell of the table is missing. *)
Definition text_store (w : world) : Prop := wf w ∧ Forall text_row (read_tasks w).

(** ** Health figures *)

(** The number of cells of [xs] holding the text [s]. *)
Definition occurrences (s : string) (xs : list cell) : nat :=
  length (filter (λ c, c = Str s) xs).

(** The sum of the counts of a frequency table. *)
Definition sum_counts (m : gmap string nat) : nat :=
  map_fold (λ _ n acc, (n + acc)%nat) 0%nat m.

(** ** Loading a file *)

(** The loop of [load_tasks_from_csv] that adds the missing columns. *)
Definition fill_missing (cols : list column) (df : raw_frame) : raw_frame :=
  foldl (λ df col, if raw_has (column_name col) df then df
                   else raw_add (column_name col) (Str "") df) df cols.

(** The rows [load_tasks_from_csv] installs for the file [c]. *)
Definition loaded_rows (c : csv_file) : frame :=
  raw_select
    (fill_missing required_cols
       {| raw_columns :=
            imap (λ j name, (name, (λ rec, cell_of_field (default "" (rec !! j))) <$> records c))
                 (header c);
          raw_len := length (records c) |}).

(** No record has more fields than the header. *)
Definition parses (c : csv_file) : bool :=
  negb (existsb (λ rec, Nat.ltb (length (header c)) (length rec)) (records c)).

(** Every record has one field per column and, there being two columns or
    more, no line of the file is blank. *)
Definition well_shaped (c : csv_file) : Prop :=
  (2 ≤ length (header c))%nat ∧ Forall (λ rec, length rec = length (header c)) (records c).

(** A file with neither identifiers nor stamps. *)
Definition unstamped_file : csv_file :=
  {| header := ["title"; "owner"]; records := [["Write report"; "Alice"]] |}.

(** A session that has this file under the default path. *)
Definition unstamped_file_world : world :=
  World ∅ (Session None None) {[DEFAULT_DATA_PATH := unstamped_file]} [] 0 0.

(** * Lemmas and theorems *)

(** ** Strings and ISO-8601 text *)


Lemma truthy_true s : truthy s = true ↔ s ≠ "".
Proof. by destruct s. Qed.

Lemma lstrip_blank s : lstrip s = "" ↔ blank s = true.
Proof.
  induction s as [|c s IH]; simpl; [done|].
  destruct (isspace c); simpl; [done|]. split; discriminate.
Qed.

Lemma lstrip_head s : lstrip s ≠ "" → blank (lstrip s) = false.
Proof.
  induction s as [|c s IH]; simpl; [done|].
  destruct (isspace c) eqn:Hc; [done|]. intros _. simpl. by rewrite Hc.
Qed.

Lemma blank_rev_app s acc : blank (String.rev_app s acc) = blank s && blank acc.
Proof.
  revert acc. induction s as [|c s IH]; intros acc; simpl; [done|].
  rewrite IH. simpl. destruct (isspace c), (blank s), (blank acc); done.
Qed.

Lemma blank_rev s : blank (String.rev s) = blank s.
Proof. unfold String.rev. rewrite blank_rev_app. simpl. by rewrite andb_true_r. Qed.

Lemma rev_app_empty s acc : String.rev_app s acc = "" ↔ s = "" ∧ acc = "".
Proof.
  revert acc. induction s as [|c s IH]; intros acc; simpl; [intuition|].
  rewrite IH. split; intros [? ?]; discriminate.
Qed.

Lemma rev_empty s : String.rev s = "" ↔ s = "".
Proof. unfold String.rev. rewrite rev_app_empty. intuition. Qed.

Lemma blank_lstrip s : blank (lstrip s) = blank s.
Proof.
  induction s as [|c s IH]; simpl; [done|].
  destruct (isspace c) eqn:Hc; simpl; [done|]. by rewrite Hc.
Qed.


Lemma strip_filled s : strip s ≠ "" → blank (strip s) = false.
Proof.
  unfold strip, rstrip. rewrite rev_empty, blank_rev. apply lstrip_head.
Qed.


Lemma append_cons c s r : String c s +:+ r = String c (s +:+ r).
Proof. reflexivity. Qed.

Lemma append_nil s : s +:+ "" = s.
Proof. induction s as [|c s IH]; [done|]. rewrite append_cons. congruence. Qed.


Lemma digit_val_char d : 0 ≤ d < 10 → digit_val (digit_char d) = Some d.
Proof.
  intros Hd.
  assert (d = 0 ∨ d = 1 ∨ d = 2 ∨ d = 3 ∨ d = 4 ∨ d = 5 ∨ d = 6 ∨ d = 7 ∨ d = 8 ∨ d = 9)
    as Hc by lia.
  repeat destruct Hc as [->|Hc]; try subst d; reflexivity.
Qed.

Lemma read_digits_zero_pad n v rest :
  0 ≤ v < 10 ^ Z.of_nat n → read_digits n (zero_pad n v +:+ rest) = Some (v, rest).
Proof.
  revert v. induction n as [|n IH]; intros v Hv.
  - simpl in *. replace v with 0 by lia. done.
  - cbn [zero_pad read_digits]. rewrite append_cons. cbn [read_digits].
    assert (0 < 10 ^ Z.of_nat n) as Hpos by (apply Z.pow_pos_nonneg; lia).
    rewrite Nat2Z.inj_succ, Z.pow_succ_r in Hv by lia.
    rewrite digit_val_char.
    2:{ split; [apply Z.div_pos; lia|]. apply Z.div_lt_upper_bound; lia. }
    simpl. rewrite IH by (apply Z.mod_pos_bound; lia). simpl.
    do 2 f_equal. rewrite Z.mul_comm. symmetry. apply Z.div_mod. lia.
Qed.

Lemma valid_datetime_bounds t :
  valid_datetime t = true →
  0 ≤ year t < 10 ^ 4 ∧ 0 ≤ month t < 10 ^ 2 ∧ 0 ≤ day t < 10 ^ 2 ∧ 0 ≤ hour t < 10 ^ 2 ∧
  0 ≤ minute t < 10 ^ 2 ∧ 0 ≤ second t < 10 ^ 2 ∧ 0 ≤ microsecond t < 10 ^ 6.
Proof.
  unfold valid_datetime. rewrite !andb_true_iff, !Z.leb_le.
  intros H. assert (_days_in_month (year t) (month t) ≤ 31).
  { unfold _days_in_month. destruct (_ && _); [lia|].
    assert (month t = 1 ∨ month t = 2 ∨ month t = 3 ∨ month t = 4 ∨ month t = 5 ∨ month t = 6
            ∨ month t = 7 ∨ month t = 8 ∨ month t = 9 ∨ month t = 10 ∨ month t = 11
            ∨ month t = 12) as Hm by lia.
    repeat destruct Hm as [->|Hm]; try rewrite Hm; simpl; lia. }
  lia.
Qed.

Lemma append_char c r : String c "" +:+ r = String c r.
Proof. reflexivity. Qed.

Ltac eat_digits n :=
  rewrite (read_digits_zero_pad n) by done; cbn [mbind option_bind].

Ltac eat_char :=
  rewrite append_char; cbn [expect]; rewrite decide_True by done; cbn [mbind option_bind].

Lemma fromisoformat_isoformat t :
  valid_datetime t = true → fromisoformat (isoformat t) = Some t.
Proof.
  intros Hv. pose proof (valid_datetime_bounds t Hv) as (Hy & Hm & Hd & Hh & Hmi & Hs & Hus).
  unfold isoformat, fromisoformat.
  eat_digits 4%nat. eat_char. eat_digits 2%nat. eat_char. eat_digits 2%nat.
  rewrite append_char.
  eat_digits 2%nat. eat_char. eat_digits 2%nat. eat_char. eat_digits 2%nat.
  unfold checked.
  destruct (Z.eqb_spec (microsecond t) 0) as [H0|H0].
  - destruct t; simpl in *; subst. by rewrite Hv.
  - rewrite append_cons. rewrite decide_True by done.
    change ("" +:+ zero_pad 6 (microsecond t)) with (zero_pad 6 (microsecond t)).
    rewrite <- (append_nil (zero_pad 6 _)).
    eat_digits 6%nat. destruct t; simpl in *. by rewrite Hv.
Qed.

(** ** Running the monad *)

Lemma bind_ok {A B} (m : M A) (k : A → M B) w a w' :
  m w = (Ok a, w') → bind m k w = k a w'.
Proof. unfold bind. by intros ->. Qed.


Lemma init_eq w : _init_session_state w = (Ok tt, init_world w).
Proof. destruct w as [h [[r|] [t|]] fs ms k d]; reflexivity. Qed.

Lemma init_read w : read_tasks (init_world w) = read_tasks w.
Proof.
  destruct w as [h [[r|] t] fs ms k d]; unfold read_tasks, init_world; simpl; [done|].
  by rewrite lookup_insert_eq.
Qed.

Lemma init_wf w : wf w → wf (init_world w).
Proof.
  destruct w as [h [[r|] t] fs ms k d]; unfold wf, init_world; simpl.
  - intros H r' [= <-]. by apply H.
  - intros _ r' [= <-]. rewrite lookup_insert_eq. by eexists.
Qed.


Lemma init_idem w : init_world (init_world w) = init_world w.
Proof. destruct w as [h [[r|] [t|]] fs ms k d]; reflexivity. Qed.

Lemma init_session w : ∃ r, tasks_df (session (init_world w)) = Some r.
Proof. destruct w as [h [[r|] t] fs ms k d]; simpl; eauto. Qed.

Lemma init_ticks w : ticks (init_world w) = ticks w.
Proof. by destruct w as [h [[r|] t] fs ms k d]. Qed.

Lemma init_draws w : draws (init_world w) = draws w.
Proof. by destruct w as [h [[r|] t] fs ms k d]. Qed.

Lemma init_files w : files (init_world w) = files w.
Proof. by destruct w as [h [[r|] t] fs ms k d]. Qed.

Lemma init_messages w : messages (init_world w) = messages w.
Proof. by destruct w as [h [[r|] t] fs ms k d]. Qed.

(** [_init_session_state] touches the heap and the session only. *)
Create Rewrite HintDb init_frame.
Hint Rewrite init_ticks init_draws init_files init_messages : init_frame.

Lemma get_threshold_eq w :
  get_inactivity_threshold_days w = (Ok (current_threshold w), init_world w).
Proof. destruct w as [h [[r|] [t|]] fs ms k d]; reflexivity. Qed.

Lemma get_tasks_df_eq w : get_tasks_df w = (Ok (snapshot_ref w), snapshot_world w).
Proof.
  unfold get_tasks_df. rewrite (bind_ok _ _ _ _ _ (init_eq w)).
  unfold snapshot_world, snapshot_ref, read_tasks.
  destruct (init_session w) as [r Hr].
  destruct (init_world w) as [h [s t] fs ms k d]; simpl in *; subst. reflexivity.
Qed.

Lemma snapshot_ref_fresh w : heap (init_world w) !! snapshot_ref w = None.
Proof. apply not_elem_of_dom. unfold snapshot_ref. apply is_fresh. Qed.

Lemma snapshot_ref_ne w r :
  wf w → tasks_df (session (init_world w)) = Some r → r ≠ snapshot_ref w.
Proof.
  intros Hwf Hr ->. apply init_wf in Hwf. apply Hwf in Hr.
  rewrite snapshot_ref_fresh in Hr. by destruct Hr.
Qed.

Lemma snapshot_read w : wf w → read_tasks (snapshot_world w) = read_tasks w.
Proof.
  intros Hwf. rewrite <- (init_read w). unfold snapshot_world, read_tasks at 1. simpl.
  destruct (init_session w) as [r Hr]. rewrite Hr.
  rewrite lookup_insert_ne by (symmetry; by apply snapshot_ref_ne).
  unfold read_tasks. by rewrite Hr.
Qed.

Lemma snapshot_rows w : heap (snapshot_world w) !! snapshot_ref w = Some (read_tasks w).
Proof. unfold snapshot_world. simpl. by rewrite lookup_insert_eq, init_read. Qed.

Ltac run_py :=
  unfold if_supplied, bind, at_set, mutate, st_error, st_warning, ret, raise, utcnow,
    new_uuid, _set_tasks_df, get_session, put_session, alloc, rows_of, copy, concat;
  simpl.


Lemma float_column_cells c f :
  float_column c f
  = match f with
    | [] => false
    | _ :: _ => forallb (λ v, bool_decide (v = NaN)) (get_col c <$> f)
    end.
Proof.
  destruct f as [|r f]; [done|]. unfold float_column.
  generalize (r :: f). intros l. induction l as [|x l IH]; [done|].
  cbn [forallb fmap list_fmap]. by rewrite IH.
Qed.

Lemma float_column_alter_ne c c' v i f :
  c ≠ c' → float_column c (alter (set_col c' v) i f) = float_column c f.
Proof.
  intros Hne. rewrite !float_column_cells.
  assert (get_col c <$> alter (set_col c' v) i f = get_col c <$> f) as Hcells.
  { rewrite (list_fmap_alter (get_col c) _ (λ x, x)); [by rewrite list_alter_id|].
    apply Forall_true. intros r. by destruct c, c'. }
  rewrite Hcells. destruct f as [|r f]; [by destruct i|].
  by destruct i.
Qed.

Lemma float_column_text c f : Forall text_row f → float_column c f = false.
Proof.
  intros [|r f' Hr _]; [done|]. simpl.
  rewrite bool_decide_eq_false_2; [done|apply Hr].
Qed.

Lemma float_column_app c f r s : get_col c r = Str s → float_column c (f ++ [r]) = false.
Proof.
  intros Hr.
  assert (forallb (λ r, bool_decide (get_col c r = NaN)) (f ++ [r]) = false) as Hall.
  { rewrite forallb_app. simpl. rewrite Hr. simpl. by rewrite andb_false_r. }
  destruct f as [|r0 f]; [simpl; by rewrite Hr|]. exact Hall.
Qed.

Global Arguments float_column : simpl never.

Lemma at_set_run df i c s w f :
  heap w !! df = Some f →
  at_set df i c (Str s) w
  = if float_column c f then (Raise TypeError, w)
    else (Ok tt, World (<[df := alter (set_col c (Str s)) i f]> (heap w)) (session w)
                       (files w) (messages w) (ticks w) (draws w)).
Proof.
  intros Hf. unfold at_set, bind, rows_of. rewrite Hf. simpl.
  destruct (float_column c f); [done|]. unfold mutate. do 2 f_equal.
  apply map_eq. intros r. destruct (decide (r = df)) as [->|Hne].
  - by rewrite lookup_alter_eq, lookup_insert_eq, Hf.
  - by rewrite lookup_alter_ne, lookup_insert_ne.
Qed.

(** One write, or one check, of the body of [update_task]. *)
Ltac chain_write :=
  match goal with
  | |- context [at_set ?df ?i ?c (Str ?s) ?W] =>
      rewrite (at_set_run df i c s W _ ltac:(simpl; first [eassumption | apply lookup_insert_eq]));
      let H := fresh "Hfl" in
      match goal with |- context [float_column c ?f] => destruct (float_column c f) eqn:H end
  end.

Ltac chain_check :=
  match goal with
  | |- context [truthy ?x] => let H := fresh "Htr" in destruct (truthy x) eqn:H; cbn [negb]
  | |- context [bool_decide (?x ∉ VALID_STATUSES)] =>
      let H := fresh "Hst" in destruct (bool_decide (x ∉ VALID_STATUSES)) eqn:H
  end.

(** The body of [update_task] on the copy: it succeeds with every field
    written, or stops at a check that fails, or raises at a write into a
    float64 column; the store's own frame is touched in no case. *)
Lemma update_chain_cases E df i title description owner status w f :
  heap w !! df = Some f →
  ∃ res w', update_chain E df i title description owner status w = (res, w')
    ∧ (∀ r, r ≠ df → heap w' !! r = heap w !! r)
    ∧ draws w' = draws w ∧ files w' = files w
    ∧ ((res = Ok true ∧ update_accepts title owner status = true
        ∧ session w' = Session (Some df) (inactivity_threshold_days (session w))
        ∧ heap w' !! df
          = Some (alter (updated_row title description owner status
                           (isoformat (clock E (ticks w)))) i f)
        ∧ ticks w' = S (ticks w) ∧ messages w' = messages w)
       ∨ (res = Ok false ∧ update_accepts title owner status = false
          ∧ session w' = session w ∧ ticks w' = ticks w
          ∧ ∃ msg, messages w' = messages w ++ [(Error, msg)])
       ∨ (res = Raise TypeError ∧ session w' = session w ∧ messages w' = messages w
          ∧ ∃ c, float_column c f = true)).
Proof.
  intros Hf. unfold update_chain, update_accepts.
  destruct title as [t|], description as [d|], owner as [o|], status as [s|];
    unfold if_supplied; cbv beta iota;
    repeat first [ chain_check | unfold bind at 1; chain_write
                 | unfold bind at 1; unfold utcnow at 1; cbv beta iota ].
  all: unfold bind, st_error, _set_tasks_df, get_session, put_session, ret, raise; simpl.
  all: eexists _, _; (split; [reflexivity|]); simpl.
  all: split; [intros r Hr; by rewrite ?lookup_insert_ne by done|].
  all: split; [done|split; [done|]].
  all: try match goal with
           | H : bool_decide (_ ∉ VALID_STATUSES) = true |- _ => apply bool_decide_eq_true in H
           | H : bool_decide (_ ∉ VALID_STATUSES) = false |- _ =>
               apply bool_decide_eq_false, dec_stable in H
           end.
  all: first
    [ right; right; split; [reflexivity|]; split; [done|]; split; [done|];
      rewrite ?float_column_alter_ne in * by done; by eauto
    | right; left; split; [reflexivity|]; split;
      [rewrite ?andb_false_r; first [done | by apply bool_decide_eq_false_2]|];
      split; [done|]; split; [done|]; by eexists
    | left; split; [reflexivity|]; split;
      [first [done | by apply bool_decide_eq_true_2]|];
      split; [done|]; split; [|done];
      rewrite lookup_insert_eq; apply (f_equal Some); apply list_eq; intros j;
      destruct (decide (i = j)) as [<-|];
      [ rewrite !list_lookup_alter_eq; destruct (f !! i); reflexivity
      | by rewrite !list_lookup_alter_ne by done ] ].
Qed.

Lemma read_tasks_frame w w' :
  session w' = session w →
  (∀ r, tasks_df (session w) = Some r → heap w' !! r = heap w !! r) →
  read_tasks w' = read_tasks w.
Proof.
  intros Hs Hh. unfold read_tasks. rewrite Hs.
  destruct (tasks_df (session w)) as [r|]; [|done]. by rewrite Hh.
Qed.

Lemma wf_frame w w' :
  session w' = session w →
  (∀ r, tasks_df (session w) = Some r → heap w' !! r = heap w !! r) →
  wf w → wf w'.
Proof.
  intros Hs Hh Hwf r Hr. rewrite Hs in Hr. rewrite Hh by done. by apply Hwf.
Qed.

Lemma snapshot_wf w : wf w → wf (snapshot_world w).
Proof.
  intros Hwf r Hr. unfold snapshot_world in *. simpl in *.
  rewrite lookup_insert_ne by (symmetry; by apply snapshot_ref_ne).
  by apply (init_wf w Hwf).
Qed.

Lemma snapshot_idem_init w : snapshot_world (init_world w) = snapshot_world w.
Proof. unfold snapshot_world, snapshot_ref. by rewrite !init_idem. Qed.

Lemma snapshot_ref_init w : snapshot_ref (init_world w) = snapshot_ref w.
Proof. unfold snapshot_ref. by rewrite !init_idem. Qed.

(** [index_eq] lists the positions of the matching rows, in order. *)
Lemma index_eq_from_spec k c v f :
  match index_eq_from k c v f with
  | [] => v ∉ get_col c <$> f
  | i :: _ => ∃ r, (k ≤ i)%nat ∧ f !! (i - k)%nat = Some r ∧ get_col c r = v
              ∧ ∀ j r', (j < i - k)%nat → f !! j = Some r' → get_col c r' ≠ v
  end.
Proof.
  revert k. induction f as [|r f IH]; intros k; simpl.
  - apply not_elem_of_nil.
  - destruct (decide (get_col c r = v)) as [Heq|Hne].
    + exists r. replace (k - k)%nat with 0%nat by lia. split_and!; [lia|done|done|].
      intros j r' Hj. lia.
    + specialize (IH (S k)). destruct (index_eq_from (S k) c v f) as [|i rest].
      * rewrite not_elem_of_cons. split; [congruence|done].
      * destruct IH as (r0 & Hk & Hl & Hv & Hmin). exists r0.
        replace (i - k)%nat with (S (i - S k)) by lia. split_and!; [lia|done|done|].
        intros [|j] r' Hj; simpl; [by intros [= <-]|].
        apply Hmin. lia.
Qed.

Lemma index_eq_nil c v f : index_eq c v f = [] → v ∉ get_col c <$> f.
Proof.
  unfold index_eq. intros H. pose proof (index_eq_from_spec 0 c v f) as Hs.
  by rewrite H in Hs.
Qed.

Lemma index_eq_cons c v f i rest :
  index_eq c v f = i :: rest →
  ∃ r, f !! i = Some r ∧ get_col c r = v
       ∧ ∀ j r', (j < i)%nat → f !! j = Some r' → get_col c r' ≠ v.
Proof.
  unfold index_eq. intros H. pose proof (index_eq_from_spec 0 c v f) as Hs.
  rewrite H in Hs. destruct Hs as (r & _ & Hl & Hv & Hmin).
  rewrite Nat.sub_0_r in *. eauto.
Qed.

(** [update_task] after the set-up: an empty table, an unknown id, or the
    field-by-field body run on the fresh copy. *)
Lemma update_task_unfold E id title description owner status w :
  update_task E id title description owner status w =
  match read_tasks w with
  | [] => (Ok false,
           World (heap (snapshot_world w)) (session (snapshot_world w)) (files w)
                 (messages w ++ [(Warning, "No tasks available to update.")])
                 (ticks w) (draws w))
  | _ :: _ =>
      match index_eq c_task_id (Str id) (read_tasks w) with
      | [] => (Ok false,
               World (heap (snapshot_world w)) (session (snapshot_world w)) (files w)
                     (messages w ++ [(Error, "Task not found.")]) (ticks w) (draws w))
      | i :: _ => update_chain E (snapshot_ref w) i title description owner status
                    (snapshot_world w)
      end
  end.
Proof.
  unfold update_task.
  rewrite (bind_ok _ _ _ _ _ (init_eq w)).
  rewrite (bind_ok _ _ _ _ _ (get_tasks_df_eq (init_world w))).
  rewrite snapshot_idem_init, snapshot_ref_init.
  assert (rows_of (snapshot_ref w) (snapshot_world w) = (Ok (read_tasks w), snapshot_world w)) as Hr.
  { unfold rows_of. by rewrite snapshot_rows. }
  rewrite (bind_ok _ _ _ _ _ Hr).
  destruct (read_tasks w) as [|r0 f0] eqn:Hf.
  - unfold bind, st_warning, ret. simpl.
    by autorewrite with init_frame.
  - destruct (index_eq c_task_id (Str id) (r0 :: f0)) as [|i rest]; [|reflexivity].
    unfold bind, st_error, ret. simpl.
    by autorewrite with init_frame.
Qed.

(** What [update_task] does, by cases on the id, the supplied fields and
    the columns written. *)
Lemma update_task_spec E id title description owner status w :
  wf w →
  ∃ res w', update_task E id title description owner status w = (res, w') ∧ wf w'
    ∧ draws w' = draws w ∧ files w' = files w
    ∧ match index_eq c_task_id (Str id) (read_tasks w) with
      | i :: _ =>
          (res = Ok true ∧ update_accepts title owner status = true
           ∧ ticks w' = S (ticks w) ∧ messages w' = messages w
           ∧ read_tasks w'
             = alter (updated_row title description owner status
                        (isoformat (clock E (ticks w)))) i (read_tasks w))
          ∨ (res = Ok false ∧ update_accepts title owner status = false
             ∧ read_tasks w' = read_tasks w ∧ ticks w' = ticks w
             ∧ ∃ msg, messages w' = messages w ++ [(Error, msg)])
          ∨ (res = Raise TypeError ∧ read_tasks w' = read_tasks w
             ∧ messages w' = messages w
             ∧ ∃ c, float_column c (read_tasks w) = true)
      | [] => res = Ok false ∧ read_tasks w' = read_tasks w ∧ ticks w' = ticks w
              ∧ ∃ lvl msg, messages w' = messages w ++ [(lvl, msg)]
      end.
Proof.
  intros Hwf. rewrite update_task_unfold.
  pose proof (snapshot_read w Hwf) as Hread.
  pose proof (snapshot_wf w Hwf) as Hwfs.
  destruct (read_tasks w) as [|r0 f0] eqn:Hf.
  { exists (Ok false). eexists. split; [done|]. simpl.
    split_and!; try done; eauto;
      first [ intros r Hr; by apply Hwfs
            | unfold read_tasks in *; simpl; by rewrite Hread
            | unfold snapshot_world; simpl; by rewrite ?init_draws, ?init_files ]. }
  destruct (index_eq c_task_id (Str id) (r0 :: f0)) as [|i rest] eqn:Hidx.
  { exists (Ok false). eexists. split; [done|]. simpl.
    split_and!; try done; eauto;
      first [ intros r Hr; by apply Hwfs
            | unfold read_tasks in *; simpl; by rewrite Hread
            | unfold snapshot_world; simpl; by rewrite ?init_draws, ?init_files ]. }
  destruct (init_session w) as [r Hr].
  assert (r ≠ snapshot_ref w) as Hne by by apply snapshot_ref_ne.
  assert (tasks_df (session (snapshot_world w)) = Some r) as Hrs by done.
  assert (ticks (snapshot_world w) = ticks w ∧ draws (snapshot_world w) = draws w
          ∧ files (snapshot_world w) = files w ∧ messages (snapshot_world w) = messages w)
    as (Ht & Hd & Hfs & Hm).
  { unfold snapshot_world. simpl. by autorewrite with init_frame. }
  destruct (update_chain_cases E (snapshot_ref w) i title description owner status
              (snapshot_world w) (r0 :: f0)) as (res & w' & Hrun & Hoth & Hd' & Hf' & Hcase).
  { by rewrite snapshot_rows, Hf. }
  exists res, w'. split; [done|].
  assert (session w' = session (snapshot_world w) →
          wf w' ∧ read_tasks w' = r0 :: f0) as Hsame.
  { intros Hs.
    assert (∀ r', tasks_df (session (snapshot_world w)) = Some r' →
                  heap w' !! r' = heap (snapshot_world w) !! r') as Hfr.
    { intros r' Hr'. apply Hoth. congruence. }
    split; [by apply (wf_frame (snapshot_world w))|].
    rewrite <- Hread. by apply read_tasks_frame. }
  destruct Hcase as [(-> & Hacc & Hs & Hh & Ht' & Hm')
                    |[(-> & Hacc & Hs & Ht' & msg & Hm')|(-> & Hs & Hm' & Hfl)]].
  - split; [|split; [congruence|split; [congruence|]]].
    + intros r' Hr'. rewrite Hs in Hr'. simplify_eq/=. by rewrite Hh.
    + left. split_and!; try congruence.
      rewrite Ht in Hh. unfold read_tasks at 1. rewrite Hs. simpl. by rewrite Hh.
  - destruct (Hsame Hs) as [Hwf' Hread'].
    split; [done|split; [congruence|split; [congruence|]]].
    right. left. split_and!; try congruence. exists msg. congruence.
  - destruct (Hsame Hs) as [Hwf' Hread'].
    split; [done|split; [congruence|split; [congruence|]]].
    right. right. split_and!; try congruence.
Qed.

(** On a table without a float64 column no write raises. *)
Lemma update_task_spec_text E id title description owner status w :
  wf w → (∀ c, float_column c (read_tasks w) = false) →
  ∃ b w', update_task E id title description owner status w = (Ok b, w') ∧ wf w'
    ∧ draws w' = draws w ∧ files w' = files w
    ∧ match index_eq c_task_id (Str id) (read_tasks w) with
      | i :: _ =>
          if update_accepts title owner status
          then b = true ∧ ticks w' = S (ticks w) ∧ messages w' = messages w
               ∧ read_tasks w'
                 = alter (updated_row title description owner status
                            (isoformat (clock E (ticks w)))) i (read_tasks w)
          else b = false ∧ read_tasks w' = read_tasks w ∧ ticks w' = ticks w
               ∧ ∃ msg, messages w' = messages w ++ [(Error, msg)]
      | [] => b = false ∧ read_tasks w' = read_tasks w ∧ ticks w' = ticks w
              ∧ ∃ lvl msg, messages w' = messages w ++ [(lvl, msg)]
      end.
Proof.
  intros Hwf Htext.
  destruct (update_task_spec E id title description owner status w Hwf)
    as (res & w' & Hrun & Hwf' & Hd & Hf & Hcase).
  destruct (index_eq c_task_id (Str id) (read_tasks w)) as [|i rest].
  - destruct Hcase as (-> & ? & ? & ?). exists false, w'. by split_and!.
  - destruct Hcase as [(-> & Hacc & ? & ? & ?)|[(-> & Hacc & ? & ? & ?)|(_ & _ & _ & c & Hc)]].
    + exists true, w'. rewrite Hacc. by split_and!.
    + exists false, w'. rewrite Hacc. by split_and!.
    + by rewrite Htext in Hc.
Qed.

Lemma validate_task_fields_nil title owner status description :
  validate_task_fields title owner status description = [] ↔
  strip title ≠ "" ∧ strip owner ≠ "" ∧ status ∈ VALID_STATUSES ∧ is_Some description.
Proof.
  unfold validate_task_fields.
  assert (∀ s, negb (truthy s) || negb (truthy (strip s)) = false ↔ strip s ≠ "") as Hs.
  { intros s. rewrite orb_false_iff, !negb_false_iff, !truthy_true.
    split; [tauto|]. intros H. split; [|done]. by intros ->. }
  rewrite <- !Hs.
  destruct (negb (truthy title) || negb (truthy (strip title))),
    (negb (truthy owner) || negb (truthy (strip owner))), description;
    case_bool_decide as Hd; simpl; split; try done; try (intros (? & ? & ? & ?); done);
    try (intros (? & ? & ? & [? ?]); done).
  all: intros _; split_and!; try done; [by apply dec_stable | by eexists].
Qed.

Lemma validate_task_fields_cons title owner status description :
  strip title = "" ∨ strip owner = "" ∨ status ∉ VALID_STATUSES →
  ∃ e es, validate_task_fields title owner status description = e :: es.
Proof.
  intros H. destruct (validate_task_fields title owner status description) as [|e es] eqn:Hv;
    [|eauto].
  apply validate_task_fields_nil in Hv as (? & ? & ? & _). intuition.
Qed.

Lemma create_task_rejects E title description owner status w :
  strip title = "" ∨ strip owner = "" ∨ status ∉ VALID_STATUSES →
  ∃ msg, create_task E title description owner status w
         = (Ok None, World (heap (init_world w)) (session (init_world w)) (files w)
                           (messages w ++ [(Error, msg)]) (ticks w) (draws w)).
Proof.
  intros H. destruct (validate_task_fields_cons _ _ _ description H) as (e & es & Hv).
  unfold create_task. rewrite (bind_ok _ _ _ _ _ (init_eq w)). rewrite Hv.
  eexists. run_py. by autorewrite with init_frame.
Qed.

Lemma init_world_fixed w :
  is_Some (tasks_df (session w)) → is_Some (inactivity_threshold_days (session w)) →
  init_world w = w.
Proof. destruct w as [h [[r|] [t|]] fs ms k d]; intros [? ?] [? ?]; by simplify_eq/=. Qed.

Lemma create_task_accepts E title d owner status w :
  wf w → strip title ≠ "" → strip owner ≠ "" → status ∈ VALID_STATUSES →
  ∃ w', create_task E title (Some d) owner status w
        = (Ok (Some (new_task E title d owner status w)), w')
    ∧ read_tasks w' = read_tasks w ++ [new_task E title d owner status w]
    ∧ wf w' ∧ ticks w' = S (ticks w) ∧ draws w' = S (draws w)
    ∧ files w' = files w ∧ messages w' = messages w.
Proof.
  intros Hwf Ht Ho Hs.
  assert (validate_task_fields title owner status (Some d) = []) as Hv.
  { apply validate_task_fields_nil. eauto. }
  unfold create_task. rewrite (bind_ok _ _ _ _ _ (init_eq w)). rewrite Hv.
  set (w2 := World (heap (init_world w)) (session (init_world w)) (files (init_world w))
                   (messages (init_world w)) (S (ticks (init_world w)))
                   (S (draws (init_world w)))).
  assert (init_world w2 = w2) as Hfix.
  { apply init_world_fixed; unfold w2; simpl.
    - destruct (init_session w) as [r ->]. by eexists.
    - destruct w as [h [[r|] [t|]] fs ms k dr]; by eexists. }
  assert (wf w2) as Hwf2 by (by apply init_wf in Hwf).
  assert (read_tasks w2 = read_tasks w) as Hr2 by apply init_read.
  unfold bind at 1. unfold utcnow at 1. unfold bind at 1. unfold new_uuid at 1.
  unfold bind at 1. unfold ret at 1.
  cbn [heap session files messages ticks draws].
  change (World (heap (init_world w)) _ _ _ _ _) with w2.
  rewrite (bind_ok _ _ _ _ _ (get_tasks_df_eq w2)).
  unfold concat.
  assert (rows_of (snapshot_ref w2) (snapshot_world w2) = (Ok (read_tasks w), snapshot_world w2)) as Hrows.
  { unfold rows_of. by rewrite snapshot_rows, Hr2. }
  rewrite (bind_ok _ _ _ _ _ (bind_ok _ _ _ _ _ Hrows)).
  run_py. rewrite init_ticks, init_draws.
  eexists. split; [reflexivity|]. unfold read_tasks at 1, wf. simpl.
  rewrite lookup_insert_eq. rewrite !Hfix. unfold w2. simpl.
  rewrite init_files, init_messages. split_and!; try done.
  - intros r [= <-]. rewrite lookup_insert_eq. by eexists.
  - by rewrite init_ticks.
  - by rewrite init_draws.
Qed.

(** [create_task] either rejects its arguments and leaves the table alone,
    or appends the new row. *)
Lemma create_task_cases E t d o s w :
  wf w →
  (∃ w', create_task E t d o s w = (Ok None, w') ∧ wf w'
         ∧ read_tasks w' = read_tasks w ∧ draws w' = draws w ∧ ticks w' = ticks w)
  ∨ (∃ d' w', d = Some d' ∧ strip t ≠ "" ∧ strip o ≠ "" ∧ s ∈ VALID_STATUSES
       ∧ create_task E t d o s w = (Ok (Some (new_task E t d' o s w)), w') ∧ wf w'
       ∧ read_tasks w' = read_tasks w ++ [new_task E t d' o s w]
       ∧ draws w' = S (draws w) ∧ ticks w' = S (ticks w)).
Proof.
  intros Hwf.
  destruct (validate_task_fields t o s d) as [|e es] eqn:Hv.
  - apply validate_task_fields_nil in Hv as (Ht & Ho & Hs & [d' ->]).
    destruct (create_task_accepts E t d' o s w Hwf Ht Ho Hs)
      as (w' & Hrun & Hread & Hwf' & Hticks & Hdraws & _).
    right. exists d', w'. split_and!; done.
  - left. unfold create_task. rewrite (bind_ok _ _ _ _ _ (init_eq w)), Hv. run_py.
    eexists. split; [reflexivity|]. split_and!.
    + intros r Hr. by apply (init_wf w Hwf).
    + apply init_read.
    + apply init_draws.
    + apply init_ticks.
Qed.

Lemma advance_0 w : advance 0 w = w.
Proof. by destruct w. Qed.


Lemma compute_days_ok E c w t :
  stamp c = Some t →
  compute_task_age_days E c w = (Ok (days (datetime_sub (clock E (ticks w)) t)), advance 1 w).
Proof.
  intros Hc. unfold compute_task_age_days, fromisoformat_cell.
  destruct c as [s|]; simpl in Hc; [|done]. rewrite Hc. reflexivity.
Qed.

Lemma compute_days_world E c w res w' :
  compute_task_age_days E c w = (res, w') → ∃ n, w' = advance n w.
Proof.
  unfold compute_task_age_days, fromisoformat_cell.
  destruct c as [s|]; [destruct (fromisoformat s)|]; run_py; intros [= <- <-];
    first [by exists 1%nat | exists 0%nat; by rewrite advance_0].
Qed.

Lemma advance_advance n m w : advance n (advance m w) = advance (n + m) w.
Proof. unfold advance. simpl. f_equal. lia. Qed.

Lemma series_apply_world E cells w res w' :
  series_apply (compute_task_age_days E) cells w = (res, w') → ∃ n, w' = advance n w.
Proof.
  revert w res w'. induction cells as [|c cells IH]; intros w res w'; simpl.
  - intros [= <- <-]. exists 0%nat. by rewrite advance_0.
  - unfold bind at 1. destruct (compute_task_age_days E c w) as [[a|e] w1] eqn:H1.
    + apply compute_days_world in H1 as [n1 ->].
      unfold bind at 1.
      destruct (series_apply (compute_task_age_days E) cells (advance n1 w)) as [[ys|e] w2] eqn:H2;
        apply IH in H2 as [n2 ->]; intros [= <- <-]; exists (n2 + n1)%nat;
        by rewrite advance_advance.
    + apply compute_days_world in H1 as [n1 ->]. intros [= <- <-]. eauto.
Qed.

Lemma series_apply_length E cells w ys w' :
  series_apply (compute_task_age_days E) cells w = (Ok ys, w') → length ys = length cells.
Proof.
  revert w ys w'. induction cells as [|c cells IH]; intros w ys w'; simpl.
  - by intros [= <- <-].
  - unfold bind at 1. destruct (compute_task_age_days E c w) as [[a|e] w1]; [|done].
    unfold bind at 1.
    destruct (series_apply (compute_task_age_days E) cells w1) as [[zs|e] w2] eqn:H2; [|done].
    intros [= <- <-]. simpl. f_equal. by eapply IH.
Qed.

(** [series.apply] over parseable cells: element [i] is computed against
    the clock reading number [ticks w + i]. *)
Lemma series_apply_ok E cells w :
  Forall (λ c, is_Some (stamp c)) cells →
  ∃ ys, series_apply (compute_task_age_days E) cells w = (Ok ys, advance (length cells) w)
    ∧ length ys = length cells
    ∧ ∀ i c, cells !! i = Some c →
        ys !! i = elapsed_days (clock E (ticks w + i)) c.
Proof.
  revert w. induction cells as [|c cells IH]; intros w Hall.
  - exists []. simpl. rewrite advance_0. split_and!; [done|done|]. intros i c. by rewrite lookup_nil.
  - apply Forall_cons in Hall as [[t Ht] Hall].
    destruct (IH (advance 1 w) Hall) as (ys & Hrun & Hlen & Hys).
    exists (days (datetime_sub (clock E (ticks w)) t) :: ys). split_and!.
    + simpl. rewrite (bind_ok _ _ _ _ _ (compute_days_ok E c w t Ht)).
      rewrite (bind_ok _ _ _ _ _ Hrun). unfold ret. rewrite advance_advance.
      do 2 f_equal. unfold advance. f_equal. lia.
    + simpl. by rewrite Hlen.
    + intros [|i] c'; simpl.
      * intros [= <-]. unfold elapsed_days. rewrite Ht. simpl. by rewrite Nat.add_0_r.
      * intros Hc. rewrite (Hys i c' Hc). simpl. do 2 f_equal. lia.
Qed.

Lemma advance_init n w : init_world (advance n w) = advance n (init_world w).
Proof. destruct w as [h [[r|] [t|]] fs ms k d]; reflexivity. Qed.


Lemma with_derived_metrics_inv E df w d w' :
  with_derived_metrics E df w = (Ok d, w') →
  (df = [] ∧ d = Derived [] [] [] [] [] [] ∧ w' = w)
  ∨ (df ≠ [] ∧ ∃ age inactivity n,
       d = derive df (current_threshold w) age inactivity
       ∧ length age = length df ∧ length inactivity = length df
       ∧ w' = init_world (advance n w)).
Proof.
  destruct df as [|r df]; [intros [= <- <-]; by left|].
  intros H. right. split; [done|]. unfold with_derived_metrics in H.
  unfold bind at 1 in H.
  destruct (series_apply _ (created_at <$> r :: df) w) as [[age|e] w1] eqn:H1; [|done].
  pose proof (series_apply_length _ _ _ _ _ H1) as Hl1.
  apply series_apply_world in H1 as [n1 ->].
  unfold bind at 1 in H.
  change (compute_inactivity_days E) with (compute_task_age_days E) in H.
  destruct (series_apply _ (last_updated_at <$> r :: df) _) as [[inact|e] w2] eqn:H2; [|done].
  pose proof (series_apply_length _ _ _ _ _ H2) as Hl2.
  apply series_apply_world in H2 as [n2 ->].
  rewrite (bind_ok _ _ _ _ _ (get_threshold_eq _)) in H.
  unfold ret in H. injection H as <- <-.
  exists age, inact, (n2 + n1)%nat. rewrite advance_advance.
  rewrite length_fmap in Hl1, Hl2. split_and!; done.
Qed.

Lemma with_derived_metrics_ok E df w :
  df ≠ [] → Forall well_stamped df →
  ∃ age inactivity,
    with_derived_metrics E df w
    = (Ok (derive df (current_threshold w) age inactivity),
       init_world (advance (length df + length df) w))
    ∧ length age = length df ∧ length inactivity = length df
    ∧ ∀ i r, df !! i = Some r →
        age !! i = elapsed_days (clock E (ticks w + i)) (created_at r)
        ∧ inactivity !! i
          = elapsed_days (clock E (ticks w + length df + i)) (last_updated_at r).
Proof.
  intros Hne Hall.
  destruct (series_apply_ok E (created_at <$> df) w) as (age & Hrun1 & Hl1 & Hage).
  { apply Forall_fmap. eapply Forall_impl; [done|]. by intros r [? ?]. }
  destruct (series_apply_ok E (last_updated_at <$> df) (advance (length (created_at <$> df)) w))
    as (inact & Hrun2 & Hl2 & Hinact).
  { apply Forall_fmap. eapply Forall_impl; [done|]. by intros r [? ?]. }
  rewrite length_fmap in *.
  exists age, inact. split_and!; [|done|done|].
  - destruct df as [|r0 df0]; [done|]. unfold with_derived_metrics.
    rewrite (bind_ok _ _ _ _ _ Hrun1).
    change (compute_inactivity_days E) with (compute_task_age_days E).
    rewrite (bind_ok _ _ _ _ _ Hrun2).
    rewrite (bind_ok _ _ _ _ _ (get_threshold_eq _)). unfold ret.
    rewrite advance_advance, length_fmap. reflexivity.
  - intros i r Hr. split.
    + apply Hage. by rewrite list_lookup_fmap, Hr.
    + rewrite (Hinact i (last_updated_at r)) by (by rewrite list_lookup_fmap, Hr).
      simpl. do 2 f_equal. lia.
Qed.

(** ** Derived metrics *)

(** C1, as stated, fails: with a clock that passes midnight between two
    readings, two tasks created at the same instant get ages 1 and 2, which
    no single [now] explains. *)
Lemma derived_metrics_clock_skew :
  ∃ d w', with_derived_metrics midnight_env two_tasks empty_world = (Ok d, w')
          ∧ age_days d = [1; 2]
          ∧ ¬ batch_consistent two_tasks d.
Proof.
  eexists _, _. split; [vm_compute; reflexivity|]. split; [reflexivity|].
  intros (now & th & H).
  destruct (H 0%nat _ eq_refl) as (H0 & _). destruct (H 1%nat _ eq_refl) as (H1 & _).
  cbn [age_days lookup list_lookup two_tasks created_at] in H0, H1.
  rewrite <- H0 in H1. discriminate.
Qed.

(** C1, amended: on a non-empty table whose timestamps parse,
    [with_derived_metrics] reads the threshold once and uses it for every
    row, but reads the clock once per cell: the age of row [i] is taken
    against reading [ticks w + i] and its inactivity against reading
    [ticks w + n + i], [2 * n] readings in all.  When all these readings
    are the same instant, one [now] and one threshold explain every row. *)
Theorem derived_metrics_clock_per_cell E df w :
  df ≠ [] → Forall well_stamped df →
  ∃ d w', with_derived_metrics E df w = (Ok d, w') ∧ base d = df
    ∧ ticks w' = (ticks w + 2 * length df)%nat
    ∧ (∀ i r, df !! i = Some r →
         is_Some (age_days d !! i) ∧ is_Some (inactivity_days d !! i)
         ∧ age_days d !! i = elapsed_days (clock E (ticks w + i)) (created_at r)
         ∧ inactivity_days d !! i
           = elapsed_days (clock E (ticks w + length df + i)) (last_updated_at r)
         ∧ at_risk d !! i = (λ n, current_threshold w <=? n) <$> inactivity_days d !! i)
    ∧ (∀ now, (∀ j, (j < 2 * length df)%nat → clock E (ticks w + j) = now) →
         batch_consistent df d).
Proof.
  intros Hne Hall.
  destruct (with_derived_metrics_ok E df w Hne Hall) as (age & inact & Hrun & Hl1 & Hl2 & Hcols).
  eexists _, _. split; [exact Hrun|]. split; [done|]. split.
  { rewrite advance_init. simpl. rewrite init_ticks. lia. }
  assert (∀ i r, df !! i = Some r →
    is_Some (age !! i) ∧ is_Some (inact !! i)
    ∧ age !! i = elapsed_days (clock E (ticks w + i)) (created_at r)
    ∧ inact !! i = elapsed_days (clock E (ticks w + length df + i)) (last_updated_at r)
    ∧ ((λ n, current_threshold w <=? n) <$> inact) !! i
      = (λ n, current_threshold w <=? n) <$> inact !! i) as Hrows.
  { intros i r Hr. destruct (Hcols i r Hr) as [Ha Hi].
    pose proof (lookup_lt_Some _ _ _ Hr) as Hlt.
    split_and!; try done.
    - apply lookup_lt_is_Some. lia.
    - apply lookup_lt_is_Some. lia.
    - apply list_lookup_fmap. }
  split; [exact Hrows|].
  intros now Hnow. exists now, (current_threshold w). intros i r Hr.
  destruct (Hrows i r Hr) as (_ & _ & Ha & Hi & Hr').
  pose proof (lookup_lt_Some _ _ _ Hr) as Hlt.
  simpl. rewrite Ha, Hi, Hr', Hi.
  rewrite (Hnow i) by lia.
  replace (ticks w + length df + i)%nat with (ticks w + (length df + i))%nat by lia.
  rewrite (Hnow (length df + i)%nat) by lia. done.
Qed.

Lemma two_tasks_stamped : Forall well_stamped two_tasks.
Proof. repeat constructor; by eexists. Qed.

Lemma derived_metrics_clock_per_cell_witness :
  ∃ d w', with_derived_metrics steady_env two_tasks empty_world = (Ok d, w')
    ∧ batch_consistent two_tasks d.
Proof.
  destruct (derived_metrics_clock_per_cell steady_env two_tasks empty_world)
    as (d & w' & Hrun & _ & _ & _ & Hnow).
  - discriminate.
  - exact two_tasks_stamped.
  - exists d, w'. split; [exact Hrun|]. apply (Hnow (Datetime 2024 1 3 12 0 0 0)).
    intros j _. reflexivity.
Defined.

(** C5: in every frame [with_derived_metrics] returns, each row has an
    [inactivity_days] and an [at_risk] entry, and [at_risk] is true exactly
    when [inactivity_days] is at least the current threshold; at the
    threshold it is true, one day below it is false. *)
Theorem at_risk_iff_threshold E df w d w' :
  with_derived_metrics E df w = (Ok d, w') →
  base d = df
  ∧ length (inactivity_days d) = length (at_risk d)
  ∧ length (at_risk d) = length df
  ∧ ∀ i n b, inactivity_days d !! i = Some n → at_risk d !! i = Some b →
      (b = true ↔ current_threshold w ≤ n)
      ∧ (n = current_threshold w → b = true)
      ∧ (n = current_threshold w - 1 → b = false).
Proof.
  intros H. apply with_derived_metrics_inv in H
    as [(-> & -> & _)|(Hne & age & inact & k & -> & Hl1 & Hl2 & _)].
  - split_and!; try done; intros i n b; by rewrite lookup_nil.
  - simpl. rewrite length_fmap. split_and!; try done.
    intros i n b Hn. rewrite list_lookup_fmap, Hn. simpl. intros [= <-].
    split_and!.
    + apply Z.leb_le.
    + intros ->. apply Z.leb_refl.
    + intros ->. apply Z.leb_gt. lia.
Qed.

Lemma at_risk_iff_threshold_witness :
  ∃ d, (with_derived_metrics steady_env two_tasks empty_world).1 = Ok d
       ∧ at_risk d = [false; false] ∧ inactivity_days d = [2; 2]
       ∧ ∀ i n b, inactivity_days d !! i = Some n → at_risk d !! i = Some b →
           (b = true ↔ 3 ≤ n).
Proof.
  eexists. split; [vm_compute; reflexivity|]. split; [reflexivity|]. split; [reflexivity|].
  intros i n b Hn Hb.
  refine (proj1 (proj2 (proj2 (proj2
    (at_risk_iff_threshold steady_env two_tasks empty_world _ _ _))) i n b Hn Hb)).
  vm_compute. reflexivity.
Defined.

Lemma series_sum_fmap {A} (f : A → bool) (l : list A) :
  series_sum (f <$> l) = length (filter (λ x, f x = true) l).
Proof.
  unfold series_sum. induction l as [|x l IH]; [done|].
  rewrite fmap_cons, !filter_cons. destruct (f x) eqn:Hx.
  - rewrite decide_True by done. rewrite decide_True by done. simpl. by rewrite IH.
  - rewrite decide_False by done. rewrite decide_False by done. done.
Qed.

Lemma series_sum_decide {A} (P : A → Prop) `{!∀ x, Decision (P x)} (l : list A) :
  series_sum ((λ x, bool_decide (P x)) <$> l) = length (filter P l).
Proof.
  rewrite series_sum_fmap. f_equal. apply list_filter_iff. intros x.
  apply bool_decide_eq_true.
Qed.











Lemma index_eq_elem c v f i rest : index_eq c v f = i :: rest → v ∈ get_col c <$> f.
Proof.
  intros H. apply index_eq_cons in H as (r & Hr & Hv & _).
  apply list_elem_of_fmap. exists r. split; [done|]. by eapply list_elem_of_lookup_2.
Qed.

Lemma index_eq_present c v f : v ∈ get_col c <$> f → ∃ i rest, index_eq c v f = i :: rest.
Proof.
  intros H. destruct (index_eq c v f) as [|i rest] eqn:Hi; [|eauto].
  by apply index_eq_nil in Hi.
Qed.

(** ** Store operations *)

(** What holds of a failing call whatever the columns hold: when the id
    is not in the store, or a supplied title or owner is empty once
    trimmed, or a supplied status is outside the enumeration,
    [update_task] does not return [True] (it returns [False] or a write
    raises [TypeError]) and a reader of the store sees the same rows as
    before. *)
Lemma update_task_failure_keeps_store E id title description owner status w :
  wf w →
  update_fails id title owner status (read_tasks w) →
  ∃ res w', update_task E id title description owner status w = (res, w')
    ∧ (res = Ok false ∨ res = Raise TypeError)
    ∧ read_tasks w' = read_tasks w.
Proof.
  intros Hwf Hfail.
  destruct (update_task_spec E id title description owner status w Hwf)
    as (res & w' & Hrun & _ & _ & _ & Hcase).
  exists res, w'. split; [done|].
  destruct (index_eq c_task_id (Str id) (read_tasks w)) as [|i rest] eqn:Hidx.
  { destruct Hcase as (-> & ? & _). split; [by left|done]. }
  assert (update_accepts title owner status = false) as Hacc.
  { unfold update_accepts.
    destruct Hfail as [Hid|[(t & -> & Ht)|[(o & -> & Ho)|(s & -> & Hs)]]].
    - destruct Hid. by eapply (index_eq_elem c_task_id).
    - by rewrite Ht.
    - rewrite Ho. simpl. by rewrite andb_false_r.
    - rewrite bool_decide_eq_false_2 by done. by rewrite andb_false_r. }
  destruct Hcase as [(_ & Hacc' & _)|[(-> & _ & ? & _)|(-> & ? & _)]].
  - congruence.
  - split; [by left|done].
  - split; [by right|done].
Qed.

(** C2 does not hold on the code: on the store that comes back from a
    save and a load with a description column of missing values, a call
    that supplies a description and an owner of white space only does not
    return [False], as it does on the store before the save: the write of
    the description raises [TypeError] before the owner is checked.  The
    store keeps its rows. *)
Theorem update_task_raises_on_reloaded_store :
  (update_task steady_env "00000000-0000-4000-8000-000000000000"
     None (Some "new text") (Some "   ") None one_task_world).1 = Ok false
  ∧ description <$> read_tasks reloaded_world = [NaN]
  ∧ update_fails "00000000-0000-4000-8000-000000000000" None (Some "   ") None
      (read_tasks reloaded_world)
  ∧ (update_task steady_env "00000000-0000-4000-8000-000000000000"
       None (Some "new text") (Some "   ") None reloaded_world).1 = Raise TypeError
  ∧ read_tasks (update_task steady_env "00000000-0000-4000-8000-000000000000"
                  None (Some "new text") (Some "   ") None reloaded_world).2
    = read_tasks reloaded_world.
Proof.
  split_and!.
  - vm_compute. reflexivity.
  - vm_compute. reflexivity.
  - right. right. left. exists "   ". split; reflexivity.
  - vm_compute. reflexivity.
  - vm_compute. reflexivity.
Qed.


(** C3, as stated, fails: [create_task] takes what [uuid4] returns and
    compares it with nothing; with a generator that returns a value again
    the second task gets the id of the first. *)
Lemma create_task_duplicate_id :
  let w1 := (create_task repeating_env "first" (Some "") "Alice" "Planned" empty_world).2 in
  ∃ task w2,
    create_task repeating_env "second" (Some "") "Bob" "Planned" w1 = (Ok (Some task), w2)
    ∧ task_id task ∈ task_id <$> read_tasks w1
    ∧ task_id <$> read_tasks w2 = [Str "dup"; Str "dup"].
Proof.
  eexists _, _. split; [vm_compute; reflexivity|]. split.
  - vm_compute. apply list_elem_of_here.
  - vm_compute. reflexivity.
Qed.

(** C3, amended: with a title and an owner that are not empty once
    trimmed, a status of the enumeration and a description, [create_task]
    returns a task whose id is the text drawn from [uuid4], whose
    [created_at] equals its [last_updated_at], whose title and owner are
    the trimmed inputs, and which is appended as the last row: the table
    grows by exactly one.  The id differs from every id of the store when
    the stored ids were all drawn earlier in the session and the generator
    has not returned the new value before. *)
Theorem create_task_valid E title_in d owner_in status_in w :
  wf w →
  strip title_in ≠ "" → strip owner_in ≠ "" → status_in ∈ VALID_STATUSES →
  ∃ task w', create_task E title_in (Some d) owner_in status_in w = (Ok (Some task), w')
    ∧ task_id task = Str (uuid4 E (draws w))
    ∧ created_at task = last_updated_at task
    ∧ title task = Str (strip title_in) ∧ owner task = Str (strip owner_in)
    ∧ status task = Str status_in
    ∧ read_tasks w' = read_tasks w ++ [task]
    ∧ length (read_tasks w') = S (length (read_tasks w))
    ∧ (ids_drawn E w →
       (∀ k, (k < draws w)%nat → uuid4 E k ≠ uuid4 E (draws w)) →
       task_id task ∉ task_id <$> read_tasks w).
Proof.
  intros Hwf Ht Ho Hs.
  destruct (create_task_accepts E title_in d owner_in status_in w Hwf Ht Ho Hs)
    as (w' & Hrun & Hread & _).
  eexists _, w'. split; [exact Hrun|]. rewrite Hread, length_app. simpl.
  split_and!; try done; [lia|].
  intros Hdrawn Hnew (r & Hid & Hr)%list_elem_of_fmap.
  destruct (Hdrawn r Hr) as (k & Hk & Hk'). rewrite Hk' in Hid.
  injection Hid as Hid. by apply (Hnew k).
Qed.

(** C4: with an empty title (or one of white space only), or such an
    owner, or a status outside the enumeration, [create_task] returns
    [None], reports an error, and leaves the rows of the store, hence
    their number, as they were. *)
Theorem create_task_invalid E title description owner status w :
  strip title = "" ∨ strip owner = "" ∨ status ∉ VALID_STATUSES →
  ∃ w', create_task E title description owner status w = (Ok None, w')
    ∧ read_tasks w' = read_tasks w
    ∧ length (read_tasks w') = length (read_tasks w)
    ∧ ∃ msg, messages w' = messages w ++ [(Error, msg)].
Proof.
  intros H. destruct (create_task_rejects E title description owner status w H) as [msg Hrun].
  eexists. split; [exact Hrun|].
  assert (read_tasks (World (heap (init_world w)) (session (init_world w)) (files w)
                            (messages w ++ [(Error, msg)]) (ticks w) (draws w))
          = read_tasks w) as Hread by apply init_read.
  rewrite Hread. split_and!; eauto.
Qed.

Lemma wf_empty_world : wf empty_world.
Proof. intros r. done. Qed.

Lemma wf_one_task_world : wf one_task_world.
Proof. intros r. vm_compute. intros [= <-]. by eexists. Qed.

Lemma ids_drawn_one_task_world : ids_drawn steady_env one_task_world.
Proof.
  intros r Hr.
  assert (read_tasks one_task_world
          = [Row (Str "00000000-0000-4000-8000-000000000000") (Str "Write report") (Str "")
                 (Str "Alice") (Str "Planned") (Str "2024-01-03T12:00:00")
                 (Str "2024-01-03T12:00:00")]) as Hread by (vm_compute; reflexivity).
  rewrite Hread in Hr. apply list_elem_of_singleton in Hr as ->.
  exists 0%nat. split; [vm_compute; lia|reflexivity].
Qed.

Lemma create_task_valid_witness :
  ∃ task w', create_task steady_env " Plan sprint " (Some "") "Bob" "Planned" one_task_world
             = (Ok (Some task), w')
    ∧ title task = Str "Plan sprint"
    ∧ (task_id task ∉ task_id <$> read_tasks one_task_world)
    ∧ length (read_tasks w') = 2%nat.
Proof.
  destruct (create_task_valid steady_env " Plan sprint " "" "Bob" "Planned" one_task_world
              wf_one_task_world)
    as (task & w' & Hrun & _ & _ & Ht & _ & _ & _ & Hlen & Hnew).
  - vm_compute. discriminate.
  - vm_compute. discriminate.
  - vm_compute. apply list_elem_of_here.
  - exists task, w'. split; [exact Hrun|]. split; [exact Ht|]. split.
    + apply Hnew; [exact ids_drawn_one_task_world|].
      intros k Hk. destruct k as [|k]; [vm_compute; discriminate|].
      vm_compute in Hk. lia.
    + rewrite Hlen. reflexivity.
Defined.

Lemma create_task_invalid_witness :
  (∃ w', create_task steady_env "" (Some "d") "owner" "Planned" one_task_world = (Ok None, w')
         ∧ length (read_tasks w') = 1%nat)
  ∧ (∃ w', create_task steady_env "t" (Some "d") "" "Planned" one_task_world = (Ok None, w')
           ∧ length (read_tasks w') = 1%nat)
  ∧ (∃ w', create_task steady_env "t" (Some "d") "o" "Unknown" one_task_world = (Ok None, w')
           ∧ length (read_tasks w') = 1%nat).
Proof.
  split_and!.
  - destruct (create_task_invalid steady_env "" (Some "d") "owner" "Planned" one_task_world)
      as (w' & Hrun & _ & Hlen & _).
    + left. reflexivity.
    + exists w'. split; [exact Hrun|]. rewrite Hlen. reflexivity.
  - destruct (create_task_invalid steady_env "t" (Some "d") "" "Planned" one_task_world)
      as (w' & Hrun & _ & Hlen & _).
    + right. left. reflexivity.
    + exists w'. split; [exact Hrun|]. rewrite Hlen. reflexivity.
  - destruct (create_task_invalid steady_env "t" (Some "d") "o" "Unknown" one_task_world)
      as (w' & Hrun & _ & Hlen & _).
    + right. right. apply (bool_decide_unpack _). vm_compute. exact I.
    + exists w'. split; [exact Hrun|]. rewrite Hlen. reflexivity.
Defined.

(** ** Persistence *)

(** C7 does not hold on the code: a task with an empty description, which
    [create_task] accepts, is saved as an empty field and comes back from
    [load_tasks_from_csv] with the missing value NaN as its description. *)
Theorem csv_round_trip_loses_empty_description :
  let w1 := one_task_world in
  let w2 := (save_tasks_to_csv DEFAULT_DATA_PATH w1).2 in
  let '(loaded, w3) := load_tasks_from_csv DEFAULT_DATA_PATH w2 in
  read_tasks w2 = read_tasks w1
  ∧ description <$> read_tasks w1 = [Str ""]
  ∧ loaded = Ok true
  ∧ description <$> read_tasks w3 = [NaN]
  ∧ read_tasks w3 ≠ read_tasks w1.
Proof. vm_compute. split_and!; try reflexivity. discriminate. Qed.

(** ** The store invariant *)

(** C8, as stated, fails for the bulk load: a file without a [title]
    column is loaded with success and leaves a task whose title is the
    empty text. *)
Lemma load_breaks_store_invariant :
  store_invariant (read_tasks short_file_world)
  ∧ (load_tasks_from_csv DEFAULT_DATA_PATH short_file_world).1 = Ok true
  ∧ ¬ store_invariant (read_tasks (load_tasks_from_csv DEFAULT_DATA_PATH short_file_world).2).
Proof.
  split_and!.
  - split; [constructor|constructor].
  - vm_compute. reflexivity.
  - intros [_ Hrows].
    assert (read_tasks (load_tasks_from_csv DEFAULT_DATA_PATH short_file_world).2
            = [Row (Str "00000000-0000-4000-8000-000000000009") (Str "") (Str "") (Str "Alice")
                   (Str "Planned") (Str "2024-01-01T00:00:00") (Str "2024-01-01T00:00:00")])
      as Hread by (vm_compute; reflexivity).
    rewrite Hread in Hrows. apply Forall_cons in Hrows as [(_ & _ & (s & Hs & Hb) & _) _].
    simpl in Hs. injection Hs as <-. discriminate.
Qed.

Lemma datetime_cmp_refl t : datetime_cmp t t = Eq.
Proof. unfold datetime_cmp. by rewrite !Z.compare_refl. Qed.

Lemma datetime_le_refl t : datetime_le t t.
Proof. unfold datetime_le. by rewrite datetime_cmp_refl. Qed.

Lemma stamp_isoformat t : valid_datetime t = true → stamp (Str (isoformat t)) = Some t.
Proof. apply fromisoformat_isoformat. Qed.

Lemma filled_strip s : truthy (strip s) = true → filled (Str (strip s)).
Proof. intros H. exists (strip s). split; [done|]. apply strip_filled. by apply truthy_true. Qed.

Lemma updated_row_task_id t d o s now r : task_id (updated_row t d o s now r) = task_id r.
Proof. by destruct t, d, o, s. Qed.

Lemma updated_row_created_at t d o s now r : created_at (updated_row t d o s now r) = created_at r.
Proof. by destruct t, d, o, s. Qed.

Lemma updated_row_ok t d o s now r :
  update_accepts t o s = true → valid_datetime now = true →
  (∀ c, stamp (created_at r) = Some c → datetime_le c now) →
  row_ok r → row_ok (updated_row t d o s (isoformat now) r).
Proof.
  unfold update_accepts. rewrite !andb_true_iff.
  intros [[Ht Ho] Hs] Hnow Hle (Hst & (x & y & Hx & Hy & Hxy) & Hti & How).
  split_and!.
  - destruct s as [s|]; [|by destruct t, d, o].
    exists s. split; [by destruct t, d, o|]. by apply bool_decide_eq_true in Hs.
  - exists x, now. rewrite updated_row_created_at. split_and!; [done| |by apply Hle].
    assert (last_updated_at (updated_row t d o s (isoformat now) r) = Str (isoformat now)) as ->
      by (by destruct t, d, o, s).
    by apply stamp_isoformat.
  - destruct t as [t|]; [|by destruct d, o, s].
    assert (title (updated_row (Some t) d o s (isoformat now) r) = Str (strip t)) as ->
      by (by destruct d, o, s).
    by apply filled_strip.
  - destruct o as [o|]; [|by destruct t, d, s].
    assert (owner (updated_row t d (Some o) s (isoformat now) r) = Str (strip o)) as ->
      by (by destruct t, d, s).
    by apply filled_strip.
Qed.

Lemma store_invariant_alter g i f :
  (∀ r, task_id (g r) = task_id r) →
  (∀ r, f !! i = Some r → row_ok r → row_ok (g r)) →
  store_invariant f → store_invariant (alter g i f).
Proof.
  intros Hid Hok [Hnd Hrows]. split.
  - rewrite (list_fmap_alter task_id g id); [by rewrite list_alter_id|].
    apply Forall_true. intros r. by rewrite Hid.
  - apply Forall_lookup. intros j r. rewrite list_lookup_alter.
    rewrite Forall_lookup in Hrows. case_decide as Hj; [|by apply Hrows].
    subst j. destruct (f !! i) as [r0|] eqn:Hr0; simpl; [|done].
    intros [= <-]. apply Hok; [done|]. by eapply Hrows.
Qed.

Lemma store_invariant_snoc f r :
  (task_id r ∉ task_id <$> f) → row_ok r → store_invariant f → store_invariant (f ++ [r]).
Proof.
  intros Hfresh Hok [Hnd Hrows]. split.
  - rewrite fmap_app. apply NoDup_app. split_and!; [done| |apply NoDup_singleton].
    intros x Hx. rewrite fmap_cons, list_elem_of_singleton. by intros ->.
  - apply Forall_app. split; [done|]. by apply Forall_singleton.
Qed.

Lemma new_task_ok E title_in d owner_in status_in w :
  strip title_in ≠ "" → strip owner_in ≠ "" → status_in ∈ VALID_STATUSES →
  valid_datetime (clock E (ticks w)) = true →
  row_ok (new_task E title_in d owner_in status_in w).
Proof.
  intros Ht Ho Hs Hnow. unfold new_task, row_ok. simpl. split_and!.
  - eauto.
  - exists (clock E (ticks w)), (clock E (ticks w)).
    rewrite stamp_isoformat by done. split_and!; try done. apply datetime_le_refl.
  - apply filled_strip. by apply truthy_true.
  - apply filled_strip. by apply truthy_true.
Qed.

Lemma seed_demo_tasks_spec E w :
  ∃ w', seed_demo_tasks E w = (Ok tt, w') ∧ wf w'
    ∧ read_tasks w'
      = demo_rows (Str (isoformat (clock E (ticks w))))
          (uuid4 E (draws w)) (uuid4 E (S (draws w))) (uuid4 E (S (S (draws w))))
          (uuid4 E (S (S (S (draws w))))) (uuid4 E (S (S (S (S (draws w)))))).
Proof.
  unfold seed_demo_tasks. run_py.
  eexists. split; [reflexivity|]. unfold wf, read_tasks. simpl.
  rewrite lookup_insert_eq. split; [|done].
  intros r [= <-]. rewrite lookup_insert_eq. by eexists.
Qed.

Lemma reset_all_tasks_spec w :
  ∃ w', reset_all_tasks w = (Ok tt, w') ∧ wf w' ∧ read_tasks w' = [].
Proof.
  unfold reset_all_tasks. run_py.
  eexists. split; [reflexivity|]. unfold wf, read_tasks. simpl.
  rewrite lookup_insert_eq. split; [|done].
  intros r [= <-]. rewrite lookup_insert_eq. by eexists.
Qed.

Lemma demo_rows_ok now u1 u2 u3 u4 u5 :
  valid_datetime now = true → NoDup [u1; u2; u3; u4; u5] →
  store_invariant (demo_rows (Str (isoformat now)) u1 u2 u3 u4 u5).
Proof.
  intros Hnow Hnd. split.
  - change (NoDup (Str <$> [u1; u2; u3; u4; u5])). apply NoDup_fmap_2; [|done].
    by intros ?? [= ->].
  - assert (stamp_le (Str (isoformat now)) (Str (isoformat now))) as Hle.
    { exists now, now. rewrite stamp_isoformat by done. split_and!; try done.
      apply datetime_le_refl. }
    repeat constructor; simpl; try done;
      try (eexists; split; [reflexivity|]; first [reflexivity | set_solver]).
Qed.

(** C8, amended: from a store that satisfies the invariant (unique ids,
    status in the enumeration, [created_at <= last_updated_at], title and
    owner not blank), with a valid clock reading that is not before any
    stored [created_at] and identifiers drawn fresh, the store satisfies
    the invariant again after [create_task], [update_task],
    [reset_all_tasks] and [seed_demo_tasks], whatever their arguments. *)
Theorem store_invariant_preserved E w :
  store_ok w →
  valid_datetime (clock E (ticks w)) = true →
  (∀ r c, r ∈ read_tasks w → stamp (created_at r) = Some c →
          datetime_le c (clock E (ticks w))) →
  (Str (uuid4 E (draws w)) ∉ task_id <$> read_tasks w) →
  NoDup (uuid4 E <$> seq (draws w) 5) →
  (∀ title_in d owner_in status_in,
     store_ok (create_task E title_in d owner_in status_in w).2)
  ∧ (∀ id title_in d owner_in status_in,
       store_ok (update_task E id title_in d owner_in status_in w).2)
  ∧ store_ok (reset_all_tasks w).2
  ∧ store_ok (seed_demo_tasks E w).2.
Proof.
  intros [Hwf Hinv] Hnow Hclock Hfresh Hdraws. split_and!.
  - intros title_in d owner_in status_in.
    destruct (create_task_cases E title_in d owner_in status_in w Hwf)
      as [(w' & -> & Hwf' & Hread & _)
         |(d' & w' & -> & Ht & Ho & Hs & -> & Hwf' & Hread & _)];
      (split; [done|]); simpl; rewrite Hread; [done|].
    apply store_invariant_snoc; [done| |done]. by apply new_task_ok.
  - intros id title_in d owner_in status_in.
    destruct (update_task_spec E id title_in d owner_in status_in w Hwf)
      as (res & w' & -> & Hwf' & _ & _ & Hcase).
    split; [done|]. simpl.
    destruct (index_eq c_task_id (Str id) (read_tasks w)) as [|i rest] eqn:Hidx.
    { destruct Hcase as (_ & -> & _). done. }
    destruct Hcase as [(_ & Hacc & _ & _ & ->)|[(_ & _ & -> & _)|(_ & -> & _)]];
      [|done|done].
    apply store_invariant_alter; [apply updated_row_task_id| |done].
    intros r Hr Hok. apply updated_row_ok; try done.
    intros c Hc. eapply Hclock; [|done]. by eapply list_elem_of_lookup_2.
  - destruct (reset_all_tasks_spec w) as (w' & -> & Hwf' & Hread).
    split; [done|]. simpl. rewrite Hread. split; constructor.
  - destruct (seed_demo_tasks_spec E w) as (w' & -> & Hwf' & Hread).
    split; [done|]. simpl. rewrite Hread. by apply demo_rows_ok.
Qed.

Lemma one_task_world_ok : store_ok one_task_world.
Proof.
  split; [exact wf_one_task_world|].
  assert (read_tasks one_task_world
          = [Row (Str "00000000-0000-4000-8000-000000000000") (Str "Write report") (Str "")
                 (Str "Alice") (Str "Planned") (Str "2024-01-03T12:00:00")
                 (Str "2024-01-03T12:00:00")]) as -> by (vm_compute; reflexivity).
  split.
  - apply NoDup_singleton.
  - apply Forall_singleton. split_and!.
    + eexists. split; [reflexivity|]. set_solver.
    + eexists _, _. split_and!; [vm_compute; reflexivity..|]. vm_compute. discriminate.
    + eexists. split; reflexivity.
    + eexists. split; reflexivity.
Qed.

Lemma store_invariant_preserved_witness :
  store_ok (create_task steady_env "Plan sprint" (Some "next week") "Bob" "Planned"
              one_task_world).2
  ∧ store_ok (update_task steady_env "00000000-0000-4000-8000-000000000000"
                None None None (Some "Completed") one_task_world).2
  ∧ store_ok (seed_demo_tasks steady_env one_task_world).2.
Proof.
  destruct (store_invariant_preserved steady_env one_task_world one_task_world_ok)
    as (Hc & Hu & _ & Hs).
  - reflexivity.
  - intros r c Hr Hc.
    assert (read_tasks one_task_world
            = [Row (Str "00000000-0000-4000-8000-000000000000") (Str "Write report") (Str "")
                   (Str "Alice") (Str "Planned") (Str "2024-01-03T12:00:00")
                   (Str "2024-01-03T12:00:00")]) as Hread by (vm_compute; reflexivity).
    rewrite Hread in Hr. apply list_elem_of_singleton in Hr. subst r.
    vm_compute in Hc. injection Hc as <-. vm_compute. discriminate.
  - vm_compute. intros H. apply list_elem_of_singleton in H. discriminate.
  - apply (bool_decide_unpack _). vm_compute. exact I.
  - split_and!; [apply Hc|apply Hu|apply Hs].
Defined.

(** ** Identifiers drawn in the session *)

(** In a session that never loads a file every id of the store was drawn
    from [uuid4]; a generator that never repeats itself then draws an id
    that is not in the store. *)

Lemma drawn_id_fresh E w :
  Inj (=) (=) (uuid4 E) → ids_drawn E w →
  Str (uuid4 E (draws w)) ∉ task_id <$> read_tasks w.
Proof.
  intros Hinj Hdrawn Hin. apply list_elem_of_fmap in Hin as (r & Hid & Hr).
  destruct (Hdrawn r Hr) as (k & Hk & Hk'). rewrite Hk' in Hid.
  injection Hid as Hid. apply Hinj in Hid. lia.
Qed.

Lemma draws_distinct E k n : Inj (=) (=) (uuid4 E) → NoDup (uuid4 E <$> seq k n).
Proof. intros Hinj. apply NoDup_fmap_2; [done|]. apply NoDup_seq. Qed.

Lemma ids_drawn_create E t d o s w :
  wf w → ids_drawn E w → ids_drawn E (create_task E t d o s w).2.
Proof.
  intros Hwf Hdrawn.
  destruct (create_task_cases E t d o s w Hwf)
    as [(w' & -> & _ & Hread & Hdraws & _)
       |(d' & w' & _ & _ & _ & _ & -> & _ & Hread & Hdraws & _)];
    intros r; simpl; rewrite Hread, Hdraws.
  - apply Hdrawn.
  - rewrite elem_of_app, list_elem_of_singleton. intros [Hr| ->].
    + destruct (Hdrawn r Hr) as (k & Hk & Hid). exists k. split; [lia|done].
    + exists (draws w). split; [lia|done].
Qed.

Lemma ids_drawn_update E id t d o s w :
  wf w → ids_drawn E w → ids_drawn E (update_task E id t d o s w).2.
Proof.
  intros Hwf Hdrawn.
  destruct (update_task_spec E id t d o s w Hwf) as (res & w' & -> & _ & Hdraws & _ & Hcase).
  intros r. simpl. rewrite Hdraws.
  assert (read_tasks w' = read_tasks w
          ∨ ∃ i, read_tasks w'
                 = alter (updated_row t d o s (isoformat (clock E (ticks w)))) i (read_tasks w))
    as [-> | [i ->]]; [|by apply Hdrawn|].
  { destruct (index_eq _ _ _); [left; by destruct Hcase as (_ & ? & _)|].
    destruct Hcase as [(_ & _ & _ & _ & ?)|[(_ & _ & ? & _)|(_ & ? & _)]]; eauto. }
  intros Hr. apply list_elem_of_lookup_1 in Hr as [j Hj].
  rewrite list_lookup_alter in Hj. case_decide as Hij; [subst j|].
  - destruct (read_tasks w !! i) as [r0|] eqn:Hr0; simpl in Hj; [|done].
    injection Hj as <-. rewrite updated_row_task_id.
    apply Hdrawn. by eapply list_elem_of_lookup_2.
  - apply Hdrawn. by eapply list_elem_of_lookup_2.
Qed.

Lemma ids_drawn_seed E w : ids_drawn E (seed_demo_tasks E w).2.
Proof.
  destruct (seed_demo_tasks_spec E w) as (w' & Hrun & _ & Hread).
  rewrite Hrun. intros r. simpl. rewrite Hread.
  assert (draws w' = S (S (S (S (S (draws w)))))) as ->.
  { unfold seed_demo_tasks in Hrun. revert Hrun. run_py. by intros [= <-]. }
  unfold demo_rows. rewrite !elem_of_cons, elem_of_nil.
  intros [->|[->|[->|[->|[->|[]]]]]]; simpl; eexists; (split; [|reflexivity]); lia.
Qed.

Lemma ids_drawn_reset E w : ids_drawn E (reset_all_tasks w).2.
Proof.
  destruct (reset_all_tasks_spec w) as (w' & -> & _ & Hread).
  intros r. simpl. rewrite Hread. by rewrite elem_of_nil.
Qed.

(** ** Snapshots are independent copies *)

Section reader.
Context (E : env).

Lemma separated_init w held :
  separated w held → separated (init_world w) held.
Proof.
  intros (Hwf & Hout & Hsub). split_and!; [by apply init_wf| |].
  - destruct w as [h [[r|] t] fs ms k d]; simpl in *.
    + intros r' [= <-]. by apply Hout.
    + intros r' [= <-] Hin. apply Hsub in Hin. by apply is_fresh in Hin.
  - destruct w as [h [[r|] t] fs ms k d]; simpl in *; [done|].
    rewrite dom_insert_L. set_solver.
Qed.

Lemma same_store_read w w' : same_store w w' → read_tasks w' = read_tasks w.
Proof. intros [Hh Hs]. unfold read_tasks. by rewrite Hh, Hs. Qed.

Lemma same_store_separated w w' held :
  same_store w w' → separated w held → separated w' held.
Proof.
  intros [Hh Hs] (Hwf & Hout & Hsub). unfold separated, wf. rewrite Hh, Hs. done.
Qed.

Lemma separated_subseteq w held held' :
  held ⊆ held' → separated w held' → separated w held.
Proof. intros Hsub (Hwf & Hout & Hdom). split_and!; [done| |set_solver]. set_solver. Qed.

Lemma separated_snapshot w held :
  separated w held → separated (snapshot_world w) ({[snapshot_ref w]} ∪ held).
Proof.
  intros Hsep. pose proof (separated_init w held Hsep) as (Hwf & Hout & Hsub).
  destruct Hsep as (Hwf0 & _ & _). split_and!.
  - by apply snapshot_wf.
  - intros r Hr. change (tasks_df (session (init_world w)) = Some r) in Hr.
    rewrite elem_of_union, elem_of_singleton. intros [->|Hin].
    + exact (snapshot_ref_ne w _ Hwf0 Hr eq_refl).
    + by eapply Hout.
  - unfold snapshot_world. simpl. rewrite dom_insert_L.
    apply union_mono_l. by etrans.
Qed.

Lemma derive_world f w res w' :
  with_derived_metrics E f w = (res, w') →
  ∃ n, w' = advance n w ∨ w' = init_world (advance n w).
Proof.
  destruct f as [|r f]; [intros [= <- <-]; exists 0%nat; left; by rewrite advance_0|].
  unfold with_derived_metrics. unfold bind at 1.
  destruct (series_apply _ (created_at <$> r :: f) w) as [[age|e] w1] eqn:H1;
    apply series_apply_world in H1 as [n1 ->]; [|intros [= <- <-]; eauto].
  unfold bind at 1. change (compute_inactivity_days E) with (compute_task_age_days E).
  destruct (series_apply _ (last_updated_at <$> r :: f) _) as [[inact|e] w2] eqn:H2;
    apply series_apply_world in H2 as [n2 ->]; rewrite advance_advance;
    [|intros [= <- <-]; eauto].
  rewrite (bind_ok _ _ _ _ _ (get_threshold_eq _)). intros [= <- <-]. eauto.
Qed.

Lemma derive_frame f w res w' held :
  with_derived_metrics E f w = (res, w') → separated w held →
  separated w' held ∧ read_tasks w' = read_tasks w.
Proof.
  intros Hrun Hsep. apply derive_world in Hrun as [n [->| ->]].
  - split; [by apply (same_store_separated w)|by apply same_store_read].
  - split.
    + apply separated_init. by apply (same_store_separated w).
    + rewrite init_read. by apply same_store_read.
Qed.

Lemma reader_step_frame w held w' held' :
  reader_step E (w, held) (w', held') → separated w held →
  separated w' held' ∧ read_tasks w' = read_tasks w.
Proof.
  intros Hstep Hsep. inversion Hstep as
    [? ? df ? Hrun|? ? df g Hin|? ? f res ? Hrun|? ? f res ? Hrun|? ? path res ? Hrun
    |? ? res ? Hrun|? ? d res ? Hrun]; subst.
  - rewrite get_tasks_df_eq in Hrun. injection Hrun as <- <-.
    split; [by apply separated_snapshot|]. apply snapshot_read. by destruct Hsep.
  - destruct Hsep as (Hwf & Hout & Hsub). simpl.
    assert (∀ r, tasks_df (session w) = Some r → alter g df (heap w) !! r = heap w !! r) as Hh.
    { intros r Hr. apply lookup_alter_ne. intros ->. by eapply Hout. }
    split; [|by apply read_tasks_frame].
    split_and!; [by apply (wf_frame w)|done|]. simpl. by rewrite dom_alter_L.
  - by eapply derive_frame.
  - unfold daily_summary, bind in Hrun.
    destruct (with_derived_metrics E f w) as [[d|e] w1] eqn:Hd; injection Hrun as <- <-;
      by eapply derive_frame.
  - unfold save_tasks_to_csv in Hrun.
    rewrite (bind_ok _ _ _ _ _ (get_tasks_df_eq w)) in Hrun.
    unfold bind, rows_of, write_file, ret in Hrun. injection Hrun as <- <-.
    match goal with
    | |- separated ?W _ ∧ _ => assert (same_store (snapshot_world w) W) as Hss by (by split)
    end.
    split.
    + apply (same_store_separated _ _ _ Hss).
      eapply separated_subseteq; [|by apply separated_snapshot]. set_solver.
    + rewrite (same_store_read _ _ Hss). apply snapshot_read. by destruct Hsep.
  - rewrite get_threshold_eq in Hrun. injection Hrun as <- <-.
    split; [by apply separated_init|apply init_read].
  - unfold set_inactivity_threshold_days in Hrun.
    destruct (d <=? 0); injection Hrun as <- <-;
      (split; [by apply (same_store_separated w)|by apply same_store_read]).
Qed.

Lemma reader_steps_frame p p' :
  rtc (reader_step E) p p' → separated p.1 p.2 →
  separated p'.1 p'.2 ∧ read_tasks p'.1 = read_tasks p.1.
Proof.
  induction 1 as [|[w held] [w1 held1] p' Hstep _ IH]; [done|].
  intros Hsep. destruct (reader_step_frame _ _ _ _ Hstep Hsep) as [Hsep1 Hread1].
  destruct (IH Hsep1) as [Hsep' Hread']. split; [done|]. simpl in *. congruence.
Qed.

(** C9: [get_tasks_df] returns a new frame object holding the rows of the
    store; it is not the store's own object.  Whatever is written into it,
    and whatever sequence of snapshots, writes to snapshots and read-only
    operations follows, a reader of the store still sees the same rows. *)
Theorem snapshot_is_independent w :
  wf w →
  ∃ df w1, get_tasks_df w = (Ok df, w1)
    ∧ heap w1 !! df = Some (read_tasks w)
    ∧ tasks_df (session w1) ≠ Some df
    ∧ read_tasks w1 = read_tasks w
    ∧ (∀ g, read_tasks (mutate df g w1).2 = read_tasks w)
    ∧ ∀ w2 held2, rtc (reader_step E) (w1, {[df]}) (w2, held2) →
        read_tasks w2 = read_tasks w
        ∧ ∃ df2 w3, get_tasks_df w2 = (Ok df2, w3) ∧ heap w3 !! df2 = Some (read_tasks w).
Proof.
  intros Hwf. exists (snapshot_ref w), (snapshot_world w).
  assert (separated w ∅) as Hsep0.
  { split_and!; [done|set_solver|set_solver]. }
  pose proof (separated_snapshot w ∅ Hsep0) as Hsep1.
  rewrite (right_id_L ∅ (∪)) in Hsep1.
  assert (∀ w2 held2, rtc (reader_step E) (snapshot_world w, {[snapshot_ref w]}) (w2, held2) →
                      read_tasks w2 = read_tasks w) as Hsteps.
  { intros w2 held2 Hrtc.
    destruct (reader_steps_frame _ _ Hrtc Hsep1) as [_ Hread]. simpl in Hread.
    rewrite Hread. by apply snapshot_read. }
  split_and!.
  - apply get_tasks_df_eq.
  - apply snapshot_rows.
  - intros Hr. destruct Hsep1 as (_ & Hout & _). apply (Hout _ Hr). set_solver.
  - by apply snapshot_read.
  - intros g. apply (Hsteps _ {[snapshot_ref w]}). apply rtc_once.
    apply step_mutate. set_solver.
  - intros w2 held2 Hrtc. split; [by eapply Hsteps|].
    exists (snapshot_ref w2), (snapshot_world w2). split; [apply get_tasks_df_eq|].
    rewrite snapshot_rows. f_equal. by eapply Hsteps.
Qed.

End reader.

Lemma snapshot_is_independent_witness :
  ∃ df w1, get_tasks_df one_task_world = (Ok df, w1)
    ∧ read_tasks (mutate df (λ _, []) w1).2 = read_tasks one_task_world.
Proof.
  destruct (snapshot_is_independent steady_env one_task_world wf_one_task_world)
    as (df & w1 & Hrun & _ & _ & _ & Hmut & _).
  exists df, w1. split; [exact Hrun|apply Hmut].
Defined.

(** ** Well-formed worlds *)

Lemma wf_same_store w w' : same_store w w' → wf w → wf w'.
Proof. intros [Hh Hs]. unfold wf. by rewrite Hh, Hs. Qed.

Lemma load_tasks_from_csv_wf path w : wf w → wf (load_tasks_from_csv path w).2.
Proof.
  intros Hwf. unfold load_tasks_from_csv, try_except, read_file. unfold bind at 1.
  destruct (files w !! path) as [c|]; [|by apply (wf_same_store w)].
  unfold bind at 1. unfold read_csv.
  destruct (existsb _ _); [by apply (wf_same_store w)|].
  unfold ret at 1. cbv beta iota.
  set (rows := raw_select _). clearbody rows.
  run_py. intros r [= <-]. simpl. rewrite lookup_insert_eq. by eexists.
Qed.

Lemma store_step_wf E w w' : store_step E w w' → wf w → wf w'.
Proof.
  intros Hstep Hwf.
  destruct Hstep as [t d o s w|id t d o s w|w|w|path w|path w|w|df g w|d w|f w|f w].
  - by destruct (create_task_cases E t d o s w Hwf)
      as [(w' & -> & Hwf' & _)|(d' & w' & _ & _ & _ & _ & -> & Hwf' & _)].
  - by destruct (update_task_spec E id t d o s w Hwf) as (res & w' & -> & Hwf' & _).
  - by destruct (reset_all_tasks_spec w) as (w' & -> & Hwf' & _).
  - by destruct (seed_demo_tasks_spec E w) as (w' & -> & Hwf' & _).
  - by apply load_tasks_from_csv_wf.
  - assert (separated w ∅) as Hsep by (split_and!; [done|set_solver|set_solver]).
    destruct (save_tasks_to_csv path w) as [res w'] eqn:Hrun.
    by destruct (reader_step_frame E w ∅ w' ∅ (step_save E w ∅ path res w' Hrun) Hsep)
      as [(? & _) _].
  - rewrite get_tasks_df_eq. by apply snapshot_wf.
  - intros r Hr. simpl. apply lookup_alter_is_Some. by apply Hwf.
  - unfold set_inactivity_threshold_days. destruct (d <=? 0); by apply (wf_same_store w).
  - assert (separated w ∅) as Hsep by (split_and!; [done|set_solver|set_solver]).
    destruct (with_derived_metrics E f w) as [res w'] eqn:Hrun.
    by destruct (derive_frame E f w res w' ∅ Hrun Hsep) as [(? & _) _].
  - assert (separated w ∅) as Hsep by (split_and!; [done|set_solver|set_solver]).
    destruct (daily_summary E f w) as [res w'] eqn:Hrun.
    by destruct (reader_step_frame E w ∅ w' ∅ (step_summary E w ∅ f res w' Hrun) Hsep)
      as [(? & _) _].
Qed.

(** Every world reached from a fresh session is well formed. *)
Lemma reachable_wf E fs w :
  rtc (store_step E) (World ∅ (Session None None) fs [] 0 0) w → wf w.
Proof.
  intros Hrtc. assert (wf (World ∅ (Session None None) fs [] 0 0)) as H0 by (by intros r).
  revert H0. induction Hrtc as [|w0 w1 w2 Hstep _ IH]; [done|].
  intros H0. apply IH. by eapply store_step_wf.
Qed.

(** * Further properties of the code *)

(** ** The sample store *)

Lemma read_one_task_world :
  read_tasks one_task_world
  = [Row (Str "00000000-0000-4000-8000-000000000000") (Str "Write report") (Str "")
         (Str "Alice") (Str "Planned") (Str "2024-01-03T12:00:00")
         (Str "2024-01-03T12:00:00")].
Proof. vm_compute. reflexivity. Qed.

Lemma one_task_world_stamped : Forall well_stamped (read_tasks one_task_world).
Proof.
  rewrite read_one_task_world. apply List.Forall_cons; [|apply List.Forall_nil].
  split; eexists; reflexivity.
Qed.

Lemma one_task_world_update title_in status_in :
  strip title_in ≠ "" → status_in ∈ VALID_STATUSES →
  ¬ update_fails "00000000-0000-4000-8000-000000000000" (Some title_in) None
      (Some status_in) (read_tasks one_task_world).
Proof.
  intros Ht Hs. rewrite read_one_task_world. intros [H|[H|[H|H]]].
  - apply H. apply list_elem_of_here.
  - destruct H as (t & [= <-] & Hb). done.
  - destruct H as (o & Ho & _). discriminate Ho.
  - destruct H as (s & [= <-] & Hn). done.
Qed.

Lemma one_task_world_touch status_in :
  status_in ∈ VALID_STATUSES →
  ¬ update_fails "00000000-0000-4000-8000-000000000000" None None
      (Some status_in) (read_tasks one_task_world).
Proof.
  intros Hs. rewrite read_one_task_world. intros [H|[H|[H|H]]].
  - apply H. apply list_elem_of_here.
  - destruct H as (t & Ht & _). discriminate Ht.
  - destruct H as (o & Ho & _). discriminate Ho.
  - destruct H as (s & [= <-] & Hn). done.
Qed.

(** ** Calendar arithmetic *)

Lemma timedelta_days_floor a b :
  days (datetime_sub a b) = (epoch_us a - epoch_us b) `div` day_us.
Proof.
  unfold datetime_sub, mk_timedelta, epoch_us, time_of_day_us, day_us. cbn [days].
  set (d := toordinal a - toordinal b).
  set (s := second a + minute a * 60 + hour a * 3600 - (second b + minute b * 60 + hour b * 3600)).
  set (u := microsecond a - microsecond b).
  replace (toordinal a * 86400000000 +
           ((second a + minute a * 60 + hour a * 3600) * 1000000 + microsecond a) -
           (toordinal b * 86400000000 +
            ((second b + minute b * 60 + hour b * 3600) * 1000000 + microsecond b)))
    with ((d * 86400 + s) * 1000000 + u) by (unfold d, s, u; lia).
  clearbody d s u.
  Z.div_mod_to_equations. lia.
Qed.

Lemma time_of_day_bounds t : valid_datetime t = true → 0 ≤ time_of_day_us t < day_us.
Proof.
  unfold valid_datetime, time_of_day_us, day_us. rewrite !andb_true_iff, !Z.leb_le. lia.
Qed.

Lemma days_before_next_year y :
  _days_before_year (y + 1) = _days_before_year y + 365 + (if _is_leap y then 1 else 0).
Proof.
  unfold _days_before_year, _is_leap. replace (y + 1 - 1) with y by lia.
  destruct (Z.eqb_spec (y mod 4) 0), (Z.eqb_spec (y mod 100) 0), (Z.eqb_spec (y mod 400) 0);
    simpl; Z.div_mod_to_equations; lia.
Qed.

Lemma days_before_year_mono y1 y2 : y1 ≤ y2 → _days_before_year y1 ≤ _days_before_year y2.
Proof. unfold _days_before_year. intros H. Z.div_mod_to_equations. lia. Qed.

Ltac month_cases m :=
  let H := fresh in
  assert (m = 1 ∨ m = 2 ∨ m = 3 ∨ m = 4 ∨ m = 5 ∨ m = 6 ∨ m = 7 ∨ m = 8 ∨ m = 9
          ∨ m = 10 ∨ m = 11 ∨ m = 12) as H by lia;
  repeat destruct H as [->|H]; [..|subst m].

Lemma day_of_year_bounds y m d :
  valid_date y m d →
  1 ≤ _days_before_month y m + d ≤ 365 + (if _is_leap y then 1 else 0).
Proof.
  unfold valid_date, _days_in_month, _days_before_month. intros [Hm Hd].
  month_cases m; destruct (_is_leap y); simpl in *; lia.
Qed.

Lemma day_of_year_month_lt y m1 d1 m2 d2 :
  valid_date y m1 d1 → valid_date y m2 d2 → m1 < m2 →
  _days_before_month y m1 + d1 < _days_before_month y m2 + d2.
Proof.
  unfold valid_date, _days_in_month, _days_before_month. intros [Hm1 Hd1] [Hm2 Hd2] Hlt.
  month_cases m1; month_cases m2; try lia; destruct (_is_leap y); simpl in *; lia.
Qed.

Lemma ymd2ord_year_lt y1 m1 d1 y2 m2 d2 :
  valid_date y1 m1 d1 → valid_date y2 m2 d2 → y1 < y2 →
  _ymd2ord y1 m1 d1 < _ymd2ord y2 m2 d2.
Proof.
  intros H1 H2 Hlt. unfold _ymd2ord.
  pose proof (day_of_year_bounds _ _ _ H1). pose proof (day_of_year_bounds _ _ _ H2).
  pose proof (days_before_next_year y1).
  pose proof (days_before_year_mono (y1 + 1) y2 ltac:(lia)). lia.
Qed.

Lemma valid_datetime_date t :
  valid_datetime t = true → valid_date (year t) (month t) (day t).
Proof.
  unfold valid_datetime, valid_date. rewrite !andb_true_iff, !Z.leb_le. lia.
Qed.

Lemma ymd2ord_month_lt y m1 d1 m2 d2 :
  valid_date y m1 d1 → valid_date y m2 d2 → m1 < m2 →
  _ymd2ord y m1 d1 < _ymd2ord y m2 d2.
Proof.
  intros H1 H2 Hlt. unfold _ymd2ord.
  pose proof (day_of_year_month_lt _ _ _ _ _ H1 H2 Hlt). lia.
Qed.

(** On valid datetimes the field-by-field comparison is the comparison of
    the instants. *)
Lemma datetime_cmp_epoch a b :
  valid_datetime a = true → valid_datetime b = true →
  datetime_cmp a b = (epoch_us a ?= epoch_us b).
Proof.
  intros Ha Hb.
  pose proof (time_of_day_bounds a Ha) as Hta. pose proof (time_of_day_bounds b Hb) as Htb.
  pose proof (valid_datetime_date a Ha) as Hda. pose proof (valid_datetime_date b Hb) as Hdb.
  assert (year a < year b → toordinal a < toordinal b) as Hy1
    by (intros; by apply ymd2ord_year_lt).
  assert (year b < year a → toordinal b < toordinal a) as Hy2
    by (intros; by apply ymd2ord_year_lt).
  assert (year a = year b → month a < month b → toordinal a < toordinal b) as Hm1.
  { unfold toordinal. intros Hy ?. rewrite Hy in *. by apply ymd2ord_month_lt. }
  assert (year a = year b → month b < month a → toordinal b < toordinal a) as Hm2.
  { unfold toordinal. intros Hy ?. rewrite Hy in *. by apply ymd2ord_month_lt. }
  assert (year a = year b → month a = month b →
          toordinal a - toordinal b = day a - day b) as Hd.
  { unfold toordinal, _ymd2ord. intros -> ->. lia. }
  unfold epoch_us. unfold time_of_day_us in *. unfold day_us in *.
  unfold valid_datetime in Ha, Hb. rewrite !andb_true_iff, !Z.leb_le in Ha, Hb.
  generalize dependent (toordinal a). generalize dependent (toordinal b). intros ob oa.
  intros. unfold datetime_cmp, lex.
  repeat match goal with
    | |- context [?x ?= ?y] =>
        lazymatch x with
        | _ + _ => fail
        | _ => destruct (Z.compare_spec x y)
        end
    end;
    symmetry;
    first [apply Z.compare_eq_iff; lia | apply Z.compare_lt_iff; lia
          | apply Z.compare_gt_iff; lia].
Qed.

Lemma datetime_le_epoch a b :
  valid_datetime a = true → valid_datetime b = true →
  datetime_le a b ↔ epoch_us a ≤ epoch_us b.
Proof.
  intros Ha Hb. unfold datetime_le. rewrite (datetime_cmp_epoch a b Ha Hb).
  apply Z.compare_le_iff.
Qed.

(** ** Frames of the operations: the threshold *)

Global Instance threshold_kept_preorder : PreOrder threshold_kept.
Proof.
  split.
  - intros w. by left.
  - intros w1 w2 w3 [H1|[H1 H1']] [H2|[H2 H2']]; unfold threshold_kept;
      rewrite ?H2, ?H1; try tauto; try congruence.
    right. split; congruence.
Qed.

Global Instance files_kept_preorder : PreOrder files_kept.
Proof. split; [by intros w|]. intros w1 w2 w3. unfold files_kept. congruence. Qed.

Section keeps.
Context (R : relation world) `{!PreOrder R}.

Lemma keeps_ret {A} (a : A) : keeps R (ret a).
Proof. intros w. reflexivity. Qed.

Lemma keeps_raise {A} (e : exn) : keeps R (raise (A:=A) e).
Proof. intros w. reflexivity. Qed.

Lemma keeps_bind {A B} (m : M A) (k : A → M B) :
  keeps R m → (∀ a, keeps R (k a)) → keeps R (bind m k).
Proof.
  intros Hm Hk w. unfold bind. specialize (Hm w).
  destruct (m w) as [[a|e] w1]; simpl in *; [|done].
  etrans; [done|]. apply Hk.
Qed.

Lemma keeps_try_except {A} (body : M A) (handler : exn → M A) :
  keeps R body → (∀ e, keeps R (handler e)) → keeps R (try_except body handler).
Proof.
  intros Hm Hk w. unfold try_except. specialize (Hm w).
  destruct (body w) as [[a|e] w1]; simpl in *; [done|].
  etrans; [done|]. apply Hk.
Qed.

Lemma keeps_if_supplied {A} (arg : option A) body (k : M bool) :
  (∀ a, keeps R (body a k)) → keeps R k → keeps R (if_supplied arg body k).
Proof. destruct arg; simpl; auto. Qed.

Lemma keeps_series_apply {A B} (fn : A → M B) xs :
  (∀ x, keeps R (fn x)) → keeps R (series_apply fn xs).
Proof.
  intros Hfn. induction xs as [|x xs IH]; simpl; [apply keeps_ret|].
  apply keeps_bind; [done|]. intros y. apply keeps_bind; [done|]. intros ys. apply keeps_ret.
Qed.

End keeps.

(** Unfolds a computation into binds and primitives; [leaf] closes the
    goals about primitives, [_init_session_state] and [_set_tasks_df]. *)
Ltac keeps_walk leaf :=
  repeat first
    [ match goal with
      | |- keeps _ _init_session_state => leaf
      | |- keeps _ (_set_tasks_df _) => leaf
      | |- keeps _ (match ?x with _ => _ end) => destruct x
      end
    | apply keeps_bind; [tc_solve| |intros ?]
    | apply keeps_try_except; [tc_solve| |intros ?]
    | apply keeps_if_supplied; [intros ?; cbv beta|]
    | apply keeps_series_apply; [tc_solve|intros ?]
    | apply keeps_ret; tc_solve
    | apply keeps_raise; tc_solve
    | leaf ].

Ltac keeps_leaf_threshold :=
  solve [ intros ?; left; reflexivity
        | intros w; rewrite init_eq; cbn [snd];
          destruct w as [? [[?|] [?|]] ? ? ? ?]; first [by left | by right] ].

Ltac keeps_leaf_files :=
  solve [ intros ?; reflexivity | intros w; rewrite init_eq; apply init_files ].

Section threshold_frames.
Context (E : env).

Lemma threshold_kept_create t d o s : keeps threshold_kept (create_task E t d o s).
Proof.
  unfold create_task, get_tasks_df, session_tasks_df, copy, concat.
  keeps_walk keeps_leaf_threshold.
Qed.

Lemma threshold_kept_update id t d o s : keeps threshold_kept (update_task E id t d o s).
Proof.
  unfold update_task, get_tasks_df, session_tasks_df, copy.
  keeps_walk keeps_leaf_threshold.
Qed.

Lemma threshold_kept_reset : keeps threshold_kept reset_all_tasks.
Proof. unfold reset_all_tasks. keeps_walk keeps_leaf_threshold. Qed.

Lemma threshold_kept_seed : keeps threshold_kept (seed_demo_tasks E).
Proof. unfold seed_demo_tasks. keeps_walk keeps_leaf_threshold. Qed.

Lemma threshold_kept_get : keeps threshold_kept get_tasks_df.
Proof. unfold get_tasks_df, session_tasks_df, copy. keeps_walk keeps_leaf_threshold. Qed.

Lemma threshold_kept_save path : keeps threshold_kept (save_tasks_to_csv path).
Proof.
  unfold save_tasks_to_csv, get_tasks_df, session_tasks_df, copy.
  keeps_walk keeps_leaf_threshold.
Qed.

Lemma threshold_kept_load path : keeps threshold_kept (load_tasks_from_csv path).
Proof.
  unfold load_tasks_from_csv, read_csv.
  keeps_walk keeps_leaf_threshold.
Qed.

Lemma threshold_kept_derive f : keeps threshold_kept (with_derived_metrics E f).
Proof.
  unfold with_derived_metrics, compute_task_age_days, compute_inactivity_days,
    fromisoformat_cell, get_inactivity_threshold_days.
  keeps_walk keeps_leaf_threshold.
Qed.

Lemma threshold_kept_summary f : keeps threshold_kept (daily_summary E f).
Proof.
  unfold daily_summary. apply keeps_bind; [tc_solve|apply threshold_kept_derive|].
  intros d. apply keeps_ret. tc_solve.
Qed.

End threshold_frames.

(** ** Health figures *)

Lemma value_counts_lookup xs s :
  value_counts xs !! s
  = if decide (occurrences s xs = 0%nat) then None else Some (occurrences s xs).
Proof.
  unfold occurrences. induction xs as [|c xs IH]; [apply lookup_empty|].
  rewrite filter_cons. cbn [value_counts foldr]. fold (value_counts xs).
  destruct c as [s'|].
  - destruct (decide (Str s' = Str s)) as [[= ->]|Hne].
    + rewrite lookup_insert_eq, IH. cbn [length].
      destruct (decide (length (filter (λ c, c = Str s) xs) = 0%nat)) as [->|?]; done.
    + rewrite lookup_insert_ne by congruence. done.
  - destruct (decide (NaN = Str s)); done.
Qed.

Lemma sum_counts_insert m s :
  sum_counts (<[s := S (default 0%nat (m !! s))]> m) = S (sum_counts m).
Proof.
  unfold sum_counts.
  assert (∀ (m' : gmap string nat) j1 j2 z1 z2 y, j1 ≠ j2 →
            m' !! j1 = Some z1 → m' !! j2 = Some z2 →
            (z1 + (z2 + y) = z2 + (z1 + y))%nat) as Hcomm by (intros; lia).
  destruct (m !! s) as [k|] eqn:Hs; simpl.
  - rewrite <- insert_delete_eq.
    rewrite map_fold_insert_L; [|by eauto|by rewrite lookup_delete_eq].
    rewrite (map_fold_delete_L _ _ s k m); [lia|by eauto|done].
  - rewrite map_fold_insert_L; [lia|by eauto|done].
Qed.

Lemma sum_counts_value_counts xs :
  sum_counts (value_counts xs) = length (filter (λ c, c ≠ NaN) xs).
Proof.
  induction xs as [|c xs IH]; [done|].
  rewrite filter_cons. cbn [value_counts foldr]. fold (value_counts xs).
  destruct c as [s|].
  - destruct (decide (Str s ≠ NaN)) as [_|Hn]; [|by destruct Hn]. rewrite sum_counts_insert. simpl. by rewrite IH.
  - destruct (decide (NaN ≠ NaN)); done.
Qed.

Lemma occurrences_fmap {A} (f : A → cell) s (l : list A) :
  occurrences s (f <$> l) = length (filter (λ x, f x = Str s) l).
Proof.
  unfold occurrences. induction l as [|x l IH]; [done|].
  rewrite fmap_cons, !filter_cons. destruct (decide (f x = Str s)); simpl; by rewrite IH.
Qed.

Lemma series_sum_le (bs : list bool) : (series_sum bs ≤ length bs)%nat.
Proof. apply length_filter. Qed.

Lemma series_sum_and_le (a b : list bool) :
  (series_sum (zip_with andb a b) ≤ series_sum a)%nat.
Proof.
  unfold series_sum. revert b. induction a as [|x a IH]; intros [|y b]; simpl; try lia.
  rewrite !filter_cons. specialize (IH b).
  destruct x, y; simpl; repeat case_decide; simpl; try done; lia.
Qed.

Lemma series_sum_complement {A} (P : A → Prop) `{!∀ x, Decision (P x)} (l : list A) :
  (series_sum ((λ x, bool_decide (¬ P x)) <$> l) + length (filter P l) = length l)%nat.
Proof.
  unfold series_sum. induction l as [|x l IH]; [done|].
  rewrite fmap_cons, !filter_cons.
  destruct (decide (P x)) as [Hx|Hx].
  - rewrite bool_decide_eq_false_2 by tauto. rewrite decide_False by done. simpl. lia.
  - rewrite bool_decide_eq_true_2 by done. rewrite decide_True by done. simpl. lia.
Qed.

Lemma compute_health_run E df w d w' :
  with_derived_metrics E df w = (Ok d, w') →
  compute_health E df w
  = (Ok {| health.total := length df;
           health.blocked := series_sum (is_blocked d);
           health.at_risk := series_sum (at_risk d);
           health.long_running := series_sum (is_long_running d);
           health.by_status := value_counts (status <$> df);
           health.by_owner := value_counts (owner <$> df) |}, w').
Proof.
  intros Hrun. unfold compute_health. rewrite (bind_ok _ _ _ _ _ Hrun). unfold ret.
  apply with_derived_metrics_inv in Hrun
    as [(-> & -> & _)|(Hne & age & inact & k & -> & Hl1 & Hl2 & _)]; [reflexivity|].
  cbn [base derive]. destruct (decide (length df = 0%nat)) as [H0|_]; [|reflexivity].
  destruct df; [done|discriminate].
Qed.

Lemma bind_raise {A B} (m : M A) (k : A → M B) w e w' :
  m w = (Raise e, w') → bind m k w = (Raise e, w').
Proof. unfold bind. by intros ->. Qed.

Lemma compute_health_inv E df w h w' :
  compute_health E df w = (Ok h, w') →
  ∃ d, with_derived_metrics E df w = (Ok d, w')
       ∧ h = {| health.total := length df;
                health.blocked := series_sum (is_blocked d);
                health.at_risk := series_sum (at_risk d);
                health.long_running := series_sum (is_long_running d);
                health.by_status := value_counts (status <$> df);
                health.by_owner := value_counts (owner <$> df) |}.
Proof.
  intros Hrun. destruct (with_derived_metrics E df w) as [[d|e] w1] eqn:Hd.
  - rewrite (compute_health_run E df w d w1 Hd) in Hrun. injection Hrun as <- <-. eauto.
  - unfold compute_health in Hrun. rewrite (bind_raise _ _ _ _ _ Hd) in Hrun. done.
Qed.

(** X16: on a table with readable stamps [compute_health] returns, with
    [total] the number of rows, [by_status] and [by_owner] mapping each
    text to the number of rows holding it (texts that do not occur are
    absent, missing values are not counted), [blocked] equal to the
    "Blocked" entry of [by_status], and the counts of each map adding up
    to the number of rows whose cell is not missing. *)
Theorem compute_health_frequencies E df w :
  Forall well_stamped df →
  ∃ h w', compute_health E df w = (Ok h, w')
    ∧ health.total h = length df
    ∧ (∀ s n, health.by_status h !! s = Some n
              ↔ (0 < n)%nat ∧ n = length (filter (λ r, status r = Str s) df))
    ∧ (∀ s n, health.by_owner h !! s = Some n
              ↔ (0 < n)%nat ∧ n = length (filter (λ r, owner r = Str s) df))
    ∧ health.blocked h = default 0%nat (health.by_status h !! "Blocked")
    ∧ sum_counts (health.by_status h) = length (filter (λ r, status r ≠ NaN) df)
    ∧ sum_counts (health.by_owner h) = length (filter (λ r, owner r ≠ NaN) df).
Proof.
  intros Hall.
  assert (∃ d w', with_derived_metrics E df w = (Ok d, w')) as (d & w' & Hrun).
  { destruct df as [|r df]; [by eexists _, _|].
    destruct (with_derived_metrics_ok E (r :: df) w) as (? & ? & ? & _); eauto. }
  eexists _, w'. split; [by apply compute_health_run|]. cbn.
  assert (∀ (f : row → cell) s n,
    value_counts (f <$> df) !! s = Some n
    ↔ (0 < n)%nat ∧ n = length (filter (λ r, f r = Str s) df)) as Hfreq.
  { intros f s n. rewrite value_counts_lookup, occurrences_fmap.
    case_decide as H0; split; [done|lia|intros [= <-]; lia|intros [_ ->]; done]. }
  assert (∀ f : row → cell,
    sum_counts (value_counts (f <$> df)) = length (filter (λ r, f r ≠ NaN) df)) as Hsum.
  { intros f. rewrite sum_counts_value_counts. clear.
    induction df as [|r df IH]; [done|]. rewrite fmap_cons, !filter_cons.
    destruct (decide (f r ≠ NaN)); simpl; by rewrite IH. }
  split_and!; try done.
  apply with_derived_metrics_inv in Hrun
    as [(-> & -> & _)|(Hne & age & inact & k & -> & Hl1 & Hl2 & _)]; [done|].
  cbn [is_blocked derive].
  rewrite (series_sum_decide (λ r, status r = Str "Blocked")).
  rewrite value_counts_lookup, occurrences_fmap. by case_decide as H0; [rewrite H0|].
Qed.

(** X17: whenever [compute_health] returns, [total] is the number of
    rows, [blocked] and [at_risk] are at most [total], and long-running
    and completed tasks together are at most [total]; on the empty table
    every figure is zero, both maps are empty and nothing is read or
    written. *)
Theorem compute_health_bounds E df w h w' :
  compute_health E df w = (Ok h, w') →
  health.total h = length df
  ∧ (health.blocked h ≤ health.total h)%nat
  ∧ (health.at_risk h ≤ health.total h)%nat
  ∧ (health.long_running h + default 0%nat (health.by_status h !! "Completed")
     ≤ health.total h)%nat
  ∧ (df = [] → h = health.Health 0 0 0 0 ∅ ∅ ∧ w' = w).
Proof.
  intros Hrun. apply compute_health_inv in Hrun as (d & Hd & ->). cbn.
  apply with_derived_metrics_inv in Hd
    as [(-> & -> & ->)|(Hne & age & inact & k & -> & Hl1 & Hl2 & _)].
  { split_and!; try done; cbn; lia. }
  cbn [is_blocked at_risk is_long_running derive]. split_and!; [done| | | |by intros ?].
  - etrans; [apply series_sum_le|]. by rewrite length_fmap.
  - etrans; [apply series_sum_le|]. by rewrite length_fmap, Hl2.
  - rewrite value_counts_lookup, occurrences_fmap.
    pose proof (series_sum_complement (λ r, status r = Str "Completed") df) as Hc.
    pose proof (series_sum_and_le
      ((λ r, bool_decide (status r ≠ Str "Completed")) <$> df)
      ((λ a, current_threshold w * 2 <=? a) <$> age)) as Hle.
    case_decide as H0; simpl; lia.
Qed.

Lemma compute_health_frequencies_witness :
  ∃ h w', compute_health steady_env two_tasks empty_world = (Ok h, w')
    ∧ health.total h = 2%nat
    ∧ health.by_owner h !! "Alice" = Some 1%nat
    ∧ health.by_status h !! "Planned" = Some 2%nat.
Proof.
  destruct (compute_health_frequencies steady_env two_tasks empty_world two_tasks_stamped)
    as (h & w' & Hrun & Ht & Hs & Ho & _).
  exists h, w'. split_and!; [done|done| |].
  - apply Ho. split; [vm_compute; lia|reflexivity].
  - apply Hs. split; [vm_compute; lia|reflexivity].
Defined.

Lemma compute_health_bounds_witness :
  ∃ h, (compute_health steady_env two_tasks empty_world).1 = Ok h
       ∧ (health.blocked h ≤ health.total h)%nat.
Proof.
  eexists. split; [vm_compute; reflexivity|].
  refine (proj1 (proj2 (compute_health_bounds steady_env two_tasks empty_world _ _ _))).
  vm_compute. reflexivity.
Defined.

(** ** Sessions that load no file *)

Lemma text_row_new_task E t d o s w : text_row (new_task E t d o s w).
Proof. intros c. by destruct c. Qed.

Lemma text_row_updated t d o s now r : text_row r → text_row (updated_row t d o s now r).
Proof. intros Hr c. specialize (Hr c). by destruct c, t, d, o, s. Qed.

Lemma text_store_read w w' : wf w' → read_tasks w' = read_tasks w → text_store w → text_store w'.
Proof. intros Hwf Hread [_ Htext]. split; [done|]. by rewrite Hread. Qed.

Lemma compute_health_world E f w : (compute_health E f w).2 = (with_derived_metrics E f w).2.
Proof. unfold compute_health, bind. by destruct (with_derived_metrics E f w) as [[d|e] w']. Qed.

Lemma reader_step_text E w w' held' :
  reader_step E (w, ∅) (w', held') → text_store w → text_store w'.
Proof.
  intros Hstep [Hwf Htext].
  assert (separated w ∅) as Hsep by (split_and!; [done|set_solver|set_solver]).
  destruct (reader_step_frame E w ∅ w' held' Hstep Hsep) as [(Hwf' & _) Hread].
  by apply (text_store_read w).
Qed.

Lemma edit_step_text E w w' : edit_step E w w' → text_store w → text_store w'.
Proof.
  intros Hstep Hts. pose proof Hts as [Hwf Htext].
  destruct Hstep as [t d o s w|id t d o s w|w|w|path w|w|d w|w|f w|f w|f w].
  - destruct (create_task_cases E t d o s w Hwf)
      as [(w' & -> & Hwf' & Hread & _)
         |(d' & w' & _ & _ & _ & _ & -> & Hwf' & Hread & _)];
      (split; [done|]); simpl; rewrite Hread; [done|].
    apply Forall_app. split; [done|]. apply Forall_singleton, text_row_new_task.
  - destruct (update_task_spec E id t d o s w Hwf) as (res & w' & -> & Hwf' & _ & _ & Hcase).
    split; [done|]. simpl.
    destruct (index_eq _ _ _); [by destruct Hcase as (_ & -> & _)|].
    destruct Hcase as [(_ & _ & _ & _ & ->)|[(_ & _ & -> & _)|(_ & -> & _)]]; [|done|done].
    apply Forall_alter; [done|]. intros r _. apply text_row_updated.
  - destruct (reset_all_tasks_spec w) as (w' & -> & Hwf' & Hread).
    split; [done|]. simpl. rewrite Hread. constructor.
  - destruct (seed_demo_tasks_spec E w) as (w' & -> & Hwf' & Hread).
    split; [done|]. simpl. rewrite Hread.
    unfold demo_rows. repeat (apply List.Forall_cons; [intros c; by destruct c|]).
    apply List.Forall_nil.
  - destruct (save_tasks_to_csv path w) as [res w'] eqn:Hrun.
    by apply (reader_step_text E w w' ∅ (step_save E w ∅ path res w' Hrun)).
  - destruct (get_tasks_df w) as [res w'] eqn:Hrun.
    rewrite get_tasks_df_eq in Hrun. injection Hrun as <- <-.
    by apply (reader_step_text E w _ _ (step_snapshot E w ∅ _ _ (get_tasks_df_eq w))).
  - destruct (set_inactivity_threshold_days d w) as [res w'] eqn:Hrun.
    by apply (reader_step_text E w w' ∅ (step_set_threshold E w ∅ d res w' Hrun)).
  - destruct (get_inactivity_threshold_days w) as [res w'] eqn:Hrun.
    by apply (reader_step_text E w w' ∅ (step_get_threshold E w ∅ res w' Hrun)).
  - destruct (with_derived_metrics E f w) as [res w'] eqn:Hrun.
    by apply (reader_step_text E w w' ∅ (step_derive E w ∅ f res w' Hrun)).
  - destruct (daily_summary E f w) as [res w'] eqn:Hrun.
    by apply (reader_step_text E w w' ∅ (step_summary E w ∅ f res w' Hrun)).
  - rewrite compute_health_world.
    destruct (with_derived_metrics E f w) as [res w'] eqn:Hrun.
    by apply (reader_step_text E w w' ∅ (step_derive E w ∅ f res w' Hrun)).
Qed.

(** A session that loads no file keeps a live table in which every cell
    holds a text. *)
Lemma edited_text E w : edited E w → text_store w.
Proof.
  intros [fs Hsteps].
  assert (text_store (fresh_session fs)) as H0 by (split; [by intros r|constructor]).
  revert H0. induction Hsteps; eauto using edit_step_text.
Qed.

Lemma edited_no_float E w c : edited E w → float_column c (read_tasks w) = false.
Proof. intros [_ Htext]%edited_text. by apply float_column_text. Qed.

Lemma edited_wf E w : edited E w → wf w.
Proof. by intros [? _]%edited_text. Qed.

(** In a session that has loaded no file a failing [update_task] returns
    [False] and reports a message; the store keeps its rows. *)
Lemma update_task_failure_returns_false E id title description owner status w :
  edited E w →
  update_fails id title owner status (read_tasks w) →
  ∃ w', update_task E id title description owner status w = (Ok false, w')
    ∧ read_tasks w' = read_tasks w
    ∧ ∃ lvl msg, messages w' = messages w ++ [(lvl, msg)].
Proof.
  intros Hed Hfail.
  destruct (update_task_spec_text E id title description owner status w
              (edited_wf E w Hed) (λ c, edited_no_float E w c Hed))
    as (b & w' & Hrun & _ & _ & _ & Hcase).
  destruct (index_eq c_task_id (Str id) (read_tasks w)) as [|i rest] eqn:Hidx.
  { destruct Hcase as (-> & ? & _ & ?). exists w'. by split_and!. }
  assert (update_accepts title owner status = false) as Hacc.
  { unfold update_accepts.
    destruct Hfail as [Hid|[(t & -> & Ht)|[(o & -> & Ho)|(s & -> & Hs)]]].
    - destruct Hid. by eapply (index_eq_elem c_task_id).
    - by rewrite Ht.
    - rewrite Ho. simpl. by rewrite andb_false_r.
    - rewrite bool_decide_eq_false_2 by done. by rewrite andb_false_r. }
  rewrite Hacc in Hcase. destruct Hcase as (-> & ? & _ & msg & ?).
  exists w'. split_and!; eauto.
Qed.

Lemma one_task_world_edited : edited steady_env one_task_world.
Proof.
  exists ∅. apply rtc_once.
  exact (edit_create steady_env "Write report" (Some "") "Alice" "Planned" (fresh_session ∅)).
Qed.

(** ** Create and update, case by case *)

(** X1: [create_task] returns [None] exactly when the trimmed title or the
    trimmed owner is empty, the status is outside the enumeration, or the
    description is [None].  A rejected call leaves the table as it was,
    reads no clock and draws no identifier; an accepted call appends the
    returned task at the end, with one clock reading and one identifier. *)
Theorem create_task_decides E title_in description_in owner_in status_in w :
  wf w →
  ∃ res w', create_task E title_in description_in owner_in status_in w = (Ok res, w')
    ∧ (res = None ↔ strip title_in = "" ∨ strip owner_in = ""
                    ∨ status_in ∉ VALID_STATUSES ∨ description_in = None)
    ∧ (res = None →
       read_tasks w' = read_tasks w ∧ ticks w' = ticks w ∧ draws w' = draws w)
    ∧ (∀ task, res = Some task →
       read_tasks w' = read_tasks w ++ [task]
       ∧ ticks w' = S (ticks w) ∧ draws w' = S (draws w)).
Proof.
  intros Hwf.
  destruct (create_task_cases E title_in description_in owner_in status_in w Hwf)
    as [(w' & Hrun & _ & Hread & Hdraws & Hticks)
       |(d' & w' & -> & Ht & Ho & Hs & Hrun & _ & Hread & Hdraws & Hticks)].
  - exists None, w'. split; [done|]. split_and!; [|done|done].
    split; [intros _|done].
    destruct (decide (strip title_in = "")) as [|Ht]; [tauto|].
    destruct (decide (strip owner_in = "")) as [|Ho]; [tauto|].
    destruct (decide (status_in ∈ VALID_STATUSES)) as [Hs|]; [|tauto].
    destruct description_in as [d|]; [|tauto]. exfalso.
    destruct (create_task_accepts E title_in d owner_in status_in w Hwf Ht Ho Hs)
      as (w2 & Hrun2 & _). congruence.
  - eexists (Some _), w'. split; [done|]. split_and!; [|done|].
    + split; [done|]. intros [?|[?|[?|?]]]; done.
    + intros task [= <-]. done.
Qed.

Lemma create_task_decides_witness :
  ∃ res w', create_task steady_env "Plan sprint" None "Bob" "Planned" one_task_world
            = (Ok res, w')
    ∧ (res = None → read_tasks w' = read_tasks one_task_world).
Proof.
  destruct (create_task_decides steady_env "Plan sprint" None "Bob" "Planned" one_task_world
              wf_one_task_world) as (res & w' & Hrun & _ & Hnone & _).
  exists res, w'. split; [exact Hrun|]. intros H. exact (proj1 (Hnone H)).
Defined.

Lemma py_or_empty s : py_or s "" = s.
Proof. by destruct s. Qed.

Lemma update_accepts_iff id t o s f :
  ¬ update_fails id t o s f ↔ Str id ∈ task_id <$> f ∧ update_accepts t o s = true.
Proof.
  unfold update_fails, update_accepts. rewrite !andb_true_iff. split.
  - intros H. split_and!.
    + apply dec_stable. tauto.
    + destruct t as [x|]; [|done]. apply truthy_true. intros Hx. apply H. eauto 6.
    + destruct o as [x|]; [|done]. apply truthy_true. intros Hx. apply H. eauto 8.
    + destruct s as [x|]; [|done]. apply bool_decide_eq_true, dec_stable.
      intros Hx. apply H. eauto 8.
  - intros (Hid & [Ht Ho] & Hs) [?|[(x & -> & Hx)|[(x & -> & Hx)|(x & -> & Hx)]]].
    + done.
    + by rewrite Hx in Ht.
    + by rewrite Hx in Ho.
    + by apply bool_decide_eq_true in Hs.
Qed.

Lemma update_task_effect E id title_in description_in owner_in status_in w :
  wf w → (∀ c, float_column c (read_tasks w) = false) →
  ¬ update_fails id title_in owner_in status_in (read_tasks w) →
  ∃ w' i r r', update_task E id title_in description_in owner_in status_in w = (Ok true, w')
    ∧ read_tasks w !! i = Some r ∧ task_id r = Str id
    ∧ (∀ j r0, (j < i)%nat → read_tasks w !! j = Some r0 → task_id r0 ≠ Str id)
    ∧ read_tasks w' !! i = Some r'
    ∧ title r' = from_option (λ x, Str (strip x)) (title r) title_in
    ∧ description r' = from_option (λ x, Str (strip x)) (description r) description_in
    ∧ owner r' = from_option (λ x, Str (strip x)) (owner r) owner_in
    ∧ status r' = from_option Str (status r) status_in
    ∧ last_updated_at r' = Str (isoformat (clock E (ticks w)))
    ∧ task_id r' = task_id r ∧ created_at r' = created_at r
    ∧ (∀ j, j ≠ i → read_tasks w' !! j = read_tasks w !! j)
    ∧ messages w' = messages w ∧ ticks w' = S (ticks w).
Proof.
  intros Hwf Htext Hok. apply update_accepts_iff in Hok as [Hid Hacc].
  destruct (update_task_spec_text E id title_in description_in owner_in status_in w Hwf Htext)
    as (b & w' & Hrun & _ & _ & _ & Hcase).
  destruct (index_eq_present c_task_id _ _ Hid) as (i & rest & Hidx).
  rewrite Hidx, Hacc in Hcase. destruct Hcase as (-> & Hticks & Hmsg & Hread).
  apply index_eq_cons in Hidx as (r & Hr & Hv & Hmin).
  exists w', i, r,
    (updated_row title_in description_in owner_in status_in
       (isoformat (clock E (ticks w))) r).
  split; [done|]. rewrite Hread.
  split_and!; [done|done|done| | | | | | | | | |done|done].
  - by rewrite list_lookup_alter_eq, Hr.
  - by destruct title_in, description_in, owner_in, status_in.
  - destruct description_in as [x|]; [|by destruct title_in, owner_in, status_in].
    simpl. rewrite <- (py_or_empty x) at 2. by destruct title_in, owner_in, status_in.
  - by destruct title_in, description_in, owner_in, status_in.
  - by destruct title_in, description_in, owner_in, status_in.
  - by destruct title_in, description_in, owner_in, status_in.
  - apply updated_row_task_id.
  - apply updated_row_created_at.
  - intros j Hj. by rewrite list_lookup_alter_ne.
Qed.

(** X2: in a session that has loaded no file, when the id is in the store
    and every supplied field passes its check, [update_task] returns
    [True] and changes the first row with that id only: a supplied title,
    description or owner is stored trimmed, a supplied status as given, a
    field not supplied keeps its value, [last_updated_at] becomes the
    clock reading of the call, and [task_id] and [created_at] stay.
    Nothing is reported and the clock is read once. *)
Theorem update_task_applies E id title_in description_in owner_in status_in w :
  edited E w →
  ¬ update_fails id title_in owner_in status_in (read_tasks w) →
  ∃ w' i r r', update_task E id title_in description_in owner_in status_in w = (Ok true, w')
    ∧ read_tasks w !! i = Some r ∧ task_id r = Str id
    ∧ (∀ j r0, (j < i)%nat → read_tasks w !! j = Some r0 → task_id r0 ≠ Str id)
    ∧ read_tasks w' !! i = Some r'
    ∧ title r' = from_option (λ x, Str (strip x)) (title r) title_in
    ∧ description r' = from_option (λ x, Str (strip x)) (description r) description_in
    ∧ owner r' = from_option (λ x, Str (strip x)) (owner r) owner_in
    ∧ status r' = from_option Str (status r) status_in
    ∧ last_updated_at r' = Str (isoformat (clock E (ticks w)))
    ∧ task_id r' = task_id r ∧ created_at r' = created_at r
    ∧ (∀ j, j ≠ i → read_tasks w' !! j = read_tasks w !! j)
    ∧ messages w' = messages w ∧ ticks w' = S (ticks w).
Proof.
  intros Hed. apply update_task_effect; [by eapply edited_wf|].
  intros c. by eapply edited_no_float.
Qed.

Lemma update_task_applies_witness :
  ∃ w' i r', update_task steady_env "00000000-0000-4000-8000-000000000000"
               (Some " Write the report ") None None (Some "In Progress") one_task_world
             = (Ok true, w')
    ∧ read_tasks w' !! i = Some r'
    ∧ title r' = Str "Write the report" ∧ status r' = Str "In Progress".
Proof.
  destruct (update_task_applies steady_env "00000000-0000-4000-8000-000000000000"
              (Some " Write the report ") None None (Some "In Progress") one_task_world
              one_task_world_edited)
    as (w' & i & r & r' & Hrun & _ & _ & _ & Hr' & Ht & _ & _ & Hs & _).
  - apply one_task_world_update.
    + vm_compute. discriminate.
    + apply list_elem_of_further, list_elem_of_here.
  - exists w', i, r'. split; [exact Hrun|]. split; [exact Hr'|]. split; [exact Ht|exact Hs].
Defined.

(** X3: whatever its arguments and whether it succeeds or not,
    [update_task] leaves the number of tasks, their order, their
    identifiers and their creation stamps as they were. *)
Theorem update_task_keeps_identity E id title_in description_in owner_in status_in w :
  wf w →
  let w' := (update_task E id title_in description_in owner_in status_in w).2 in
  task_id <$> read_tasks w' = task_id <$> read_tasks w
  ∧ created_at <$> read_tasks w' = created_at <$> read_tasks w
  ∧ length (read_tasks w') = length (read_tasks w).
Proof.
  intros Hwf.
  destruct (update_task_spec E id title_in description_in owner_in status_in w Hwf)
    as (res & w' & -> & _ & _ & _ & Hcase). cbn.
  assert (read_tasks w' = read_tasks w
          ∨ ∃ i, read_tasks w'
                 = alter (updated_row title_in description_in owner_in status_in
                            (isoformat (clock E (ticks w)))) i (read_tasks w))
    as [-> | [i ->]]; [|done|].
  { destruct (index_eq _ _ _); [left; by destruct Hcase as (_ & ? & _)|].
    destruct Hcase as [(_ & _ & _ & _ & ?)|[(_ & _ & ? & _)|(_ & ? & _)]]; eauto. }
  split_and!.
  - rewrite (list_fmap_alter task_id _ (λ c, c)); [by rewrite list_alter_id|].
    apply Forall_true. intros r. apply updated_row_task_id.
  - rewrite (list_fmap_alter created_at _ (λ c, c)); [by rewrite list_alter_id|].
    apply Forall_true. intros r. apply updated_row_created_at.
  - apply length_alter.
Qed.

Lemma update_task_keeps_identity_witness :
  task_id <$> read_tasks (update_task steady_env "00000000-0000-4000-8000-000000000000"
                            None None None (Some "Blocked") one_task_world).2
  = task_id <$> read_tasks one_task_world.
Proof.
  exact (proj1 (update_task_keeps_identity steady_env "00000000-0000-4000-8000-000000000000"
                  None None None (Some "Blocked") one_task_world wf_one_task_world)).
Defined.

(** X6: after [set_inactivity_threshold_days d],
    [get_inactivity_threshold_days] returns [d] when [d] is positive;
    otherwise the call reports an error, leaves the session as it was and
    the threshold read afterwards is the one in force before.  The table
    is not touched in either case. *)
Theorem threshold_set_then_get d w :
  let w1 := (set_inactivity_threshold_days d w).2 in
  (get_inactivity_threshold_days w1).1
  = Ok (if decide (0 < d) then d else current_threshold w)
  ∧ read_tasks w1 = read_tasks w
  ∧ (d ≤ 0 → session w1 = session w
             ∧ messages w1
               = messages w ++ [(Error, "Inactivity threshold must be a positive integer.")])
  ∧ (0 < d → messages w1 = messages w).
Proof.
  cbn zeta. rewrite get_threshold_eq. unfold set_inactivity_threshold_days.
  destruct (Z.leb_spec d 0) as [Hd|Hd]; cbn.
  - rewrite decide_False by lia. split_and!; try done. lia.
  - rewrite decide_True by lia. unfold current_threshold. cbn.
    destruct (Z.eqb_spec d 0); [lia|]. split_and!; try done. lia.
Qed.

(** ** Frames of the operations: threshold and files *)

Section file_frames.
Context (E : env).

Lemma threshold_kept_get_threshold : keeps threshold_kept get_inactivity_threshold_days.
Proof. unfold get_inactivity_threshold_days. keeps_walk keeps_leaf_threshold. Qed.

Lemma threshold_kept_health f : keeps threshold_kept (compute_health E f).
Proof.
  unfold compute_health. apply keeps_bind; [tc_solve|apply threshold_kept_derive|].
  intros ?. apply keeps_ret; tc_solve.
Qed.

Lemma threshold_kept_mutate df g : keeps threshold_kept (mutate df g).
Proof. intros w. by left. Qed.

Lemma files_kept_create t d o s : keeps files_kept (create_task E t d o s).
Proof.
  unfold create_task, get_tasks_df, session_tasks_df, copy, concat.
  keeps_walk keeps_leaf_files.
Qed.

Lemma files_kept_update id t d o s : keeps files_kept (update_task E id t d o s).
Proof.
  unfold update_task, get_tasks_df, session_tasks_df, copy.
  keeps_walk keeps_leaf_files.
Qed.

Lemma files_kept_reset : keeps files_kept reset_all_tasks.
Proof. unfold reset_all_tasks. keeps_walk keeps_leaf_files. Qed.

Lemma files_kept_seed : keeps files_kept (seed_demo_tasks E).
Proof. unfold seed_demo_tasks. keeps_walk keeps_leaf_files. Qed.

Lemma files_kept_get : keeps files_kept get_tasks_df.
Proof. unfold get_tasks_df, session_tasks_df, copy. keeps_walk keeps_leaf_files. Qed.

Lemma files_kept_load path : keeps files_kept (load_tasks_from_csv path).
Proof. unfold load_tasks_from_csv, read_csv. keeps_walk keeps_leaf_files. Qed.

Lemma files_kept_get_threshold : keeps files_kept get_inactivity_threshold_days.
Proof. unfold get_inactivity_threshold_days. keeps_walk keeps_leaf_files. Qed.

Lemma files_kept_set_threshold d : keeps files_kept (set_inactivity_threshold_days d).
Proof. unfold set_inactivity_threshold_days. keeps_walk keeps_leaf_files. Qed.

Lemma files_kept_derive f : keeps files_kept (with_derived_metrics E f).
Proof.
  unfold with_derived_metrics, compute_task_age_days, compute_inactivity_days,
    fromisoformat_cell, get_inactivity_threshold_days.
  keeps_walk keeps_leaf_files.
Qed.

Lemma files_kept_summary f : keeps files_kept (daily_summary E f).
Proof.
  unfold daily_summary. apply keeps_bind; [tc_solve|apply files_kept_derive|].
  intros ?. apply keeps_ret; tc_solve.
Qed.

Lemma files_kept_health f : keeps files_kept (compute_health E f).
Proof.
  unfold compute_health. apply keeps_bind; [tc_solve|apply files_kept_derive|].
  intros ?. apply keeps_ret; tc_solve.
Qed.

End file_frames.

Lemma threshold_kept_current w w' :
  threshold_kept w w' → current_threshold w' = current_threshold w.
Proof. unfold current_threshold. by intros [->|[-> ->]]. Qed.

Lemma threshold_kept_ok w w' : threshold_kept w w' → threshold_ok w → threshold_ok w'.
Proof.
  unfold threshold_ok. intros [->|[_ ->]] Hok d; [apply Hok|].
  intros [= <-]. done.
Qed.

Lemma app_step_threshold_kept E w w' :
  app_step E w w' →
  threshold_kept w w' ∨ ∃ d, 0 < d ∧ w' = (set_inactivity_threshold_days d w).2.
Proof.
  intros [? ? []| |].
  - left. apply threshold_kept_create.
  - left. apply threshold_kept_update.
  - left. apply threshold_kept_reset.
  - left. apply threshold_kept_seed.
  - left. apply threshold_kept_load.
  - left. apply threshold_kept_save.
  - left. apply threshold_kept_get.
  - left. apply threshold_kept_mutate.
  - destruct (decide (0 < d)); [right; eauto|left].
    unfold set_inactivity_threshold_days.
    destruct (Z.leb_spec d 0); [|lia]. by left.
  - left. apply threshold_kept_derive.
  - left. apply threshold_kept_summary.
  - left. apply threshold_kept_get_threshold.
  - left. apply threshold_kept_health.
Qed.

(** X7: of all operations of the store and of the analytics, only a
    [set_inactivity_threshold_days] with a positive argument changes the
    threshold the metrics use. *)
Theorem threshold_changed_only_by_set E w w' :
  app_step E w w' →
  current_threshold w' = current_threshold w
  ∨ ∃ d, 0 < d ∧ w' = (set_inactivity_threshold_days d w).2 ∧ current_threshold w' = d.
Proof.
  intros [Hk|(d & Hd & ->)]%app_step_threshold_kept.
  - left. by apply threshold_kept_current.
  - right. exists d. split_and!; [done|done|].
    unfold set_inactivity_threshold_days, current_threshold.
    destruct (Z.leb_spec d 0); [lia|]. cbn. destruct (Z.eqb_spec d 0); [lia|done].
Qed.

Lemma threshold_changed_only_by_set_witness :
  current_threshold (seed_demo_tasks steady_env one_task_world).2
  = current_threshold one_task_world
  ∨ ∃ d, 0 < d
      ∧ (seed_demo_tasks steady_env one_task_world).2
        = (set_inactivity_threshold_days d one_task_world).2
      ∧ current_threshold (seed_demo_tasks steady_env one_task_world).2 = d.
Proof.
  apply (threshold_changed_only_by_set steady_env).
  apply app_store, call_seed.
Defined.

Lemma app_step_threshold_ok E w w' : app_step E w w' → threshold_ok w → threshold_ok w'.
Proof.
  intros [Hk|(d & Hd & ->)]%app_step_threshold_kept Hok.
  - by eapply threshold_kept_ok.
  - unfold set_inactivity_threshold_days.
    destruct (Z.leb_spec d 0); [lia|]. intros d' [= <-]. done.
Qed.

(** X8: in every world a session reaches from its start, the stored
    threshold is positive and it is the number
    [get_inactivity_threshold_days] returns: the fall-back to the default
    for a stored 0 is never taken. *)
Theorem threshold_positive_in_session E fs w :
  rtc (app_step E) (fresh_session fs) w →
  ∃ th, (get_inactivity_threshold_days w).1 = Ok th ∧ 0 < th
        ∧ inactivity_threshold_days (session (get_inactivity_threshold_days w).2) = Some th.
Proof.
  intros Hsteps.
  assert (threshold_ok w) as Hok.
  { assert (threshold_ok (fresh_session fs)) as H0 by (intros d [=]).
    revert H0. induction Hsteps; eauto using app_step_threshold_ok. }
  rewrite get_threshold_eq. exists (current_threshold w). split; [done|].
  unfold current_threshold, threshold_ok in *.
  destruct w as [h [r [d|]] ? ? ? ?]; cbn in *.
  - specialize (Hok d eq_refl). destruct (Z.eqb_spec d 0); [lia|].
    split; [done|]. by destruct r.
  - split; [done|]. by destruct r.
Qed.

Lemma threshold_positive_in_session_witness :
  ∃ th, (get_inactivity_threshold_days
           (set_inactivity_threshold_days 7 (fresh_session ∅)).2).1 = Ok th
        ∧ 0 < th.
Proof.
  destruct (threshold_positive_in_session steady_env ∅
              (set_inactivity_threshold_days 7 (fresh_session ∅)).2)
    as (th & Hget & Hpos & _).
  - apply rtc_once, app_store, call_set_threshold.
  - exists th. split; [exact Hget|exact Hpos].
Defined.

(** X9: no operation but [save_tasks_to_csv] writes a file; the save
    writes the current table (header and one record per task) under the
    given path and leaves every other file alone. *)
Theorem files_written_only_by_save E w w' :
  app_step E w w' →
  files w' = files w
  ∨ ∃ path, w' = (save_tasks_to_csv path w).2
            ∧ files w' = <[path := to_csv (read_tasks w)]> (files w).
Proof.
  intros [? ? []| |].
  - left. apply files_kept_create.
  - left. apply files_kept_update.
  - left. apply files_kept_reset.
  - left. apply files_kept_seed.
  - left. apply files_kept_load.
  - right. exists path. split; [done|].
    unfold save_tasks_to_csv, bind. rewrite get_tasks_df_eq.
    unfold rows_of, write_file, ret. cbn [fst snd files].
    rewrite snapshot_rows. cbn. by rewrite init_files.
  - left. apply files_kept_get.
  - left. done.
  - left. apply files_kept_set_threshold.
  - left. apply files_kept_derive.
  - left. apply files_kept_summary.
  - left. apply files_kept_get_threshold.
  - left. apply files_kept_health.
Qed.

Lemma files_written_only_by_save_witness :
  files (load_tasks_from_csv DEFAULT_DATA_PATH short_file_world).2 = files short_file_world
  ∨ ∃ path,
      (load_tasks_from_csv DEFAULT_DATA_PATH short_file_world).2
      = (save_tasks_to_csv path short_file_world).2
      ∧ files (load_tasks_from_csv DEFAULT_DATA_PATH short_file_world).2
        = <[path := to_csv (read_tasks short_file_world)]> (files short_file_world).
Proof.
  apply (files_written_only_by_save steady_env).
  apply app_store, call_load.
Defined.

(** ** Elapsed days and the derived flags *)

Lemma checked_valid t t' : checked t = Some t' → valid_datetime t' = true.
Proof. unfold checked. destruct (valid_datetime t) eqn:Hv; [|done]. by intros [= <-]. Qed.

Lemma fromisoformat_valid s t : fromisoformat s = Some t → valid_datetime t = true.
Proof.
  unfold fromisoformat. intros H.
  repeat match type of H with
         | (mbind _ ?o) = Some _ =>
             let E := fresh in destruct o as [?|] eqn:E; [cbn in H|done]
         | (let '(_, _) := ?p in _) = Some _ => destruct p
         | match ?x with _ => _ end = Some _ => destruct x; [|try done]
         | checked _ = Some _ => apply checked_valid in H
         | None = Some _ => done
         end; try done.
Qed.

Lemma stamp_valid c t : stamp c = Some t → valid_datetime t = true.
Proof. destruct c as [s|]; [apply fromisoformat_valid|done]. Qed.

Lemma day_us_pos : 0 < day_us.
Proof. done. Qed.

Lemma elapsed_days_floor now c t :
  stamp c = Some t → elapsed_days now c = Some ((epoch_us now - epoch_us t) `div` day_us).
Proof.
  intros Hc. unfold elapsed_days. rewrite Hc.
  change (Some (days (datetime_sub now t)) = Some ((epoch_us now - epoch_us t) `div` day_us)).
  by rewrite timedelta_days_floor.
Qed.

(** X10: for a stamp written the way [isoformat] writes it ([YYYY-MM-DD],
    or that followed by one separator character, [HH:MM:SS] and optionally
    a fraction of six digits; no UTC offset), [compute_task_age_days] and
    [compute_inactivity_days] return the whole days between the stamp and
    the clock, rounded down (so 0 during the first 24 hours), and a
    negative number exactly when the stamp lies after the clock; each
    reads the clock once. *)
Theorem elapsed_whole_days E s t w :
  fromisoformat s = Some t →
  ∃ n, compute_task_age_days E (Str s) w = (Ok n, advance 1 w)
    ∧ compute_inactivity_days E (Str s) w = (Ok n, advance 1 w)
    ∧ n * day_us ≤ epoch_us (clock E (ticks w)) - epoch_us t < (n + 1) * day_us
    ∧ (valid_datetime (clock E (ticks w)) = true →
       (0 ≤ n ↔ datetime_le t (clock E (ticks w)))).
Proof.
  intros Hs. exists ((epoch_us (clock E (ticks w)) - epoch_us t) `div` day_us).
  assert (stamp (Str s) = Some t) as Hc by done.
  pose proof (compute_days_ok E (Str s) w t Hc) as Hrun.
  rewrite timedelta_days_floor in Hrun.
  split; [done|]. split; [done|]. split.
  - unfold day_us. Z.div_mod_to_equations. lia.
  - intros Hv. rewrite datetime_le_epoch by eauto using fromisoformat_valid.
    unfold day_us. Z.div_mod_to_equations. lia.
Qed.

Lemma elapsed_whole_days_witness :
  ∃ n, compute_task_age_days steady_env (Str "2024-01-01T13:00:00") empty_world
       = (Ok n, advance 1 empty_world)
    ∧ n * day_us ≤ epoch_us (Datetime 2024 1 3 12 0 0 0)
                   - epoch_us (Datetime 2024 1 1 13 0 0 0) < (n + 1) * day_us.
Proof.
  destruct (elapsed_whole_days steady_env "2024-01-01T13:00:00" (Datetime 2024 1 1 13 0 0 0)
              empty_world eq_refl) as (n & H1 & _ & H2 & _).
  exists n. split; [exact H1|exact H2].
Defined.

(** X11: with a clock that stands still and stamps in order (created, then
    last updated, then now), no task is inactive for longer than it
    exists, and neither figure is negative. *)
Theorem inactivity_within_age E now df w :
  steady E now → valid_datetime now = true →
  Forall (λ r, stamp_le (created_at r) (last_updated_at r)
               ∧ not_after now (last_updated_at r)) df →
  ∃ d w', with_derived_metrics E df w = (Ok d, w')
    ∧ length (age_days d) = length df ∧ length (inactivity_days d) = length df
    ∧ ∀ i a n, age_days d !! i = Some a → inactivity_days d !! i = Some n → 0 ≤ n ≤ a.
Proof.
  intros Hsteady Hnow Hall.
  destruct df as [|r0 df0]; [eexists _, _; split; [reflexivity|]; split_and!; [done|done|];
                            intros i a n; cbn; by rewrite lookup_nil|].
  set (df := r0 :: df0) in *.
  destruct (with_derived_metrics_ok E df w) as (age & inact & Hrun & Hl1 & Hl2 & Hcols); [done| |].
  { eapply Forall_impl; [exact Hall|]. intros r [(x & y & Hx & Hy & _) _]. split; by eexists. }
  eexists _, _. split; [exact Hrun|]. cbn [age_days inactivity_days derive].
  split_and!; [done|done|]. intros i a n Ha Hn.
  destruct (lookup_lt_is_Some_2 df i) as [r Hr].
  { rewrite <- Hl1. by apply lookup_lt_Some in Ha. }
  destruct (Hcols i r Hr) as [Hage Hinact]. rewrite !Hsteady in Hage, Hinact.
  rewrite Forall_lookup in Hall. destruct (Hall i r Hr) as [(tc & tu & Hc & Hu & Hle) (tu' & Hu' & Hle')].
  rewrite Hu in Hu'. injection Hu' as <-.
  rewrite (elapsed_days_floor _ _ _ Hc), Ha in Hage.
  rewrite (elapsed_days_floor _ _ _ Hu), Hn in Hinact.
  injection Hage as ->. injection Hinact as ->.
  apply datetime_le_epoch in Hle; [|by eauto using stamp_valid..].
  apply datetime_le_epoch in Hle'; [|by eauto using stamp_valid..].
  split.
  - apply Z.div_pos; [lia|done].
  - apply Z.div_le_mono; [done|lia].
Qed.

Lemma steady_env_steady : steady steady_env (Datetime 2024 1 3 12 0 0 0).
Proof. by intros k. Qed.

Lemma inactivity_within_age_witness :
  ∃ d w', with_derived_metrics steady_env two_tasks empty_world = (Ok d, w')
    ∧ ∀ i a n, age_days d !! i = Some a → inactivity_days d !! i = Some n → 0 ≤ n ≤ a.
Proof.
  destruct (inactivity_within_age steady_env (Datetime 2024 1 3 12 0 0 0) two_tasks empty_world)
    as (d & w' & Hrun & _ & _ & H).
  - exact steady_env_steady.
  - reflexivity.
  - repeat constructor;
      first [ by exists (Datetime 2024 1 1 0 0 0 0), (Datetime 2024 1 1 0 0 0 0)
            | by exists (Datetime 2024 1 1 0 0 0 0) ].
  - exists d, w'. split; [exact Hrun|exact H].
Defined.

Lemma compute_days_result E c w :
  ∃ n, compute_task_age_days E c w = (days_since (clock E (ticks w)) c, advance n w).
Proof.
  unfold compute_task_age_days, fromisoformat_cell, days_since.
  destruct c as [s|]; [destruct (fromisoformat s)|]; run_py;
    first [by exists 1%nat | exists 0%nat; by rewrite advance_0].
Qed.

Lemma series_apply_steady E now cells w w0 :
  steady E now →
  (series_apply (compute_task_age_days E) cells w0).1
  = (series_apply (compute_task_age_days E) cells w).1.
Proof.
  intros Hs. revert w w0. induction cells as [|c cells IH]; intros w w0; [done|].
  simpl. unfold bind at 1 3.
  destruct (compute_days_result E c w) as [n ->].
  destruct (compute_days_result E c w0) as [n0 ->]. rewrite !Hs.
  destruct (days_since now c) as [a|e]; [|done].
  unfold bind at 1 2. specialize (IH (advance n w) (advance n0 w0)).
  destruct (series_apply _ cells (advance n w)) as [[ys|e] w1],
           (series_apply _ cells (advance n0 w0)) as [[ys0|e0] w2]; simpl in *; congruence.
Qed.

Lemma current_threshold_advance n w : current_threshold (advance n w) = current_threshold w.
Proof. done. Qed.

Lemma with_derived_metrics_steady E now df w w0 :
  steady E now → current_threshold w0 = current_threshold w →
  (with_derived_metrics E df w0).1 = (with_derived_metrics E df w).1.
Proof.
  intros Hs Hth. destruct df as [|r df]; [done|]. unfold with_derived_metrics.
  change (compute_inactivity_days E) with (compute_task_age_days E).
  unfold bind at 1 4.
  pose proof (series_apply_steady E now (created_at <$> r :: df) w w0 Hs) as H1.
  destruct (series_apply _ (created_at <$> r :: df) w) as [[age|e] w1] eqn:Hw,
           (series_apply _ (created_at <$> r :: df) w0) as [[age0|e0] w2] eqn:Hw0;
    simpl in H1; try (cbn; congruence). injection H1 as ->.
  apply series_apply_world in Hw as [n ->]. apply series_apply_world in Hw0 as [n0 ->].
  unfold bind at 1 3.
  pose proof (series_apply_steady E now (last_updated_at <$> r :: df)
                (advance n w) (advance n0 w0) Hs) as H2.
  destruct (series_apply _ (last_updated_at <$> r :: df) (advance n w)) as [[ina|e] w1] eqn:Hw,
           (series_apply _ (last_updated_at <$> r :: df) (advance n0 w0)) as [[ina0|e0] w2] eqn:Hw0;
    simpl in H2; try (cbn; congruence). injection H2 as ->.
  apply series_apply_world in Hw as [m ->]. apply series_apply_world in Hw0 as [m0 ->].
  unfold bind. rewrite !get_threshold_eq. unfold ret. cbn [fst].
  by rewrite !current_threshold_advance, Hth.
Qed.

(** X12: with a clock that stands still, what [with_derived_metrics]
    returns (a frame or an exception) depends on the rows given and the
    threshold only: not on the stored table, the files, or the number of
    earlier clock readings. *)
Theorem derived_metrics_repeatable E now df w w0 :
  steady E now → current_threshold w0 = current_threshold w →
  (with_derived_metrics E df w0).1 = (with_derived_metrics E df w).1.
Proof. apply with_derived_metrics_steady. Qed.

Lemma derived_metrics_repeatable_witness :
  (with_derived_metrics steady_env two_tasks one_task_world).1
  = (with_derived_metrics steady_env two_tasks empty_world).1.
Proof.
  apply (derived_metrics_repeatable steady_env (Datetime 2024 1 3 12 0 0 0)).
  - intros k. reflexivity.
  - reflexivity.
Defined.

(** X13: the flags of a row of the derived frame: [is_blocked] is "status
    is Blocked", [is_long_running] is "status is not Completed and the age
    is at least twice the threshold"; a completed task is never
    long-running. *)
Theorem derived_flags_per_row E df w d w' i r :
  with_derived_metrics E df w = (Ok d, w') → df !! i = Some r →
  ∃ a, age_days d !! i = Some a
    ∧ is_blocked d !! i = Some (bool_decide (status r = Str "Blocked"))
    ∧ is_long_running d !! i
      = Some (bool_decide (status r ≠ Str "Completed" ∧ 2 * current_threshold w ≤ a))
    ∧ (status r = Str "Completed" → is_long_running d !! i = Some false).
Proof.
  intros H Hr. apply with_derived_metrics_inv in H
    as [(-> & _)|(Hne & age & inact & k & -> & Hl1 & Hl2 & _)]; [done|].
  destruct (lookup_lt_is_Some_2 age i) as [a Ha].
  { rewrite Hl1. by apply lookup_lt_Some in Hr. }
  exists a. cbn [age_days is_blocked is_long_running derive].
  assert (zip_with andb ((λ r, bool_decide (status r ≠ Str "Completed")) <$> df)
            ((λ a, current_threshold w * 2 <=? a) <$> age) !! i
          = Some (bool_decide (status r ≠ Str "Completed" ∧ 2 * current_threshold w ≤ a)))
    as Hlong.
  { rewrite lookup_zip_with, !list_lookup_fmap, Hr, Ha. cbn. f_equal.
    destruct (Z.leb_spec (current_threshold w * 2) a);
      destruct (decide (status r = Str "Completed")) as [Hc|Hc];
      rewrite ?(bool_decide_eq_false_2 _ (λ H, H Hc)), ?(bool_decide_eq_true_2 _ Hc); cbn;
      symmetry; first [apply bool_decide_eq_true_2; split; [done|lia]
                      |apply bool_decide_eq_false_2; intros [? ?]; first [done|lia]]. }
  split_and!; [done| |done|].
  - by rewrite list_lookup_fmap, Hr.
  - intros Hc. rewrite Hlong. f_equal. apply bool_decide_eq_false_2. by intros [? _].
Qed.

Lemma derived_flags_per_row_witness :
  ∃ d a, (with_derived_metrics steady_env two_tasks empty_world).1 = Ok d
    ∧ age_days d !! 0%nat = Some a
    ∧ is_blocked d !! 0%nat = Some false.
Proof.
  destruct (with_derived_metrics steady_env two_tasks empty_world) as [[d|e] w'] eqn:Hrun;
    [|discriminate Hrun].
  destruct (derived_flags_per_row steady_env two_tasks empty_world d w' 0
              (Row (Str "a") (Str "first") (Str "") (Str "Alice") (Str "Planned")
                   (Str "2024-01-01T00:00:00") (Str "2024-01-01T00:00:00")) Hrun eq_refl)
    as (a & Ha & Hb & _).
  exists d, a. split; [reflexivity|]. split; [exact Ha|exact Hb].
Defined.

Lemma no_stamp_days now c : no_stamp c → ∃ e, days_since now c = Raise e.
Proof. intros [->| ->]; by eexists. Qed.

Lemma days_since_exn now c e :
  days_since now c = Raise e → e = TypeError ∨ e = ValueError.
Proof.
  unfold days_since. destruct c as [s|]; [destruct (fromisoformat s)|]; intros [=]; auto.
Qed.

Lemma series_apply_exn E cells w e w' :
  series_apply (compute_task_age_days E) cells w = (Raise e, w') →
  e = TypeError ∨ e = ValueError.
Proof.
  revert w. induction cells as [|c cells IH]; intros w; [done|].
  simpl. unfold bind at 1. destruct (compute_days_result E c w) as [n ->].
  destruct (days_since _ c) as [a|e0] eqn:Hc.
  - unfold bind at 1.
    destruct (series_apply _ cells (advance n w)) as [[ys|e1] w1] eqn:Hrun; [done|].
    intros [= <- <-]. by eapply IH.
  - intros [= <- <-]. by eapply days_since_exn.
Qed.

Lemma series_apply_no_stamp E cells w :
  Exists no_stamp cells →
  ∃ e w', series_apply (compute_task_age_days E) cells w = (Raise e, w').
Proof.
  intros Hex. revert w. induction Hex as [c cells Hc|c cells _ IH]; intros w.
  - simpl. unfold bind at 1. destruct (compute_days_result E c w) as [n ->].
    destruct (no_stamp_days (clock E (ticks w)) c Hc) as [e ->]. eauto.
  - simpl. unfold bind at 1. destruct (compute_days_result E c w) as [n ->].
    destruct (days_since _ c) as [a|e0]; [|eauto].
    destruct (IH (advance n w)) as (e & w' & Hrun).
    unfold bind. rewrite Hrun. eauto.
Qed.

(** A table with a row whose creation or update stamp is missing or empty
    has no derived metrics: [with_derived_metrics] raises (the exception
    of [datetime.fromisoformat]), and with it [compute_health] and
    [daily_summary]; the store is left as it was. *)
Lemma with_derived_metrics_raises E df w :
  Exists (λ r, no_stamp (created_at r) ∨ no_stamp (last_updated_at r)) df →
  ∃ e w', with_derived_metrics E df w = (Raise e, w')
    ∧ (e = TypeError ∨ e = ValueError)
    ∧ session w' = session w ∧ heap w' = heap w.
Proof.
  intros Hex.
  destruct df as [|r df]; [by apply Exists_nil in Hex|].
  unfold with_derived_metrics.
  change (compute_inactivity_days E) with (compute_task_age_days E).
  unfold bind at 1.
  destruct (series_apply _ (created_at <$> r :: df) w) as [[age|e] w1] eqn:H1.
  - apply series_apply_world in H1 as Hw. destruct Hw as [n ->].
    assert (Exists no_stamp (last_updated_at <$> r :: df)) as Hu.
    { apply Exists_fmap. apply Exists_exists in Hex as (r0 & Hin & [Hc|Hu]).
      - exfalso. destruct (series_apply_no_stamp E (created_at <$> r :: df) w) as (e & w' & Hr).
        { apply Exists_fmap, Exists_exists. eauto. }
        congruence.
      - apply Exists_exists. eauto. }
    destruct (series_apply_no_stamp E _ (advance n w) Hu) as (e & w' & H2).
    unfold bind. rewrite H2.
    apply series_apply_exn in H2 as He.
    apply series_apply_world in H2 as [m ->]. eauto 10.
  - apply series_apply_exn in H1 as He.
    apply series_apply_world in H1 as [m ->]. eauto 10.
Qed.

(** X14: a table with a row whose creation or update stamp is missing or
    empty has no derived metrics: [with_derived_metrics] raises (the
    [TypeError] or [ValueError] of [datetime.fromisoformat]), and with it
    [compute_health] and [daily_summary]; the session and the frames are
    left as they were. *)
Theorem metrics_need_stamps E df w :
  Exists (λ r, no_stamp (created_at r) ∨ no_stamp (last_updated_at r)) df →
  ∃ e w', with_derived_metrics E df w = (Raise e, w')
    ∧ (e = TypeError ∨ e = ValueError)
    ∧ compute_health E df w = (Raise e, w')
    ∧ daily_summary E df w = (Raise e, w')
    ∧ session w' = session w ∧ heap w' = heap w.
Proof.
  intros Hex.
  destruct (with_derived_metrics_raises E df w Hex) as (e & w' & Hrun & He & Hs & Hh).
  exists e, w'. split_and!; try done.
  - unfold compute_health, bind. by rewrite Hrun.
  - unfold daily_summary, bind. by rewrite Hrun.
Qed.

Lemma metrics_need_stamps_witness :
  ∃ e w', with_derived_metrics steady_env
            [Row (Str "a") (Str "first") (Str "") (Str "Alice") (Str "Planned") (Str "") NaN]
            empty_world = (Raise e, w').
Proof.
  destruct (metrics_need_stamps steady_env
              [Row (Str "a") (Str "first") (Str "") (Str "Alice") (Str "Planned") (Str "") NaN]
              empty_world) as (e & w' & Hrun & _).
  - apply Exists_cons_hd. left. right. reflexivity.
  - exists e, w'. exact Hrun.
Defined.

Lemma elapsed_days_self now c : stamp c = Some now → elapsed_days now c = Some 0.
Proof. intros Hc. by rewrite (elapsed_days_floor _ _ _ Hc), Z.sub_diag. Qed.

(** X15: touching a task clears its at-risk flag: in a session that has
    loaded no file, right after a successful [update_task], with a clock
    that stands still from that call on and a positive threshold, the
    derived metrics show the task with inactivity 0 and not at risk. *)
Theorem update_clears_at_risk E now id title_in description_in owner_in status_in w :
  edited E w →
  (∀ k, (ticks w ≤ k)%nat → clock E k = now) → valid_datetime now = true →
  Forall well_stamped (read_tasks w) → 0 < current_threshold w →
  ¬ update_fails id title_in owner_in status_in (read_tasks w) →
  ∃ w1 i r d w2,
    update_task E id title_in description_in owner_in status_in w = (Ok true, w1)
    ∧ read_tasks w1 !! i = Some r ∧ task_id r = Str id
    ∧ with_derived_metrics E (read_tasks w1) w1 = (Ok d, w2)
    ∧ inactivity_days d !! i = Some 0
    ∧ at_risk d !! i = Some false.
Proof.
  intros Hed Hs Hnow Hall Hth Hok.
  destruct (update_task_effect E id title_in description_in owner_in status_in w
              (edited_wf E w Hed) (λ c, edited_no_float E w c Hed) Hok)
    as (w1 & i & r & r' & Hrun & Hr & Hid & _ & Hr' & _ & _ & _ & _ & Hlast & Hid' & Hcr
        & Hrest & _ & Hticks).
  pose proof (threshold_kept_current _ _
                (threshold_kept_update E id title_in description_in owner_in status_in w)) as Hth1.
  rewrite Hrun in Hth1. cbn [snd] in Hth1.
  assert (stamp (last_updated_at r') = Some now) as Hstamp.
  { rewrite Hlast, Hs by lia. by apply fromisoformat_isoformat. }
  assert (Forall well_stamped (read_tasks w1)) as Hall1.
  { apply Forall_lookup. intros j rj Hj. destruct (decide (j = i)) as [->|Hne].
    - rewrite Hr' in Hj. injection Hj as <-. split; [|by eexists].
      rewrite Hcr. rewrite Forall_lookup in Hall. by destruct (Hall i r Hr).
    - rewrite Hrest in Hj by done. rewrite Forall_lookup in Hall. by apply (Hall j). }
  destruct (with_derived_metrics_ok E (read_tasks w1) w1) as (age & inact & Hd & _ & _ & Hcols);
    [by intros Hnil; rewrite Hnil in Hr'|done|].
  exists w1, i, r'. eexists _, _. split_and!; [done|done|congruence|exact Hd| |].
  - cbn [inactivity_days derive].
    destruct (Hcols i r' Hr') as [_ ->]. rewrite Hs by lia. by apply elapsed_days_self.
  - cbn [at_risk derive]. rewrite list_lookup_fmap.
    destruct (Hcols i r' Hr') as [_ ->]. rewrite Hs by lia.
    rewrite (elapsed_days_self _ _ Hstamp).
    cbn. f_equal. apply Z.leb_gt. lia.
Qed.

Lemma read_stale_task_world :
  read_tasks stale_task_world
  = [Row (Str "00000000-0000-4000-8000-000000000000") (Str "Write report") (Str "")
         (Str "Alice") (Str "Planned") (Str "2024-01-01T09:00:00")
         (Str "2024-01-01T09:00:00")].
Proof. vm_compute. reflexivity. Qed.

Lemma stale_task_world_edited : edited late_env stale_task_world.
Proof.
  exists ∅. apply rtc_once.
  exact (edit_create late_env "Write report" (Some "") "Alice" "Planned" (fresh_session ∅)).
Qed.

Lemma update_clears_at_risk_witness :
  (∃ d0, (with_derived_metrics late_env (read_tasks stale_task_world) stale_task_world).1
         = Ok d0 ∧ at_risk d0 = [true])
  ∧ ∃ w1 i d w2,
      update_task late_env "00000000-0000-4000-8000-000000000000" None None None
        (Some "Blocked") stale_task_world = (Ok true, w1)
      ∧ with_derived_metrics late_env (read_tasks w1) w1 = (Ok d, w2)
      ∧ at_risk d !! i = Some false.
Proof.
  split; [eexists; split; vm_compute; reflexivity|].
  destruct (update_clears_at_risk late_env (Datetime 2024 1 10 9 0 0 0)
              "00000000-0000-4000-8000-000000000000" None None None (Some "Blocked")
              stale_task_world stale_task_world_edited)
    as (w1 & i & r & d & w2 & Hrun & _ & _ & Hd & _ & Hrisk).
  - intros k Hk. destruct k as [|k]; [vm_compute in Hk; lia|reflexivity].
  - reflexivity.
  - rewrite read_stale_task_world. apply List.Forall_cons; [|apply List.Forall_nil].
    split; eexists; reflexivity.
  - vm_compute. reflexivity.
  - rewrite read_stale_task_world. intros [H|[H|[H|H]]].
    + apply H. apply list_elem_of_here.
    + destruct H as (t & Ht & _). discriminate Ht.
    + destruct H as (o & Ho & _). discriminate Ho.
    + destruct H as (s & Hs & Hn). injection Hs as <-. apply Hn.
      do 2 apply list_elem_of_further. apply list_elem_of_here.
  - exists w1, i, d, w2. split; [exact Hrun|]. split; [exact Hd|exact Hrisk].
Defined.

(** ** Loading a file *)

Lemma well_shaped_parses c : well_shaped c → parses c = true.
Proof.
  intros [_ Hall]. unfold parses. apply negb_true_iff, not_true_is_false.
  intros (rec & Hin & Hlt)%existsb_exists. apply Nat.ltb_lt in Hlt.
  rewrite Forall_forall in Hall. apply list_elem_of_In, Hall in Hin. lia.
Qed.

Lemma load_tasks_from_csv_run path w :
  load_tasks_from_csv path w
  = match files w !! path with
    | None => (Ok false, (st_warning "CSV file not found." w).2)
    | Some c =>
        if parses c
        then (Ok true,
              World (<[fresh (dom (heap w)) := loaded_rows c]> (heap w))
                    (Session (Some (fresh (dom (heap w))))
                             (inactivity_threshold_days (session w)))
                    (files w) (messages w) (ticks w) (draws w))
        else (Ok false, (st_error "Failed to load tasks from CSV: ParserError" w).2)
    end.
Proof.
  unfold load_tasks_from_csv, try_except, read_file. unfold bind at 1.
  destruct (files w !! path) as [c|]; [|done].
  unfold bind at 1. unfold read_csv, parses.
  destruct (existsb _ _); [done|].
  unfold ret at 1. cbv beta iota. cbn [negb].
  set (rows := raw_select _).
  assert (rows = loaded_rows c) as -> by (unfold rows, loaded_rows, fill_missing; reflexivity).
  generalize (loaded_rows c). intros rows'. by destruct w.
Qed.

Lemma raw_column_notin name cols : name ∉ cols.*1 → raw_column name cols = [].
Proof.
  induction cols as [|[n col] cols IH]; [done|]. cbn.
  intros [Hne Hni]%not_elem_of_cons. rewrite decide_False by done. by apply IH.
Qed.

Lemma raw_column_app_l name cols cols' :
  name ∈ cols.*1 → raw_column name (cols ++ cols') = raw_column name cols.
Proof.
  induction cols as [|[n col] cols IH]; cbn; [by intros ?%elem_of_nil|].
  intros [->|Hin]%elem_of_cons.
  - by rewrite !decide_True.
  - destruct (decide (n = name)); [done|by apply IH].
Qed.

Lemma raw_column_app_r name cols v :
  name ∉ cols.*1 → raw_column name (cols ++ [(name, v)]) = v.
Proof.
  induction cols as [|[n col] cols IH]; cbn.
  - intros _. by rewrite decide_True.
  - intros [Hne Hni]%not_elem_of_cons. rewrite decide_False by done. by apply IH.
Qed.

Lemma fill_missing_cons col cols df :
  fill_missing (col :: cols) df
  = fill_missing cols (if raw_has (column_name col) df then df
                       else raw_add (column_name col) (Str "") df).
Proof. done. Qed.

Lemma fill_missing_len cols df : raw_len (fill_missing cols df) = raw_len df.
Proof.
  revert df. induction cols as [|col cols IH]; intros df; [done|].
  rewrite fill_missing_cons, IH. by destruct (raw_has _ _).
Qed.

Lemma fill_missing_keeps cols df name :
  name ∈ (raw_columns df).*1 →
  raw_column name (raw_columns (fill_missing cols df)) = raw_column name (raw_columns df).
Proof.
  revert df. induction cols as [|col cols IH]; intros df Hin; [done|].
  rewrite fill_missing_cons. unfold raw_has.
  case_bool_decide as Hhas; [by apply IH|].
  rewrite IH; cbn; [by apply raw_column_app_l|].
  rewrite fmap_app. apply elem_of_app. by left.
Qed.

Lemma fill_missing_column cols df name :
  name ∉ (raw_columns df).*1 → name ∈ column_name <$> cols →
  raw_column name (raw_columns (fill_missing cols df)) = replicate (raw_len df) (Str "").
Proof.
  revert df. induction cols as [|col cols IH]; intros df Hni Hin.
  { by apply elem_of_nil in Hin. }
  rewrite fill_missing_cons. unfold raw_has. case_bool_decide as Hhas.
  - apply IH; [done|]. rewrite fmap_cons in Hin.
    apply elem_of_cons in Hin as [->|Hin]; done.
  - destruct (decide (name = column_name col)) as [->|Hne].
    + rewrite fill_missing_keeps; cbn; [by apply raw_column_app_r|].
      rewrite fmap_app. apply elem_of_app. right. cbn. apply list_elem_of_here.
    + rewrite IH; [done| |].
      * cbn. rewrite fmap_app. intros [?|Hx%list_elem_of_singleton]%elem_of_app; done.
      * rewrite fmap_cons in Hin. apply elem_of_cons in Hin as [->|Hin]; done.
Qed.

Lemma imap_fst_names {A} (g : nat → string → A) (names : list string) :
  (imap (λ j name, (name, g j name)) names).*1 = names.
Proof.
  revert g. induction names as [|n names IH]; intros g; [done|].
  cbn. f_equal. apply (IH (λ j, g (S j))).
Qed.

Lemma column_required col : col ∈ required_cols.
Proof. destruct col; unfold required_cols; set_solver. Qed.

Lemma loaded_rows_length c : length (loaded_rows c) = length (records c).
Proof.
  unfold loaded_rows, raw_select. by rewrite length_fmap, length_seq, fill_missing_len.
Qed.

Lemma raw_select_elem df r :
  r ∈ raw_select df →
  ∃ i, (i < raw_len df)%nat ∧ ∀ col, get_col col r = raw_cell df col i.
Proof.
  unfold raw_select. intros (i & -> & Hi)%list_elem_of_fmap. apply elem_of_seq in Hi.
  exists i. split; [lia|]. intros col. by destruct col.
Qed.

Lemma fill_missing_select df col r :
  column_name col ∉ (raw_columns df).*1 →
  r ∈ raw_select (fill_missing required_cols df) → get_col col r = Str "".
Proof.
  intros Hni (i & Hi & ->)%raw_select_elem.
  rewrite fill_missing_len in Hi.
  unfold raw_cell. rewrite fill_missing_column.
  - by rewrite lookup_replicate_2.
  - done.
  - apply list_elem_of_fmap. exists col. split; [done|apply column_required].
Qed.

Lemma loaded_rows_missing c col r :
  column_name col ∉ header c → r ∈ loaded_rows c → get_col col r = Str "".
Proof.
  intros Hni. apply fill_missing_select. cbn [raw_columns]. by rewrite imap_fst_names.
Qed.

Lemma load_tasks_from_csv_ok path c w :
  files w !! path = Some c → parses c = true →
  ∃ w', load_tasks_from_csv path w = (Ok true, w') ∧ wf w'
    ∧ read_tasks w' = loaded_rows c ∧ messages w' = messages w
    ∧ current_threshold w' = current_threshold w.
Proof.
  intros Hc Hp. rewrite load_tasks_from_csv_run, Hc, Hp. eexists. split; [done|].
  split_and!; [|by unfold read_tasks; cbn; rewrite lookup_insert_eq|done|done].
  intros r [= <-]. cbn. rewrite lookup_insert_eq. by eexists.
Qed.

(** X19: [load_tasks_from_csv] never raises; when it returns [False] the
    session and its frames are the ones it found and one message is
    reported, the warning "CSV file not found." when there is no file
    under the path.  It never writes a file, reads the clock, draws an
    identifier or changes the threshold. *)
Theorem load_failure_keeps_store path w :
  ∃ b w', load_tasks_from_csv path w = (Ok b, w')
    ∧ files w' = files w ∧ ticks w' = ticks w ∧ draws w' = draws w
    ∧ inactivity_threshold_days (session w') = inactivity_threshold_days (session w)
    ∧ (files w !! path = None →
       b = false ∧ messages w' = messages w ++ [(Warning, "CSV file not found.")])
    ∧ (b = false →
       session w' = session w ∧ heap w' = heap w
       ∧ ∃ lvl msg, messages w' = messages w ++ [(lvl, msg)])
    ∧ (b = true → messages w' = messages w ∧ is_Some (files w !! path)).
Proof.
  rewrite load_tasks_from_csv_run.
  destruct (files w !! path) as [c|] eqn:Hc; [destruct (parses c)|]; eexists _, _;
    (split; [reflexivity|]); cbn; split_and!; try done; eauto.
Qed.

(** X20: a load replaces the table by the rows of the file: its outcome
    and the rows it installs are the same whatever tasks the store held
    before (nothing is merged or kept). *)
Theorem load_replaces_table path w1 w2 :
  files w1 !! path = files w2 !! path →
  (load_tasks_from_csv path w1).1 = (load_tasks_from_csv path w2).1
  ∧ ((load_tasks_from_csv path w1).1 = Ok true →
     read_tasks (load_tasks_from_csv path w1).2 = read_tasks (load_tasks_from_csv path w2).2).
Proof.
  intros Hf. rewrite !load_tasks_from_csv_run, Hf.
  destruct (files w2 !! path) as [c|]; [destruct (parses c)|]; cbn; split; try done.
  intros _. unfold read_tasks. cbn. by rewrite !lookup_insert_eq.
Qed.

Lemma load_replaces_table_witness :
  (load_tasks_from_csv DEFAULT_DATA_PATH short_file_world).1
  = (load_tasks_from_csv DEFAULT_DATA_PATH
       (seed_demo_tasks steady_env short_file_world).2).1.
Proof.
  exact (proj1 (load_replaces_table DEFAULT_DATA_PATH short_file_world
                  (seed_demo_tasks steady_env short_file_world).2 eq_refl)).
Defined.

(** X21: loading a file whose records have one field per column (two
    columns or more): the load succeeds, the table has one row per record,
    and every required column the file does not have holds the empty text
    in every row. *)
Theorem load_fills_missing_columns path c w :
  files w !! path = Some c → well_shaped c →
  ∃ w', load_tasks_from_csv path w = (Ok true, w') ∧ wf w'
    ∧ length (read_tasks w') = length (records c)
    ∧ ∀ col r, column_name col ∉ header c → r ∈ read_tasks w' → get_col col r = Str "".
Proof.
  intros Hc Hs.
  destruct (load_tasks_from_csv_ok path c w Hc (well_shaped_parses c Hs))
    as (w' & Hrun & Hwf & Hread & _).
  exists w'. rewrite Hread. split_and!; [done|done|apply loaded_rows_length|].
  intros col r. apply loaded_rows_missing.
Qed.

Lemma load_fills_missing_columns_witness :
  ∃ w', load_tasks_from_csv DEFAULT_DATA_PATH short_file_world = (Ok true, w')
    ∧ length (read_tasks w') = 1%nat
    ∧ ∀ r, r ∈ read_tasks w' → title r = Str "".
Proof.
  destruct (load_fills_missing_columns DEFAULT_DATA_PATH short_file short_file_world)
    as (w' & Hrun & _ & Hlen & Hcols).
  - reflexivity.
  - split; [vm_compute; lia|]. apply List.Forall_cons; [reflexivity|apply List.Forall_nil].
  - exists w'. split; [exact Hrun|]. split; [exact Hlen|].
    intros r Hr. apply (Hcols c_title r); [|exact Hr].
    vm_compute. intros H.
    repeat (apply elem_of_cons in H as [H|H]; [discriminate H|]).
    by apply elem_of_nil in H.
Defined.

(** X22: a file with records but without a [created_at] or a
    [last_updated_at] column loads, and the table it leaves has no derived
    metrics: [with_derived_metrics], [compute_health] and [daily_summary]
    raise on it. *)
Theorem load_without_stamps_breaks_metrics E path c w :
  files w !! path = Some c → well_shaped c → records c ≠ [] →
  "created_at" ∉ header c ∨ "last_updated_at" ∉ header c →
  ∃ w1 e, load_tasks_from_csv path w = (Ok true, w1)
    ∧ read_tasks w1 ≠ []
    ∧ (with_derived_metrics E (read_tasks w1) w1).1 = Raise e
    ∧ (compute_health E (read_tasks w1) w1).1 = Raise e
    ∧ (daily_summary E (read_tasks w1) w1).1 = Raise e.
Proof.
  intros Hc Hs Hne Hmiss.
  destruct (load_tasks_from_csv_ok path c w Hc (well_shaped_parses c Hs))
    as (w1 & Hrun & Hwf & Hread & _).
  assert (read_tasks w1 ≠ []) as Hne1.
  { rewrite Hread. intros Hnil. apply (f_equal length) in Hnil.
    rewrite loaded_rows_length in Hnil. by destruct (records c). }
  destruct (with_derived_metrics_raises E (read_tasks w1) w1) as (e & w2 & Hd & _).
  { destruct (read_tasks w1) as [|r rows] eqn:Hrows; [done|]. apply Exists_cons_hd.
    assert (r ∈ loaded_rows c) as Hin by (rewrite <- Hread; apply list_elem_of_here).
    destruct Hmiss as [Hm|Hm].
    - left. right. by apply (loaded_rows_missing c c_created_at).
    - right. right. by apply (loaded_rows_missing c c_last_updated_at). }
  exists w1, e. split_and!; [done|done|by rewrite Hd| |].
  - unfold compute_health, bind. by rewrite Hd.
  - unfold daily_summary, bind. by rewrite Hd.
Qed.

Lemma load_without_stamps_breaks_metrics_witness :
  ∃ w1 e, load_tasks_from_csv DEFAULT_DATA_PATH unstamped_file_world = (Ok true, w1)
    ∧ (daily_summary steady_env (read_tasks w1) w1).1 = Raise e.
Proof.
  destruct (load_without_stamps_breaks_metrics steady_env DEFAULT_DATA_PATH unstamped_file
              unstamped_file_world)
    as (w1 & e & Hrun & _ & _ & _ & Hsum).
  - reflexivity.
  - split; [vm_compute; lia|]. apply List.Forall_cons; [reflexivity|apply List.Forall_nil].
  - discriminate.
  - left. vm_compute. intros H.
    repeat (apply elem_of_cons in H as [H|H]; [discriminate H|]).
    by apply elem_of_nil in H.
  - exists w1, e. split; [exact Hrun|exact Hsum].
Defined.

(** ** Badges, reset and demo data *)

Lemma risk_badges_derived E df w d w' :
  with_derived_metrics E df w = (Ok d, w') →
  risk_badges d
  = (series_sum (is_blocked d), series_sum (at_risk d), series_sum (is_long_running d)).
Proof.
  intros H. apply with_derived_metrics_inv in H
    as [(-> & -> & _)|(Hne & age & inact & k & -> & Hl1 & Hl2 & _)]; [done|].
  unfold risk_badges. cbn [base derive]. destruct (decide (length df = 0%nat)) as [H0|H0].
  - by destruct df.
  - done.
Qed.

(** X18: the dashboard computes the derived frame, then [compute_health]
    (which derives the metrics again) and [risk_badges] on it.  The
    Blocked badge always equals the health figure; with a clock that
    stands still the health figures exist and all three badges equal
    them. *)
Theorem badges_agree_with_health E df w d w1 :
  with_derived_metrics E df w = (Ok d, w1) →
  (∀ h w2, compute_health E df w1 = (Ok h, w2) → (risk_badges d).1.1 = health.blocked h)
  ∧ (∀ now, steady E now →
       ∃ h w2, compute_health E df w1 = (Ok h, w2)
         ∧ risk_badges d = (health.blocked h, health.at_risk h, health.long_running h)).
Proof.
  intros Hrun. rewrite (risk_badges_derived _ _ _ _ _ Hrun). split.
  - intros h w2 (d2 & Hd2 & ->)%compute_health_inv. cbn.
    apply with_derived_metrics_inv in Hrun
      as [(-> & -> & _)|(Hne & age & inact & k & -> & _)];
    apply with_derived_metrics_inv in Hd2
      as [(Hnil & -> & _)|(Hne2 & age2 & inact2 & k2 & -> & _)];
      first [reflexivity | by destruct Hne2 | by destruct Hne].
  - intros now Hs.
    pose proof (threshold_kept_current _ _ (threshold_kept_derive E df w)) as Hth.
    rewrite Hrun in Hth. cbn [snd] in Hth.
    pose proof (with_derived_metrics_steady E now df w w1 Hs Hth) as Heq.
    rewrite Hrun in Heq.
    destruct (with_derived_metrics E df w1) as [[d1|e] w2] eqn:Hd1; [|done].
    cbn in Heq. injection Heq as ->.
    eexists _, w2. split; [by apply compute_health_run|done].
Qed.

Lemma badges_agree_with_health_witness :
  ∃ d w1 h w2, with_derived_metrics steady_env two_tasks empty_world = (Ok d, w1)
    ∧ compute_health steady_env two_tasks w1 = (Ok h, w2)
    ∧ risk_badges d = (health.blocked h, health.at_risk h, health.long_running h).
Proof.
  destruct (with_derived_metrics steady_env two_tasks empty_world) as [[d|e] w1] eqn:Hrun;
    [|discriminate Hrun].
  destruct (badges_agree_with_health steady_env two_tasks empty_world d w1 Hrun) as [_ H].
  destruct (H (Datetime 2024 1 3 12 0 0 0)) as (h & w2 & Hh & Hb); [intros k; reflexivity|].
  exists d, w1, h, w2. split; [reflexivity|]. split; [exact Hh|exact Hb].
Defined.

(** X24: [reset_all_tasks] empties the table whatever it held and touches
    nothing else: the threshold, the files, the messages and every frame
    handed out earlier stay as they are; the health figures of the emptied
    store are all zero, its summary the four lines with zeros, and both
    are found without reading the clock. *)
Theorem reset_all_tasks_clears E w :
  ∃ w', reset_all_tasks w = (Ok tt, w') ∧ wf w' ∧ read_tasks w' = []
    ∧ (∀ r f, heap w !! r = Some f → heap w' !! r = Some f)
    ∧ inactivity_threshold_days (session w') = inactivity_threshold_days (session w)
    ∧ files w' = files w ∧ messages w' = messages w
    ∧ ticks w' = ticks w ∧ draws w' = draws w
    ∧ compute_health E (read_tasks w') w' = (Ok (health.Health 0 0 0 0 ∅ ∅), w')
    ∧ daily_summary E (read_tasks w') w'
      = (Ok (join newline (summary_lines 0 0 0 0 0)), w').
Proof.
  set (w' := World (<[fresh (dom (heap w)) := []]> (heap w))
                   (Session (Some (fresh (dom (heap w)))) (inactivity_threshold_days (session w)))
                   (files w) (messages w) (ticks w) (draws w)).
  assert (read_tasks w' = []) as Hread.
  { unfold read_tasks. cbn. by rewrite lookup_insert_eq. }
  exists w'. rewrite Hread. split_and!; try done.
  - intros r [= <-]. cbn. rewrite lookup_insert_eq. by eexists.
  - intros r f Hr. cbn. rewrite lookup_insert_ne; [done|].
    intros <-. pose proof (is_fresh (dom (heap w))) as Hf.
    apply not_elem_of_dom in Hf. congruence.
Qed.

Lemma seed_demo_tasks_run E w :
  ∃ w', seed_demo_tasks E w = (Ok tt, w') ∧ wf w'
    ∧ read_tasks w'
      = demo_rows (Str (isoformat (clock E (ticks w))))
          (uuid4 E (draws w)) (uuid4 E (S (draws w))) (uuid4 E (S (S (draws w))))
          (uuid4 E (S (S (S (draws w))))) (uuid4 E (S (S (S (S (draws w))))))
    ∧ ticks w' = S (ticks w) ∧ draws w' = (5 + draws w)%nat
    ∧ messages w' = messages w ∧ files w' = files w.
Proof.
  unfold seed_demo_tasks. run_py.
  eexists. split; [reflexivity|]. unfold wf, read_tasks. simpl.
  rewrite lookup_insert_eq. split_and!; try done.
  intros r [= <-]. rewrite lookup_insert_eq. by eexists.
Qed.

Lemma all_zero (xs : list Z) n :
  length xs = n → (∀ i, (i < n)%nat → xs !! i = Some 0) → xs = replicate n 0.
Proof.
  intros Hl Hx. apply list_eq. intros i. destruct (decide (i < n)%nat) as [Hi|Hi].
  - by rewrite Hx, lookup_replicate_2.
  - rewrite !lookup_ge_None_2; [done|rewrite length_replicate; lia|lia].
Qed.

(** X25: [seed_demo_tasks] replaces the table by five demo tasks, whatever
    it held, with one clock reading and five identifiers.  Right after it,
    with a clock that stands still and a positive threshold, the health
    figures are: 5 tasks, 1 blocked, none at risk, none long-running, two
    in progress, one completed. *)
Theorem seed_then_health E now w :
  steady E now → valid_datetime now = true → 0 < current_threshold w →
  ∃ w1 h w2, seed_demo_tasks E w = (Ok tt, w1)
    ∧ task_id <$> read_tasks w1 = (λ k, Str (uuid4 E (k + draws w))) <$> seq 0 5
    ∧ ticks w1 = S (ticks w) ∧ draws w1 = (5 + draws w)%nat
    ∧ compute_health E (read_tasks w1) w1 = (Ok h, w2)
    ∧ health.total h = 5%nat ∧ health.blocked h = 1%nat
    ∧ health.at_risk h = 0%nat ∧ health.long_running h = 0%nat
    ∧ health.by_status h !! "In Progress" = Some 2%nat
    ∧ health.by_status h !! "Completed" = Some 1%nat.
Proof.
  intros Hs Hnow Hth.
  destruct (seed_demo_tasks_run E w) as (w1 & Hrun & Hwf & Hread & Hticks & Hdraws & _).
  pose proof (threshold_kept_current _ _ (threshold_kept_seed E w)) as Hth1.
  rewrite Hrun in Hth1. cbn [snd] in Hth1.
  rewrite Hs in Hread.
  destruct (with_derived_metrics_ok E (read_tasks w1) w1) as (age & inact & Hd & Hl1 & Hl2 & Hcols).
  { by rewrite Hread. }
  { rewrite Hread. unfold demo_rows.
    repeat first
      [ apply List.Forall_nil
      | apply List.Forall_cons;
        [unfold well_stamped; cbn [created_at last_updated_at];
         rewrite stamp_isoformat by done; split; by eexists|] ]. }
  assert (age = replicate 5 0 ∧ inact = replicate 5 0) as [-> ->].
  { rewrite Hread in Hl1, Hl2. split; apply all_zero; try done; intros i Hi;
      destruct (lookup_lt_is_Some_2 (read_tasks w1) i) as [r Hr]; try (rewrite Hread; cbn; lia);
      destruct (Hcols i r Hr) as [Ha Hi']; rewrite ?Ha, ?Hi', Hs;
      apply elapsed_days_self;
      rewrite Hread in Hr; do 5 (destruct i as [|i]; [injection Hr as <-; by apply stamp_isoformat|]);
      done. }
  exists w1. eexists _, _. split; [done|]. split_and!.
  - by rewrite Hread.
  - done.
  - done.
  - apply (compute_health_run _ _ _ _ _ Hd).
  - cbn. by rewrite Hread.
  - cbn. by rewrite Hread.
  - cbn. rewrite Hth1. destruct (Z.leb_spec (current_threshold w) 0); [lia|done].
  - cbn. rewrite Hth1. destruct (Z.leb_spec (current_threshold w * 2) 0); [lia|].
    rewrite Hread. done.
  - cbn [health.by_status]. rewrite Hread, value_counts_lookup. by vm_compute.
  - cbn [health.by_status]. rewrite Hread, value_counts_lookup. by vm_compute.
Qed.

Lemma seed_then_health_witness :
  ∃ w1 h w2, seed_demo_tasks steady_env one_task_world = (Ok tt, w1)
    ∧ compute_health steady_env (read_tasks w1) w1 = (Ok h, w2)
    ∧ health.total h = 5%nat ∧ health.blocked h = 1%nat.
Proof.
  destruct (seed_then_health steady_env (Datetime 2024 1 3 12 0 0 0) one_task_world)
    as (w1 & h & w2 & Hrun & _ & _ & _ & Hh & Ht & Hb & _).
  - intros k. reflexivity.
  - reflexivity.
  - vm_compute. reflexivity.
  - exists w1, h, w2. split; [exact Hrun|]. split; [exact Hh|]. split; [exact Ht|exact Hb].
Defined.

(** ** Set-up, round trips and look-up *)

(** X5: [_init_session_state] creates what is missing and replaces
    nothing: a table and a threshold already in the session are kept, a
    missing table becomes the empty table, a missing threshold the
    default, and a second call changes nothing. *)
Theorem init_session_state_keeps w :
  ∃ w', _init_session_state w = (Ok tt, w')
    ∧ is_Some (tasks_df (session w')) ∧ is_Some (inactivity_threshold_days (session w'))
    ∧ (∀ r, tasks_df (session w) = Some r → tasks_df (session w') = Some r)
    ∧ (∀ d, inactivity_threshold_days (session w) = Some d →
            inactivity_threshold_days (session w') = Some d)
    ∧ (tasks_df (session w) = None → read_tasks w' = [])
    ∧ (inactivity_threshold_days (session w) = None →
       inactivity_threshold_days (session w') = Some DEFAULT_INACTIVITY_THRESHOLD_DAYS)
    ∧ read_tasks w' = read_tasks w
    ∧ _init_session_state w' = (Ok tt, w').
Proof.
  exists (init_world w). rewrite !init_eq, init_idem, init_read.
  destruct w as [h [[r|] [t|]] fs ms k d]; cbn; split_and!; try done; try by eexists.
Qed.

Lemma to_csv_parses f : parses (to_csv f) = true.
Proof.
  unfold parses. apply negb_true_iff, not_true_is_false.
  intros (rec & Hin & Hlt)%existsb_exists. apply Nat.ltb_lt in Hlt.
  apply list_elem_of_In in Hin. cbn in Hin.
  apply list_elem_of_fmap in Hin as (r & -> & _). cbn in Hlt. lia.
Qed.

Lemma save_tasks_to_csv_run path w :
  wf w →
  ∃ w', save_tasks_to_csv path w = (Ok true, w')
    ∧ files w' = <[path := to_csv (read_tasks w)]> (files w)
    ∧ read_tasks w' = read_tasks w ∧ messages w' = messages w ∧ wf w'.
Proof.
  intros Hwf. unfold save_tasks_to_csv, bind. rewrite get_tasks_df_eq.
  unfold rows_of, write_file, ret. cbn [fst snd]. rewrite snapshot_rows.
  eexists. split; [reflexivity|]. cbn [files messages].
  split_and!.
  - unfold snapshot_world. cbn [files]. by rewrite init_files.
  - rewrite <- (snapshot_read w Hwf). done.
  - unfold snapshot_world. cbn [messages]. by rewrite init_messages.
  - intros r Hr. by apply (snapshot_wf w Hwf).
Qed.

(** X23: saving and loading again under the same path succeeds and gives
    back a table with as many rows as the store held; the save leaves the
    table as it was and nothing is reported. *)
Theorem save_then_load_row_count path w :
  wf w →
  ∃ w1 w2, save_tasks_to_csv path w = (Ok true, w1)
    ∧ read_tasks w1 = read_tasks w
    ∧ load_tasks_from_csv path w1 = (Ok true, w2)
    ∧ length (read_tasks w2) = length (read_tasks w)
    ∧ messages w2 = messages w.
Proof.
  intros Hwf.
  destruct (save_tasks_to_csv_run path w Hwf) as (w1 & Hsave & Hfiles & Hread & Hmsg & Hwf1).
  destruct (load_tasks_from_csv_ok path (to_csv (read_tasks w)) w1)
    as (w2 & Hload & _ & Hread2 & Hmsg2 & _).
  { by rewrite Hfiles, lookup_insert_eq. }
  { apply to_csv_parses. }
  exists w1, w2. split_and!; [done|done|done| |congruence].
  rewrite Hread2, loaded_rows_length. cbn. by rewrite length_fmap.
Qed.

Lemma save_then_load_row_count_witness :
  ∃ w1 w2, save_tasks_to_csv DEFAULT_DATA_PATH one_task_world = (Ok true, w1)
    ∧ load_tasks_from_csv DEFAULT_DATA_PATH w1 = (Ok true, w2)
    ∧ length (read_tasks w2) = length (read_tasks one_task_world).
Proof.
  destruct (save_then_load_row_count DEFAULT_DATA_PATH one_task_world wf_one_task_world)
    as (w1 & w2 & Hs & _ & Hl & Hn & _).
  exists w1, w2. split; [exact Hs|]. split; [exact Hl|exact Hn].
Defined.

Lemma index_eq_last c v f r :
  v ∉ get_col c <$> f → get_col c r = v →
  ∃ rest, index_eq c v (f ++ [r]) = length f :: rest.
Proof.
  intros Hni Hv.
  destruct (index_eq_present c v (f ++ [r])) as (i & rest & Hi).
  { rewrite fmap_app. apply elem_of_app. right. cbn. rewrite Hv. apply list_elem_of_here. }
  exists rest. rewrite Hi. f_equal.
  apply index_eq_cons in Hi as (r' & Hr' & Hv' & _).
  destruct (decide (i < length f)%nat) as [Hlt|Hge].
  - rewrite lookup_app_l in Hr' by done. exfalso. apply Hni.
    apply list_elem_of_fmap. exists r'. split; [done|]. by eapply list_elem_of_lookup_2.
  - apply lookup_lt_Some in Hr'. rewrite length_app in Hr'. cbn in Hr'. lia.
Qed.

(** X4: a task just created is found by its identifier: [update_task]
    with the identifier [create_task] returned succeeds and changes that
    task (the last row) and no other. *)
Theorem create_then_update E title_in d owner_in status_in status' w :
  wf w → strip title_in ≠ "" → strip owner_in ≠ "" →
  status_in ∈ VALID_STATUSES → status' ∈ VALID_STATUSES →
  Str (uuid4 E (draws w)) ∉ task_id <$> read_tasks w →
  ∃ task w1 w2,
    create_task E title_in (Some d) owner_in status_in w = (Ok (Some task), w1)
    ∧ task_id task = Str (uuid4 E (draws w))
    ∧ update_task E (uuid4 E (draws w)) None None None (Some status') w1 = (Ok true, w2)
    ∧ read_tasks w2
      = read_tasks w
        ++ [set_col c_last_updated_at (Str (isoformat (clock E (S (ticks w)))))
              (set_col c_status (Str status') task)].
Proof.
  intros Hwf Ht Ho Hs Hs' Hfresh.
  destruct (create_task_accepts E title_in d owner_in status_in w Hwf Ht Ho Hs)
    as (w1 & Hrun & Hread & Hwf1 & Hticks & _).
  set (task := new_task E title_in d owner_in status_in w) in *.
  destruct (update_task_spec_text E (uuid4 E (draws w)) None None None (Some status') w1 Hwf1)
    as (b & w2 & Hup & _ & _ & _ & Hcase).
  { intros c. rewrite Hread. destruct c; by eapply float_column_app. }
  destruct (index_eq_last c_task_id (Str (uuid4 E (draws w))) (read_tasks w) task Hfresh eq_refl)
    as [rest Hidx].
  rewrite Hread, Hidx in Hcase. unfold update_accepts in Hcase.
  rewrite bool_decide_eq_true_2 in Hcase by done. cbn [andb] in Hcase.
  destruct Hcase as (-> & _ & _ & Hread2).
  exists task, w1, w2. split_and!; [done|done|done|].
  rewrite Hread2, Hticks. rewrite alter_app_r_alt by done.
  by rewrite Nat.sub_diag.
Qed.

Lemma create_then_update_witness :
  ∃ task w1 w2,
    create_task steady_env "Plan sprint" (Some "next week") "Bob" "Planned" one_task_world
    = (Ok (Some task), w1)
    ∧ update_task steady_env (uuid4 steady_env (draws one_task_world)) None None None
        (Some "Completed") w1 = (Ok true, w2)
    ∧ length (read_tasks w2) = 2%nat.
Proof.
  destruct (create_then_update steady_env "Plan sprint" "next week" "Bob" "Planned" "Completed"
              one_task_world wf_one_task_world)
    as (task & w1 & w2 & Hc & _ & Hu & Hr).
  - vm_compute. discriminate.
  - vm_compute. discriminate.
  - vm_compute. apply list_elem_of_here.
  - vm_compute. do 3 apply list_elem_of_further. apply list_elem_of_here.
  - vm_compute. intros H. apply list_elem_of_singleton in H. discriminate H.
  - exists task, w1, w2. split; [exact Hc|]. split; [exact Hu|]. rewrite Hr. reflexivity.
Defined.
